(** * infraapp: report lifecycle and moderation workflow

    A shallow embedding of the business logic of the issue-reporting
    application: county validation ([utils/irishCounties.ts]), the
    submission workflow of the report screen and the screen around it, the
    image verification endpoint, the moderation handlers of the admin
    dashboard, the leaderboard aggregation and the lists of the home
    screen, the feed with its filters and its upvote toggle, and the
    message list and the report history of the account screen.

    Conventions.
    - A JavaScript string is a [string] where the text is ASCII, and
      [toLowerCase] then lowers the ASCII letters. The county validator is
      also given on every JavaScript string, a sequence of UTF-16 code
      units, with the lower-casing of the engine.
    - A JavaScript number that carries a measurement (coordinates, accuracy,
      distance) is a binary64 [float]; counters and timestamps, which stay
      integral and far below 2^53, are [Z].
    - A [Date] is its epoch value in milliseconds.
    - A Firestore collection is the list of its documents (storage id and
      data) in the order a query returns them; a [where] clause is a filter.
    - [null] / [undefined] is [None]. *)

From Stdlib Require Import ZArith List String Ascii Bool Lia Floats.
From Stdlib Require Import Permutation Sorted.
From Stdlib Require Reals Lra.
From stdpp Require Import base strings list gmap.

Open Scope string_scope.
Open Scope Z_scope.

(** ** JavaScript primitives used by the screens *)

Module Js.

(** [!s] on a string: only the empty string is falsy. *)
Definition truthy_string (s : string) : bool :=
  match s with
  | EmptyString => false
  | String _ _ => true
  end.

(** [!x] on a number: [0], [-0] and [NaN] are falsy. *)
Definition truthy_number (x : float) : bool :=
  negb (PrimFloat.eqb x 0%float || PrimFloat.is_nan x).

(** [String.prototype.startsWith]. *)
Definition startsWith (s pre : string) : bool := String.prefix pre s.

Definition lower_ascii (c : ascii) : ascii :=
  let n := N_of_ascii c in
  if ((65 <=? n) && (n <=? 90))%N then ascii_of_N (n + 32) else c.

(** [String.prototype.toLowerCase], on ASCII text. *)
Fixpoint toLowerCase (s : string) : string :=
  match s with
  | EmptyString => EmptyString
  | String c s' => String (lower_ascii c) (toLowerCase s')
  end.

(** [Array.prototype.some]. *)
Definition some {A} (p : A -> bool) (l : list A) : bool := existsb p l.

(** A thrown value: [status] is the property the retry test of the
    verification client reads, [message] the text of the error. An
    [Error] built with [new Error(msg)] has no [status]. *)
Record Error := mkError { err_status : option Z; err_message : string }.

Definition new_Error (msg : string) : Error :=
  {| err_status := None; err_message := msg |}.

(** The double-quote character, as a string. *)
Definition quote : string := String (ascii_of_N 34) EmptyString.

(** [a || b] on strings. *)
Definition or_string (a b : string) : string :=
  if truthy_string a then a else b.

(** The property names every object literal inherits from
    [Object.prototype]. Each of them holds a function or an object, hence a
    truthy value, so [o[k]] is truthy for such a [k] even when [o] has no
    own property [k]. *)
Definition objectPrototypeNames : list string :=
  [ "constructor"; "hasOwnProperty"; "isPrototypeOf";
    "propertyIsEnumerable"; "toLocaleString"; "toString"; "valueOf";
    "__proto__"; "__defineGetter__"; "__defineSetter__";
    "__lookupGetter__"; "__lookupSetter__" ].

Definition inherited (k : string) : bool :=
  existsb (String.eqb k) objectPrototypeNames.

(** Stable sort of [Array.prototype.sort(cmp)]: [cmp a b <= 0] keeps [a]
    in front of [b]. *)
Fixpoint sort_insert {A} (cmp : A -> A -> Z) (x : A) (l : list A) : list A :=
  match l with
  | [] => [x]
  | y :: l' => if cmp x y <=? 0 then x :: l else y :: sort_insert cmp x l'
  end.

Definition sort {A} (cmp : A -> A -> Z) (l : list A) : list A :=
  fold_right (sort_insert cmp) [] l.

Lemma truthy_string_spec s : truthy_string s = true <-> s <> "".
Proof. destruct s; simpl; split; congruence. Qed.

Lemma sort_insert_perm {A} (cmp : A -> A -> Z) x l :
  Permutation (x :: l) (sort_insert cmp x l).
Proof.
  induction l as [|y l IH]; simpl; [reflexivity|].
  destruct (cmp x y <=? 0); [reflexivity|].
  rewrite perm_swap. now apply perm_skip.
Qed.

Lemma sort_perm {A} (cmp : A -> A -> Z) l : Permutation l (sort cmp l).
Proof.
  induction l as [|x l IH]; simpl; [constructor|].
  etransitivity; [apply perm_skip, IH | apply sort_insert_perm].
Qed.

(** *** [Date]

    A [Date] holds a time value: milliseconds since the epoch, in UTC. The
    fields of a date are read and written on the local wall clock, which
    the host derives from the time value through [LocalTZA(t, isUTC)], the
    offset of local time from UTC in milliseconds: at the UTC instant [t]
    when [isUTC] is true, at the local time value [t] otherwise. The
    clipping of time values beyond 8.64e15 ms is left out. *)

Definition msPerDay : Z := 86400000.
Definition msPerHour : Z := 3600000.
Definition msPerMinute : Z := 60000.
Definition msPerSecond : Z := 1000.

Definition Day (t : Z) : Z := t / msPerDay.
Definition HourFromTime (t : Z) : Z := (t / msPerHour) mod 24.
Definition MinFromTime (t : Z) : Z := (t / msPerMinute) mod 60.
Definition SecFromTime (t : Z) : Z := (t / msPerSecond) mod 60.
Definition msFromTime (t : Z) : Z := t mod msPerSecond.

Definition MakeTime (hour min sec ms : Z) : Z :=
  hour * msPerHour + min * msPerMinute + sec * msPerSecond + ms.

Definition MakeDate (day time : Z) : Z := day * msPerDay + time.

Definition LocalTime (LocalTZA : Z -> bool -> Z) (t : Z) : Z :=
  t + LocalTZA t true.

Definition UTC (LocalTZA : Z -> bool -> Z) (t : Z) : Z :=
  t - LocalTZA t false.

(** [Date.prototype.getHours] *)
Definition getHours (LocalTZA : Z -> bool -> Z) (tv : Z) : Z :=
  HourFromTime (LocalTime LocalTZA tv).

(** [Date.prototype.setHours(hour)]: the new time value. *)
Definition setHours (LocalTZA : Z -> bool -> Z) (tv hour : Z) : Z :=
  let t := LocalTime LocalTZA tv in
  let date :=
    MakeDate (Day t)
      (MakeTime hour (MinFromTime t) (SecFromTime t) (msFromTime t)) in
  UTC LocalTZA date.

Lemma MakeDate_parts (t k : Z) :
  MakeDate (Day t)
    (MakeTime (HourFromTime t + k) (MinFromTime t) (SecFromTime t)
       (msFromTime t))
  = t + k * msPerHour.
Proof.
  unfold MakeDate, MakeTime, Day, HourFromTime, MinFromTime, SecFromTime,
    msFromTime, msPerDay, msPerHour, msPerMinute, msPerSecond.
  Z.div_mod_to_equations. lia.
Qed.

(** [d.setHours(d.getHours() + k)] moves the local wall clock [k] hours
    ahead and reads the result back as a UTC instant. *)
Lemma setHours_getHours (LocalTZA : Z -> bool -> Z) (tv k : Z) :
  setHours LocalTZA tv (getHours LocalTZA tv + k)
  = UTC LocalTZA (LocalTime LocalTZA tv + k * msPerHour).
Proof.
  unfold setHours, getHours. cbv zeta. now rewrite MakeDate_parts.
Qed.

(** [s.includes(pat)] *)
Definition includes (s pat : string) : bool :=
  match String.index 0 pat s with Some _ => true | None => false end.

Lemma sort_insert_by_key {A} (key : A -> Z) (x : A) (l : list A) :
  StronglySorted (fun a b => key a >= key b) l ->
  StronglySorted (fun a b => key a >= key b)
    (sort_insert (fun a b => key b - key a) x l).
Proof.
  induction l as [|y l IH]; simpl; intros Hs.
  - constructor; [constructor|constructor].
  - apply StronglySorted_inv in Hs as [Hs Hy].
    destruct (key y - key x <=? 0) eqn:E.
    + apply Z.leb_le in E. constructor.
      * now constructor.
      * constructor; [lia|].
        eapply List.Forall_impl; [|exact Hy]. simpl. intros z Hz. lia.
    + apply Z.leb_gt in E. constructor; [now apply IH|].
      eapply Permutation_Forall; [apply sort_insert_perm|].
      constructor; [lia|assumption].
Qed.

Lemma sort_by_key {A} (key : A -> Z) (l : list A) :
  StronglySorted (fun a b => key a >= key b)
    (sort (fun a b => key b - key a) l).
Proof.
  induction l as [|x l IH]; simpl; [constructor|].
  now apply sort_insert_by_key.
Qed.

Lemma sorted_app_order {A} (R : A -> A -> Prop) (l1 l2 : list A) :
  StronglySorted R (l1 ++ l2) ->
  forall a b, In a l1 -> In b l2 -> R a b.
Proof.
  induction l1 as [|x l1 IH]; simpl; intros Hs a b Ha Hb; [destruct Ha|].
  apply StronglySorted_inv in Hs as [Hs Hx]. destruct Ha as [<-|Ha].
  - rewrite List.Forall_forall in Hx. apply Hx, in_or_app. now right.
  - now apply IH.
Qed.

End Js.

(** ** The documents of the store *)

Module Doc.

Inductive Status := pending | approved | completed.

#[global] Instance Status_eq_dec : EqDecision Status.
Proof. solve_decision. Defined.

Record Coords := mkCoords {
  latitude : float;
  longitude : float;
  accuracy : option float
}.

(** [Location.LocationObject] of expo-location, as far as the screens read it. *)
Record LocationObject := mkLocation { coords : Coords }.

(** The data of a document of the [reports] collection. [id] is the id the
    client generated; the storage id is the key under which the document is
    kept. [timestamp] is the server's clock at creation; [upvotes] is
    absent until the first upvote. *)
Record Report := mkReport {
  id : string;
  imageUrl : string;
  category : string;
  description : string;
  addressLine1 : string;
  addressLine2 : string;
  county : option string;
  eircode : string;
  location : option LocationObject;
  timestamp : Z;
  userId : string;
  status : Status;
  assigned : option string;
  upvotes : option Z
}.

Inductive MessageType := approval | decline | general.

(** The data of a document of the [messages] collection. [createdAt] is
    the server's clock at the write ([serverTimestamp()]); [expiresAt] is
    computed by the client. *)
Record Message := mkMessage {
  msg_userId : string;
  msg_title : string;
  msg_content : string;
  msg_type : MessageType;
  msg_reportId : string;
  msg_createdAt : Z;
  msg_read : bool;
  msg_expiresAt : Z
}.

End Doc.

(** ** County validation ([utils/irishCounties.ts]) *)

Module IrishCounties.

Definition irishCounties : list string :=
  [ "Co. Antrim"; "Co. Armagh"; "Co. Carlow"; "Co. Cavan"; "Co. Clare";
    "Co. Cork"; "Co. Derry"; "Co. Donegal";
    "Co. Down"; "Co. Dublin"; "Co. Fermanagh"; "Co. Galway"; "Co. Kerry";
    "Co. Kildare"; "Co. Kilkenny";
    "Co. Laois"; "Co. Leitrim"; "Co. Limerick"; "Co. Longford"; "Co. Louth";
    "Co. Mayo"; "Co. Meath";
    "Co. Monaghan"; "Co. Offaly"; "Co. Roscommon"; "Co. Sligo";
    "Co. Tipperary"; "Co. Tyrone";
    "Co. Waterford"; "Co. Westmeath"; "Co. Wexford"; "Co. Wicklow" ].

(** [county.startsWith("Co. ") ? county : `Co. ${county}`] *)
Definition countyWithPrefix (county : string) : string :=
  if Js.startsWith county "Co. " then county else "Co. " ++ county.

(** [isValidCounty]; the argument is [None] for [null]. *)
Definition isValidCounty (county : option string) : bool :=
  match county with
  | None => false
  | Some c =>
      if negb (Js.truthy_string c) then false
      else
        Js.some
          (fun validCounty =>
             String.eqb (Js.toLowerCase validCounty)
                        (Js.toLowerCase (countyWithPrefix c)))
          irishCounties
  end.

Example isValidCounty_prefixed : isValidCounty (Some "Co. Dublin") = true.
Proof. reflexivity. Qed.

Example isValidCounty_bare : isValidCounty (Some "Dublin") = true.
Proof. reflexivity. Qed.

Example isValidCounty_upper : isValidCounty (Some "CO. DUBLIN") = false.
Proof. reflexivity. Qed.

Example isValidCounty_bare_upper : isValidCounty (Some "DUBLIN") = true.
Proof. reflexivity. Qed.

Example isValidCounty_partial : isValidCounty (Some "Dub") = false.
Proof. reflexivity. Qed.

Example isValidCounty_fuzzy : isValidCounty (Some "Dublin ") = false.
Proof. reflexivity. Qed.

(** ** The validator on every JavaScript string

    A JavaScript string is a sequence of UTF-16 code units, and
    [toLowerCase] is the lower-casing of the Unicode standard, which
    belongs to the engine. *)

Module Utf16.
Local Open Scope N_scope.
Local Open Scope list_scope.

(** The code units of an ASCII literal of the program. *)
Definition units (s : string) : list N :=
  map N_of_ascii (list_ascii_of_string s).

(** [!s] *)
Definition truthy (s : list N) : bool :=
  match s with
  | [] => false
  | _ :: _ => true
  end.

(** [s.startsWith(pre)] *)
Fixpoint startsWith (s pre : list N) : bool :=
  match pre, s with
  | [], _ => true
  | p :: pre', u :: s' => (u =? p) && startsWith s' pre'
  | _ :: _, [] => false
  end.

(** [a === b] on strings: the same code units. *)
Fixpoint strict_equal (a b : list N) : bool :=
  match a, b with
  | [], [] => true
  | u :: a', v :: b' => (u =? v) && strict_equal a' b'
  | _, _ => false
  end.

(** What the Unicode lower-casing does to the code units that matter here:
    the capital Latin letters go to their small letters, the Kelvin sign
    U+212A goes to the small letter k. *)
Definition KELVIN_SIGN : N := 8490.

Definition lower_unit (u : N) : N :=
  if (65 <=? u) && (u <=? 90) then u + 32
  else if u =? KELVIN_SIGN then 107
  else u.

Definition is_ascii (u : N) : Prop := u < 128.

Section Engine.

(** [String.prototype.toLowerCase] of the engine. Two facts of the Unicode
    character database are used. On a string of ASCII characters and
    Kelvin signs the lower-casing works unit by unit as [lower_unit] says.
    And no other character has a lower-casing made of ASCII characters
    only (that of U+0130, the capital I with a dot, ends with the
    combining dot U+0307), so a string whose lower-casing is ASCII
    consists of ASCII characters and Kelvin signs. *)
Variable toLowerCase : list N -> list N.

Definition lowers_unit_by_unit : Prop :=
  forall s, Forall (fun u => is_ascii u \/ u = KELVIN_SIGN) s ->
            toLowerCase s = map lower_unit s.

Definition ascii_only_from_ascii_or_kelvin : Prop :=
  forall s, Forall is_ascii (toLowerCase s) ->
            Forall (fun u => is_ascii u \/ u = KELVIN_SIGN) s.

(** [county.startsWith("Co. ") ? county : `Co. ${county}`] *)
Definition countyWithPrefix (county : list N) : list N :=
  if startsWith county (units "Co. ") then county
  else units "Co. " ++ county.

(** [isValidCounty]; the argument is [None] for [null]. *)
Definition isValidCounty (county : option (list N)) : bool :=
  match county with
  | None => false
  | Some c =>
      if negb (truthy c) then false
      else
        Js.some
          (fun validCounty =>
             strict_equal (toLowerCase (units validCounty))
                          (toLowerCase (countyWithPrefix c)))
          irishCounties
  end.

End Engine.

(** *** The property as the specification words it *)

(** "Co. " *)
Definition reference_prefix : list N := [67; 111; 46; 32].

(** The input after prepending the prefix when it is absent. *)
Definition prefix_normalised (input normal : list N) : Prop :=
  (exists rest, input = reference_prefix ++ rest) /\ normal = input
  \/
  (forall rest, input <> reference_prefix ++ rest) /\
  normal = reference_prefix ++ input.

(** Two characters that are equal or the two cases of one letter. The
    letters of the county names are Latin letters; the characters that are
    a case of a Latin letter are its capital, its small letter and, for k,
    the Kelvin sign. *)
Definition capital_of (small capital : N) : Prop :=
  97 <= small <= 122 /\ (capital + 32 = small \/
                          (small = 107 /\ capital = 8490)).

Definition same_ignoring_case (u v : N) : Prop :=
  u = v \/ capital_of u v \/ capital_of v u
  \/ exists small, capital_of small u /\ capital_of small v.

(** Two strings that match case-insensitively: character by character,
    over their whole length. *)
Definition matches_ignoring_case (a b : list N) : Prop :=
  Forall2 same_ignoring_case a b.

(** One of the canonical names, as a sequence of code units. *)
Definition canonical (name : list N) : Prop :=
  exists c, In c irishCounties /\ name = units c.

Definition matches_canonical (input : list N) : Prop :=
  exists normal name,
    prefix_normalised input normal /\ canonical name /\
    matches_ignoring_case name normal.

(** *** The code units *)

Lemma strict_equal_eq (a b : list N) : strict_equal a b = true <-> a = b.
Proof.
  revert b. induction a as [|u a IH]; intros [|v b]; simpl;
    try (split; [discriminate|intros H; discriminate]); [tauto|].
  rewrite andb_true_iff, N.eqb_eq, IH. split.
  - intros [-> ->]. reflexivity.
  - intros H. inversion H. auto.
Qed.

Lemma startsWith_spec (s pre : list N) :
  startsWith s pre = true <-> exists rest, s = pre ++ rest.
Proof.
  revert s. induction pre as [|p pre IH]; intros s.
  - split; [intros _; exists s; reflexivity|now destruct s].
  - destruct s as [|u s]; simpl.
    + split; [discriminate|]. intros [rest H]. discriminate.
    + rewrite andb_true_iff, N.eqb_eq, IH. split.
      * intros [-> [rest ->]]. exists rest. reflexivity.
      * intros [rest H]. inversion H. eauto.
Qed.

Lemma countyWithPrefix_spec (input normal : list N) :
  countyWithPrefix input = normal <-> prefix_normalised input normal.
Proof.
  unfold countyWithPrefix, prefix_normalised.
  change (units "Co. ") with reference_prefix.
  destruct (startsWith input reference_prefix) eqn:Hs.
  - apply startsWith_spec in Hs. split.
    + intros <-. left. auto.
    + intros [[_ ->]|[Hn _]]; [reflexivity|].
      destruct Hs as [rest Hs]. now destruct (Hn rest).
  - assert (Hn : forall rest, input <> reference_prefix ++ rest).
    { intros rest H.
      assert (startsWith input reference_prefix = true)
        by (apply startsWith_spec; eauto).
      congruence. }
    split.
    + intros <-. right. auto.
    + intros [[[rest H] _]|[_ ->]]; [|reflexivity].
      now destruct (Hn rest).
Qed.

(** *** Letters *)

Lemma lower_unit_same (u v : N) :
  is_ascii u -> is_ascii v \/ v = KELVIN_SIGN ->
  lower_unit u = lower_unit v -> same_ignoring_case u v.
Proof.
  unfold is_ascii, lower_unit, same_ignoring_case, capital_of, KELVIN_SIGN.
  intros Hu Hv.
  destruct (N.leb_spec 65 u), (N.leb_spec u 90),
           (N.leb_spec 65 v), (N.leb_spec v 90);
    cbn [andb];
    destruct (N.eqb_spec u 8490), (N.eqb_spec v 8490);
    intros Heq; try lia;
    try (left; lia);
    try (right; left; lia);
    try (right; right; left; lia);
    try (right; right; right; exists 107; lia).
Qed.

Lemma same_lower_unit (u v : N) :
  is_ascii u -> same_ignoring_case u v ->
  (is_ascii v \/ v = KELVIN_SIGN) /\ lower_unit u = lower_unit v.
Proof.
  unfold is_ascii, lower_unit, same_ignoring_case, capital_of, KELVIN_SIGN.
  intros Hu Hsame.
  destruct (N.leb_spec 65 u), (N.leb_spec u 90),
           (N.leb_spec 65 v), (N.leb_spec v 90);
    cbn [andb];
    destruct (N.eqb_spec u 8490), (N.eqb_spec v 8490);
    destruct Hsame as [Hs|[Hs|[Hs|[small Hs]]]]; lia.
Qed.

Lemma lower_unit_ascii (u : N) : is_ascii u -> is_ascii (lower_unit u).
Proof.
  unfold is_ascii, lower_unit, KELVIN_SIGN. intros Hu.
  destruct (N.leb_spec 65 u), (N.leb_spec u 90); cbn [andb];
    destruct (N.eqb_spec u 8490); lia.
Qed.

Lemma map_lower_unit_same (name normal : list N) :
  Forall is_ascii name ->
  Forall (fun u => is_ascii u \/ u = KELVIN_SIGN) normal ->
  map lower_unit name = map lower_unit normal ->
  matches_ignoring_case name normal.
Proof.
  unfold matches_ignoring_case.
  intros Hname. revert normal.
  induction Hname as [|u name Hu Hname IH]; intros [|v normal] Hn H;
    try discriminate; [constructor|].
  inversion Hn; subst. inversion H.
  constructor; [now apply lower_unit_same|now apply IH].
Qed.

Lemma same_map_lower_unit (name normal : list N) :
  Forall is_ascii name ->
  matches_ignoring_case name normal ->
  Forall (fun u => is_ascii u \/ u = KELVIN_SIGN) normal /\
  map lower_unit name = map lower_unit normal.
Proof.
  unfold matches_ignoring_case.
  intros Hname H. induction H as [|u v name normal Huv H IH].
  - split; [constructor|reflexivity].
  - inversion Hname; subst.
    destruct (same_lower_unit u v) as [Hv Hl]; [assumption..|].
    destruct IH as [Hn Hm]; [assumption|].
    split; [now constructor|]. simpl. now rewrite Hl, Hm.
Qed.

Lemma canonical_ascii (name : list N) : canonical name -> Forall is_ascii name.
Proof.
  intros (c & Hin & ->).
  assert (H : forallb (fun c => forallb (fun u => u <? 128) (units c))
                      irishCounties = true) by (vm_compute; reflexivity).
  rewrite forallb_forall in H. specialize (H c Hin).
  rewrite forallb_forall in H. apply List.Forall_forall.
  intros u Hu. apply N.ltb_lt. auto.
Qed.

Section Matching.

Variable toLowerCase : list N -> list N.
Hypothesis unit_by_unit : lowers_unit_by_unit toLowerCase.
Hypothesis ascii_only : ascii_only_from_ascii_or_kelvin toLowerCase.

Lemma toLowerCase_ascii (name : list N) :
  Forall is_ascii name -> toLowerCase name = map lower_unit name.
Proof.
  intros H. apply unit_by_unit.
  eapply List.Forall_impl; [|exact H]. simpl. auto.
Qed.

(** The comparison of [isValidCounty] is the case-insensitive match with a
    canonical name. *)
Lemma lowered_equal_matches (name normal : list N) :
  Forall is_ascii name ->
  toLowerCase name = toLowerCase normal <->
  matches_ignoring_case name normal.
Proof.
  intros Hname. rewrite (toLowerCase_ascii name Hname). split.
  - intros H.
    assert (Hn : Forall (fun u => is_ascii u \/ u = KELVIN_SIGN) normal).
    { apply ascii_only. rewrite <- H.
      clear H. induction Hname; constructor; auto using lower_unit_ascii. }
    rewrite (unit_by_unit normal Hn) in H.
    now apply map_lower_unit_same.
  - intros H. destruct (same_map_lower_unit _ _ Hname H) as [Hn Hm].
    now rewrite (unit_by_unit normal Hn).
Qed.

Lemma some_canonical (input : list N) :
  Js.some
    (fun validCounty =>
       strict_equal (toLowerCase (units validCounty))
                    (toLowerCase (countyWithPrefix input)))
    irishCounties = true
  <-> matches_canonical input.
Proof.
  unfold Js.some, matches_canonical. rewrite existsb_exists. split.
  - intros (c & Hin & H). apply strict_equal_eq in H.
    exists (countyWithPrefix input), (units c).
    assert (Hc : canonical (units c)) by (exists c; auto).
    split; [now apply countyWithPrefix_spec|]. split; [assumption|].
    apply lowered_equal_matches; [now apply canonical_ascii|assumption].
  - intros (normal & name & Hn & Hc & Hm).
    apply countyWithPrefix_spec in Hn. subst normal.
    pose proof (canonical_ascii _ Hc) as Ha.
    destruct Hc as (c & Hin & ->). exists c. split; [assumption|].
    apply strict_equal_eq. now apply lowered_equal_matches.
Qed.

Lemma matches_same_length (a b : list N) :
  matches_ignoring_case a b -> length a = length b.
Proof. induction 1; simpl; congruence. Qed.

Lemma canonical_longer_than_prefix (name : list N) :
  canonical name -> (4 < length name)%nat.
Proof.
  intros (c & Hin & ->).
  assert (H : forallb (fun c => Nat.ltb 4 (length (units c))) irishCounties
              = true) by (vm_compute; reflexivity).
  rewrite forallb_forall in H. apply Nat.ltb_lt. auto.
Qed.

Lemma empty_not_canonical : ~ matches_canonical [].
Proof.
  intros (normal & name & Hn & Hc & Hm).
  apply countyWithPrefix_spec in Hn. subst normal.
  apply matches_same_length in Hm.
  apply canonical_longer_than_prefix in Hc.
  change (length (countyWithPrefix [])) with 4%nat in Hm. lia.
Qed.

Lemma canonical_distinct (c c' : string) :
  In c irishCounties -> In c' irishCounties ->
  matches_ignoring_case (units c) (units c') -> c = c'.
Proof.
  intros Hc Hc' Hm.
  assert (Ha : Forall is_ascii (units c))
    by (apply canonical_ascii; exists c; auto).
  destruct (same_map_lower_unit _ _ Ha Hm) as [_ Heq].
  assert (H : forallb
                (fun c =>
                   forallb
                     (fun c' =>
                        implb (strict_equal (map lower_unit (units c))
                                            (map lower_unit (units c')))
                              (String.eqb c c'))
                     irishCounties)
                irishCounties = true) by (vm_compute; reflexivity).
  rewrite forallb_forall in H. specialize (H c Hc).
  rewrite forallb_forall in H. specialize (H c' Hc').
  apply strict_equal_eq in Heq. rewrite Heq in H.
  now apply String.eqb_eq.
Qed.

End Matching.

(** An engine that lowers unit by unit, as far as the two facts go. *)
Definition lower_units (s : list N) : list N := map lower_unit s.

Lemma lower_units_unit_by_unit : lowers_unit_by_unit lower_units.
Proof. intros s _. reflexivity. Qed.

Lemma lower_units_ascii_only : ascii_only_from_ascii_or_kelvin lower_units.
Proof.
  intros s. unfold lower_units. induction s as [|u s IH]; simpl; intros H.
  - constructor.
  - inversion H as [|? ? Hu Hs]; subst. constructor; [|now apply IH].
    revert Hu. clear. unfold is_ascii, lower_unit, KELVIN_SIGN.
    destruct (N.leb_spec 65 u), (N.leb_spec u 90); cbn [andb];
      destruct (N.eqb_spec u 8490); lia.
Qed.

End Utf16.

(** *** Further properties of the validator *)

Lemma toLowerCase_app (a b : string) :
  Js.toLowerCase (a ++ b) = Js.toLowerCase a ++ Js.toLowerCase b.
Proof. induction a as [|c a IH]; simpl; [reflexivity|now rewrite IH]. Qed.

Lemma countyWithPrefix_prefixed (s : string) :
  countyWithPrefix ("Co. " ++ s) = "Co. " ++ s.
Proof. unfold countyWithPrefix, Js.startsWith. cbn. now destruct s. Qed.

Lemma isValidCounty_nonempty (s : string) :
  s <> "" ->
  isValidCounty (Some s)
  = Js.some (fun validCounty =>
               String.eqb (Js.toLowerCase validCounty)
                          (Js.toLowerCase (countyWithPrefix s)))
            irishCounties.
Proof. intros H. unfold isValidCounty. now destruct s. Qed.

(** X1. The verdict of [isValidCounty] depends only on the name part up to
    letter case: two non-empty inputs without the "Co. " prefix that differ
    only in case get the same verdict, and so do their prefixed forms. *)
Theorem isValidCounty_by_name (s s' : string) :
  s <> "" -> s' <> "" ->
  Js.startsWith s "Co. " = false ->
  Js.startsWith s' "Co. " = false ->
  Js.toLowerCase s = Js.toLowerCase s' ->
  isValidCounty (Some s') = isValidCounty (Some s) /\
  isValidCounty (Some ("Co. " ++ s)) = isValidCounty (Some s) /\
  isValidCounty (Some ("Co. " ++ s')) = isValidCounty (Some s).
Proof.
  intros Hs Hs' Hp Hp' Hlow.
  rewrite (isValidCounty_nonempty s Hs), (isValidCounty_nonempty s' Hs').
  rewrite !isValidCounty_nonempty by discriminate.
  rewrite !countyWithPrefix_prefixed.
  unfold countyWithPrefix. rewrite Hp, Hp'.
  rewrite !toLowerCase_app, Hlow. auto.
Qed.

Lemma isValidCounty_by_name_witness :
  isValidCounty (Some "DUBLIN") = isValidCounty (Some "dublin") /\
  isValidCounty (Some ("Co. " ++ "dublin")) = isValidCounty (Some "dublin") /\
  isValidCounty (Some ("Co. " ++ "DUBLIN")) = isValidCounty (Some "dublin").
Proof.
  apply (isValidCounty_by_name "dublin" "DUBLIN");
    try discriminate; reflexivity.
Defined.

(** *** ASCII text

    On ASCII text the validator is the one on byte strings that the
    screens are stated with. *)

Lemma units_app (a b : string) :
  Utf16.units (a ++ b) = (Utf16.units a ++ Utf16.units b)%list.
Proof.
  unfold Utf16.units. induction a as [|c a IH]; simpl; [reflexivity|].
  now rewrite IH.
Qed.

Lemma units_inj (a b : string) : Utf16.units a = Utf16.units b -> a = b.
Proof.
  unfold Utf16.units. revert b.
  induction a as [|c a IH]; intros [|d b]; simpl; intros H;
    try discriminate; [reflexivity|].
  inversion H as [[Hc Hr]]. f_equal; [|now apply IH].
  rewrite <- (ascii_N_embedding c), <- (ascii_N_embedding d). now rewrite Hc.
Qed.

Lemma units_toLowerCase (s : string) :
  Utf16.units (Js.toLowerCase s) = map Utf16.lower_unit (Utf16.units s).
Proof.
  unfold Utf16.units. induction s as [|c s IH]; simpl; [reflexivity|].
  rewrite IH. f_equal.
  unfold Js.lower_ascii, Utf16.lower_unit, Utf16.KELVIN_SIGN. cbv zeta.
  pose proof (N_ascii_bounded c) as Hb.
  destruct (N.leb_spec 65 (N_of_ascii c)), (N.leb_spec (N_of_ascii c) 90);
    cbn [andb]; try (rewrite N_ascii_embedding by lia; reflexivity);
    destruct (N.eqb_spec (N_of_ascii c) 8490); try lia; reflexivity.
Qed.

Lemma units_startsWith (s pre : string) :
  Utf16.startsWith (Utf16.units s) (Utf16.units pre) = Js.startsWith s pre.
Proof.
  unfold Js.startsWith, Utf16.units. revert s.
  induction pre as [|p pre IH]; intros s.
  - now destruct s.
  - destruct s as [|c s]; simpl; [reflexivity|].
    rewrite IH.
    destruct (Ascii.ascii_dec p c) as [->|Hne].
    + now rewrite N.eqb_refl.
    + destruct (N.eqb_spec (N_of_ascii c) (N_of_ascii p)) as [He|_];
        [|reflexivity].
      exfalso. apply Hne.
      rewrite <- (ascii_N_embedding c), <- (ascii_N_embedding p).
      now rewrite He.
Qed.

Lemma units_countyWithPrefix (s : string) :
  Utf16.countyWithPrefix (Utf16.units s) = Utf16.units (countyWithPrefix s).
Proof.
  unfold Utf16.countyWithPrefix, countyWithPrefix.
  rewrite units_startsWith.
  destruct (Js.startsWith s "Co. "); [reflexivity|].
  now rewrite units_app.
Qed.

Lemma units_strict_equal (a b : string) :
  Utf16.strict_equal (Utf16.units a) (Utf16.units b) = String.eqb a b.
Proof.
  destruct (String.eqb_spec a b) as [->|Hne].
  - now apply Utf16.strict_equal_eq.
  - destruct (Utf16.strict_equal _ _) eqn:H; [|reflexivity].
    apply Utf16.strict_equal_eq, units_inj in H. contradiction.
Qed.

Lemma some_ext {A} (p q : A -> bool) (l : list A) :
  (forall x, In x l -> p x = q x) -> Js.some p l = Js.some q l.
Proof.
  unfold Js.some. induction l as [|x l IH]; intros H; [reflexivity|].
  simpl. rewrite (H x) by (now left). rewrite IH; [reflexivity|].
  intros y Hy. apply H. now right.
Qed.

Lemma isValidCounty_on_ascii (toLowerCase : list N -> list N) (s : string) :
  Utf16.lowers_unit_by_unit toLowerCase ->
  Forall Utf16.is_ascii (Utf16.units s) ->
  Utf16.isValidCounty toLowerCase (Some (Utf16.units s))
  = isValidCounty (Some s).
Proof.
  intros Hlow Hs. unfold Utf16.isValidCounty, isValidCounty.
  destruct s as [|c s]; [reflexivity|].
  change (Utf16.truthy (Utf16.units (String c s))) with true.
  cbn [Js.truthy_string negb].
  apply some_ext. intros validCounty Hin.
  assert (Hv : Forall Utf16.is_ascii (Utf16.units validCounty))
    by (apply Utf16.canonical_ascii; exists validCounty; auto).
  assert (Hp : Forall Utf16.is_ascii
                 (Utf16.units (countyWithPrefix (String c s)))).
  { unfold countyWithPrefix.
    destruct (Js.startsWith (String c s) "Co. "); [assumption|].
    rewrite units_app. apply List.Forall_app. split; [|assumption].
    repeat constructor. }
  rewrite units_countyWithPrefix.
  rewrite !(Utf16.toLowerCase_ascii toLowerCase Hlow) by assumption.
  rewrite <- !units_toLowerCase. apply units_strict_equal.
Qed.

(** *** The validator and its specification *)

Section Validator.

Variable toLowerCase : list N -> list N.
Hypothesis unit_by_unit : Utf16.lowers_unit_by_unit toLowerCase.
Hypothesis ascii_only : Utf16.ascii_only_from_ascii_or_kelvin toLowerCase.

(** C7. With an engine whose [toLowerCase] obeys the two facts of the
    Unicode character database stated above, for every input
    [isValidCounty] answers true exactly when the input is a string that,
    once the "Co. " prefix is prepended when it is absent, matches one of
    the canonical county names case-insensitively: character by character
    over the whole length, two characters matching when they are equal or
    two cases of the same letter. The reference list has 32 names, no two
    of which match each other; the empty string and [null] are rejected.
    Nothing partial matches: an accepted input is as long as a canonical
    name, or as that name without its prefix. The test for the prefix is
    literal, so the prefix itself is recognised in this spelling only. On
    ASCII text the answer is the one of the validator on byte strings that
    the screens are stated with. *)
Theorem isValidCounty_spec (county : option (list N)) :
  (Utf16.isValidCounty toLowerCase county = true <->
     exists input, county = Some input /\ Utf16.matches_canonical input)
  /\ length irishCounties = 32%nat
  /\ (forall c c', In c irishCounties -> In c' irishCounties ->
                   Utf16.matches_ignoring_case (Utf16.units c) (Utf16.units c')
                   -> c = c')
  /\ Utf16.isValidCounty toLowerCase (Some []) = false
  /\ Utf16.isValidCounty toLowerCase None = false
  /\ (forall input,
        Utf16.isValidCounty toLowerCase (Some input) = true ->
        exists c, In c irishCounties /\
                  (length input = length (Utf16.units c) \/
                   (4 + length input)%nat = length (Utf16.units c)))
  /\ (forall s : string,
        Forall Utf16.is_ascii (Utf16.units s) ->
        isValidCounty (Some s)
        = Utf16.isValidCounty toLowerCase (Some (Utf16.units s))).
Proof.
  split; [|split; [reflexivity|split; [exact Utf16.canonical_distinct|
           split; [reflexivity|split; [reflexivity|split]]]]].
  - destruct county as [input|]; unfold Utf16.isValidCounty.
    + destruct (Utf16.truthy input) eqn:Ht; cbn [negb].
      * rewrite (Utf16.some_canonical toLowerCase unit_by_unit ascii_only).
        split.
        -- intros H. exists input. auto.
        -- intros [s' [Heq H]]. now inversion Heq.
      * split; [discriminate|].
        intros [s' [Heq H]]. inversion Heq; subst s'.
        destruct input; [|discriminate].
        exfalso. now apply Utf16.empty_not_canonical.
    + split; [discriminate|]. intros [s [Heq _]]. discriminate.
  - intros input H. unfold Utf16.isValidCounty in H.
    destruct (Utf16.truthy input); [|discriminate]. cbn [negb] in H.
    apply (Utf16.some_canonical toLowerCase unit_by_unit ascii_only) in H
      as (normal & name & Hn & (c & Hin & ->) & Hm).
    exists c. split; [assumption|].
    apply Utf16.matches_same_length in Hm. rewrite Hm.
    destruct Hn as [[_ ->]|[_ ->]]; [left; reflexivity|right; reflexivity].
  - intros s Hs. symmetry. now apply isValidCounty_on_ascii.
Qed.

End Validator.

(** "Kerry" written with the Kelvin sign is accepted. *)
Definition Kelvin_erry : list N := Utf16.KELVIN_SIGN :: Utf16.units "erry".

Lemma isValidCounty_spec_witness :
  (Utf16.isValidCounty Utf16.lower_units (Some Kelvin_erry) = true <->
     exists input, Some Kelvin_erry = Some input /\
                   Utf16.matches_canonical input)
  /\ length irishCounties = 32%nat
  /\ (forall c c', In c irishCounties -> In c' irishCounties ->
                   Utf16.matches_ignoring_case (Utf16.units c) (Utf16.units c')
                   -> c = c')
  /\ Utf16.isValidCounty Utf16.lower_units (Some []) = false
  /\ Utf16.isValidCounty Utf16.lower_units None = false
  /\ (forall input,
        Utf16.isValidCounty Utf16.lower_units (Some input) = true ->
        exists c, In c irishCounties /\
                  (length input = length (Utf16.units c) \/
                   (4 + length input)%nat = length (Utf16.units c)))
  /\ (forall s : string,
        Forall Utf16.is_ascii (Utf16.units s) ->
        isValidCounty (Some s)
        = Utf16.isValidCounty Utf16.lower_units (Some (Utf16.units s))).
Proof.
  exact (isValidCounty_spec Utf16.lower_units Utf16.lower_units_unit_by_unit
           Utf16.lower_units_ascii_only (Some Kelvin_erry)).
Defined.

Example isValidCounty_Kelvin :
  Utf16.isValidCounty Utf16.lower_units (Some Kelvin_erry) = true.
Proof. vm_compute. reflexivity. Qed.

End IrishCounties.

(** ** The report screen: location validity, image verification,
    duplicate check and submission *)

Module ReportScreen.

(** *** Image verification client *)

(** The JSON body of the endpoint's answer: [isVerified] on success,
    [error] (empty when absent) on failure. *)
Record Body := mkBody { body_error : string; body_isVerified : bool }.

(** What one attempt meets: the image file cannot be read, [fetch] (or the
    parsing of the answer) rejects, or the endpoint answers with an HTTP
    status and a JSON body. *)
Inductive Attempt :=
| ReadRejects (e : Js.Error)
| FetchRejects (e : Js.Error)
| Responds (http_status : Z) (body : Body).

Inductive Outcome :=
| Returns (isVerified : bool)
| Throws (e : Js.Error).

(** A run of the client: its outcome, the number of requests attempted and
    the [setTimeout] delays it waited, in order. *)
Record Run := mkRun { outcome : Outcome; attempts : nat; delays : list Z }.

(** [response.ok] *)
Definition response_ok (http_status : Z) : bool :=
  (200 <=? http_status) && (http_status <=? 299).

(** The body of the [try] block: either the value returned or the value
    thrown, with the delays waited on the way. *)
Definition attempt_once (a : Attempt) : (bool + Js.Error) * list Z :=
  match a with
  | ReadRejects e => (inr e, [])
  | FetchRejects e => (inr e, [1000])
  | Responds st body =>
      if negb (response_ok st)
      then (inr (Js.new_Error
                   (Js.or_string (body_error body) "Failed to verify image")),
            [1000])
      else (inl (body_isVerified body), [1000])
  end.

(** [error.status === 429] *)
Definition status_is_429 (e : Js.Error) : bool :=
  match Js.err_status e with
  | Some s => s =? 429
  | None => false
  end.

(** [verifyImageWithChatGPT], run against the list of what the successive
    attempts meet. The recursive call of the [catch] block consumes the
    rest of the list; [None] means the list ended while the client was
    still retrying. *)
Fixpoint verifyImageWithChatGPT (script : list Attempt) : option Run :=
  match script with
  | [] => None
  | a :: rest =>
      match attempt_once a with
      | (inl isVerified, ds) => Some (mkRun (Returns isVerified) 1 ds)
      | (inr error, ds) =>
          if status_is_429 error then
            match verifyImageWithChatGPT rest with
            | Some r =>
                Some (mkRun (outcome r) (S (attempts r))
                            (ds ++ 5000 :: delays r))
            | None => None
            end
          else
            Some (mkRun
                    (Throws (Js.new_Error
                               (Js.or_string (Js.err_message error)
                                  "Failed to verify image with AI")))
                    1 ds)
      end
  end.

Definition rate_limited : Js.Error :=
  {| Js.err_status := Some 429; Js.err_message := "Too Many Requests" |}.

(** *** Form state and environment of a submission *)

Record Form := mkForm {
  imageUri : string;
  imageUrl : string;
  uniqueId : string;
  selectedCategory : string;
  description : string;
  reportDocId : option string;
  status : option Doc.Status;
  hasExistingReport : bool;
  addressLine1 : string;
  addressLine2 : string;
  county : string;
  eircode : string;
  location : option Doc.LocationObject;
  locationAccuracy : option float;
  isLoading : bool
}.

(** What a submission finds around it: the signed-in user's id, the
    [reports] collection, what the verification attempts will meet, the
    clock and random draw read by [generateId], the clock of the server
    ([serverTimestamp()]), and the answers of the blob
    store ([uploadBytes]: the error it rejects with, if any;
    [getDownloadURL]: the URL, or the error) and of the document store
    ([addDoc]: the storage id of the new document, or the error). *)
Record Env := mkEnv {
  user : option string;
  reports : list (string * Doc.Report);
  verification : list Attempt;
  Date_now : N;
  random_million : N;
  serverTimestamp : Z;
  uploadBytes : option Js.Error;
  getDownloadURL : string + Js.Error;
  addDoc : string + Js.Error
}.

(** What a submission does to the outside: a toast shown to the user, the
    write of the image to the blob store, the write of the new document to
    the [reports] collection. *)
Inductive Effect :=
| Toast (type title text : string)
| UploadBytes (path : string)
| AddDoc (data : Doc.Report).

Definition is_write (e : Effect) : bool :=
  match e with
  | Toast _ _ _ => false
  | UploadBytes _ | AddDoc _ => true
  end.

Definition writes (es : list Effect) : list Effect := List.filter is_write es.

(** [Number.prototype.toString(36)] on a non-negative integer. *)
Definition digit36 (d : N) : ascii :=
  if (d <? 10)%N then ascii_of_N (48 + d) else ascii_of_N (87 + d).

Fixpoint toString36_aux (fuel : nat) (n : N) (acc : string) : string :=
  match fuel with
  | O => acc
  | S fuel' =>
      let acc' := String (digit36 (n mod 36)) acc in
      if (n <? 36)%N then acc' else toString36_aux fuel' (n / 36) acc'
  end.

Definition toString36 (n : N) : string :=
  toString36_aux (S (N.to_nat (N.log2 n))) n "".

(** [generateId] *)
Definition generateId (env : Env) : string :=
  toString36 (Date_now env) ++ "-" ++ toString36 (random_million env).

Example toString36_35 : toString36 35 = "z".
Proof. reflexivity. Qed.

Example toString36_36 : toString36 36 = "10".
Proof. reflexivity. Qed.

Example toString36_big : toString36 1730592000000 = "m30tslc0".
Proof. reflexivity. Qed.

(** [isLocationValid]: a fix exists, its accuracy is not worse than 100
    metres, and some address component is filled in. *)
Definition isLocationValid (st : Form) : bool :=
  match location st with
  | None => false
  | Some _ =>
      if match locationAccuracy st with
         | Some acc => Js.truthy_number acc && PrimFloat.ltb 100 acc
         | None => false
         end
      then false
      else Js.truthy_string (addressLine1 st)
           || Js.truthy_string (county st)
           || Js.truthy_string (eircode st)
  end.

(** ** Reading a submission id back *)

(** The value of a base-36 digit, as [parseInt(s, 36)] reads it. *)
Definition digit_value (c : ascii) : N :=
  let n := N_of_ascii c in
  if (n <? 58)%N then (n - 48)%N else (n - 87)%N.

(** [parseInt(s, 36)] on a string of base-36 digits, continuing from the
    value [v] read so far. *)
Fixpoint parse36_from (v : N) (s : string) : N :=
  match s with
  | EmptyString => v
  | String c s' => parse36_from (36 * v + digit_value c) s'
  end.

Definition parse36 (s : string) : N := parse36_from 0 s.

(** The characters [toString(36)] produces: digits and lower-case
    letters. *)
Definition is_digit36 (c : ascii) : bool :=
  let n := N_of_ascii c in
  ((48 <=? n) && (n <=? 57) || (97 <=? n) && (n <=? 122))%N.

Fixpoint all_digit36 (s : string) : bool :=
  match s with
  | EmptyString => true
  | String c s' => is_digit36 c && all_digit36 s'
  end.

Lemma digit36_value (d : N) : (d < 36)%N -> digit_value (digit36 d) = d.
Proof.
  intros H. unfold digit_value, digit36.
  destruct (N.ltb_spec d 10).
  - rewrite N_ascii_embedding by lia.
    destruct (N.ltb_spec (48 + d) 58); lia.
  - rewrite N_ascii_embedding by lia.
    destruct (N.ltb_spec (87 + d) 58); lia.
Qed.

Lemma digit36_is_digit (d : N) : (d < 36)%N -> is_digit36 (digit36 d) = true.
Proof.
  intros H. unfold is_digit36, digit36.
  destruct (N.ltb_spec d 10); rewrite N_ascii_embedding by lia.
  - apply orb_true_iff. left. apply andb_true_iff.
    split; apply N.leb_le; lia.
  - apply orb_true_iff. right. apply andb_true_iff.
    split; apply N.leb_le; lia.
Qed.

Lemma toString36_aux_parse (fuel : nat) :
  forall (n : N) (acc : string) (v : N),
    (n < 36 ^ N.of_nat fuel)%N ->
    exists k, parse36_from v (toString36_aux fuel n acc)
              = parse36_from (v * 36 ^ k + n)%N acc.
Proof.
  induction fuel as [|fuel IH]; intros n acc v Hn.
  - exists 0%N. simpl in *. f_equal. lia.
  - cbn [toString36_aux]. cbv zeta.
    assert (Hmod : (n mod 36 < 36)%N) by (apply N.mod_lt; lia).
    destruct (N.ltb_spec n 36) as [Hlt|Hge].
    + exists 1%N. cbn [parse36_from].
      rewrite digit36_value by assumption.
      rewrite N.mod_small by assumption. f_equal. lia.
    + assert (Hdiv : (n / 36 < 36 ^ N.of_nat fuel)%N).
      { apply N.Div0.div_lt_upper_bound.
        rewrite Nat2N.inj_succ, N.pow_succ_r' in Hn. lia. }
      destruct (IH (n / 36)%N (String (digit36 (n mod 36)) acc) v Hdiv)
        as [k Hk].
      exists (k + 1)%N. rewrite Hk. cbn [parse36_from].
      rewrite digit36_value by assumption. f_equal.
      rewrite N.pow_add_r, N.pow_1_r.
      pose proof (N.div_mod n 36 ltac:(lia)). lia.
Qed.

Lemma toString36_aux_digits (fuel : nat) :
  forall (n : N) (acc : string),
    all_digit36 acc = true ->
    all_digit36 (toString36_aux fuel n acc) = true.
Proof.
  induction fuel as [|fuel IH]; intros n acc Hacc; [assumption|].
  cbn [toString36_aux]. cbv zeta.
  assert (Hd : all_digit36 (String (digit36 (n mod 36)) acc) = true).
  { simpl. rewrite digit36_is_digit, Hacc; [reflexivity|].
    apply N.mod_lt. lia. }
  destruct (n <? 36)%N; [assumption|now apply IH].
Qed.

Lemma toString36_fuel (n : N) :
  (n < 36 ^ N.of_nat (S (N.to_nat (N.log2 n))))%N.
Proof.
  rewrite Nat2N.inj_succ, N2Nat.id.
  apply N.lt_le_trans with (2 ^ N.succ (N.log2 n))%N.
  - destruct n as [|p]; [reflexivity|].
    apply N.log2_spec. lia.
  - apply N.pow_le_mono_l. lia.
Qed.

(** Reading a base-36 spelling back gives the number. *)
Lemma parse36_toString36 (n : N) : parse36 (toString36 n) = n.
Proof.
  unfold parse36, toString36.
  destruct (toString36_aux_parse _ n "" 0%N (toString36_fuel n)) as [k Hk].
  rewrite Hk. simpl. lia.
Qed.

Lemma split_at_dash (a a' b b' : string) :
  all_digit36 a = true -> all_digit36 a' = true ->
  a ++ "-" ++ b = a' ++ "-" ++ b' -> a = a' /\ b = b'.
Proof.
  revert a'. induction a as [|c a IH]; intros a' Ha Ha' H.
  - destruct a' as [|c' a']; [simpl in H; inversion H; auto|].
    simpl in H. inversion H as [[Hc Hr]]. subst c'.
    simpl in Ha'. discriminate.
  - destruct a' as [|c' a'].
    + simpl in H. inversion H as [[Hc Hr]]. subst c.
      simpl in Ha. discriminate.
    + simpl in H. inversion H as [[Hc Hr]]. subst c'.
      simpl in Ha, Ha'. apply andb_true_iff in Ha as [_ Ha].
      apply andb_true_iff in Ha' as [_ Ha'].
      destruct (IH a' Ha Ha' Hr) as [-> ->]. auto.
Qed.

Lemma toString36_digits (n : N) : all_digit36 (toString36 n) = true.
Proof. now apply toString36_aux_digits. Qed.

(** A generated id is the clock reading and the draw in base 36, joined by
    a dash. *)
Lemma generateId_reads_back (env : Env) :
  exists a b,
    generateId env = a ++ "-" ++ b /\
    all_digit36 a = true /\ all_digit36 b = true /\
    parse36 a = Date_now env /\ parse36 b = random_million env.
Proof.
  exists (toString36 (Date_now env)), (toString36 (random_million env)).
  repeat split; auto using parse36_toString36, toString36_digits.
Qed.

(** Ids generated from different clock readings or different draws
    differ. *)
Lemma generateId_differs (env env' : Env) :
  Date_now env <> Date_now env' \/
  random_million env <> random_million env' ->
  generateId env <> generateId env'.
Proof.
  intros Hne H. unfold generateId in H.
  apply split_at_dash in H as [Ha Hb]; auto using toString36_digits.
  apply (f_equal parse36) in Ha, Hb.
  rewrite !parse36_toString36 in Ha, Hb. tauto.
Qed.

(** ** The distance formula

    The haversine formula in the form with the two-argument arc tangent,
    written over any number type with the operations it uses, so that it
    can be read in double precision, which is what a JavaScript number is,
    and in the real numbers, which is what the formula means. *)

Record Arith (T : Type) : Type := mkArith {
  n_add : T -> T -> T;
  n_sub : T -> T -> T;
  n_mul : T -> T -> T;
  n_div : T -> T -> T;
  n_sqrt : T -> T;
  n_sin : T -> T;
  n_cos : T -> T;
  n_atan2 : T -> T -> T;
  n_lit : Z -> T;           (* an integer literal *)
  n_PI : T
}.
Arguments n_add {T}.
Arguments n_sub {T}.
Arguments n_mul {T}.
Arguments n_div {T}.
Arguments n_sqrt {T}.
Arguments n_sin {T}.
Arguments n_cos {T}.
Arguments n_atan2 {T}.
Arguments n_lit {T}.
Arguments n_PI {T}.

Declare Scope number_scope.
Delimit Scope number_scope with number.

Section Formula.
Context {T : Type} (N : Arith T).
Local Notation "x + y" := (n_add N x y) : number_scope.
Local Notation "x - y" := (n_sub N x y) : number_scope.
Local Notation "x * y" := (n_mul N x y) : number_scope.
Local Notation "x / y" := (n_div N x y) : number_scope.

(** The distance in metres between two points given in degrees, on a
    sphere of radius 6 371 000 metres. *)
Definition haversine_formula (lat1 lon1 lat2 lon2 : T) : T :=
  let radius := n_lit N 6371000 in
  let phi1 := (lat1 * n_PI N / n_lit N 180)%number in
  let phi2 := (lat2 * n_PI N / n_lit N 180)%number in
  let dphi := ((lat2 - lat1) * n_PI N / n_lit N 180)%number in
  let dlambda := ((lon2 - lon1) * n_PI N / n_lit N 180)%number in
  let a := (n_sin N (dphi / n_lit N 2) * n_sin N (dphi / n_lit N 2) +
            n_cos N phi1 * n_cos N phi2 *
            n_sin N (dlambda / n_lit N 2) * n_sin N (dlambda / n_lit N 2))%number in
  let c := (n_lit N 2
            * n_atan2 N (n_sqrt N a) (n_sqrt N (n_lit N 1 - a)))%number in
  (radius * c)%number.
End Formula.

(** *** The reading in the real numbers *)

Module Exact.
Import Reals Lra.
Local Open Scope R_scope.

(** [Math.atan2 (y, x)] on real arguments: the angle of the point (x, y). *)
Definition atan2 (y x : R) : R :=
  if Rlt_dec 0 x then atan (y / x)
  else if Rlt_dec x 0
       then if Rle_dec 0 y then atan (y / x) + PI else atan (y / x) - PI
       else if Rlt_dec 0 y then PI / 2
            else if Rlt_dec y 0 then - (PI / 2) else 0.

Definition exact : Arith R :=
  mkArith R Rplus Rminus Rmult Rdiv sqrt sin cos atan2 IZR PI.

(** The haversine distance by its definition: with the
    haversine [hav theta = (1 - cos theta) / 2], two points at latitudes
    [phi1], [phi2] and longitudes [lambda1], [lambda2] on a sphere of
    radius [r] are [2 r asin (sqrt h)] apart, where
    [h = hav (phi2 - phi1) + cos phi1 cos phi2 hav (lambda2 - lambda1)].
    The coordinates are in degrees, the radius is 6 371 000 metres. *)
Definition radians (degrees : R) : R := degrees * PI / 180.

Definition hav (theta : R) : R := (1 - cos theta) / 2.

Definition haversine_metres (lat1 lon1 lat2 lon2 : R) : R :=
  let h := hav (radians lat2 - radians lat1)
           + cos (radians lat1) * cos (radians lat2)
             * hav (radians lon2 - radians lon1) in
  2 * 6371000 * asin (sqrt h).

Lemma sin_half_sqr (x : R) : sin (x / 2) * sin (x / 2) = hav x.
Proof.
  unfold hav. replace x with (2 * (x / 2)) at 3 by lra.
  rewrite cos_2a_sin. lra.
Qed.

(** The inner product of two unit vectors lies between -1 and 1. *)
Lemma unit_dot (s1 c1 s2 c2 sd cd : R) :
  s1 * s1 + c1 * c1 = 1 -> s2 * s2 + c2 * c2 = 1 -> sd * sd + cd * cd = 1 ->
  -1 <= s1 * s2 + c1 * c2 * cd <= 1.
Proof.
  intros H1 H2 H3.
  assert (Hsq : forall x : R, 0 <= x * x) by (intro x; nra).
  pose proof (Hsq (c1 - c2 * cd)) as Ha. pose proof (Hsq (c2 * sd)) as Hb.
  pose proof (Hsq (s1 - s2)) as Hc. pose proof (Hsq (c1 + c2 * cd)) as Hd.
  pose proof (Hsq (s1 + s2)) as He.
  assert (Hc2 : (c2 * cd) * (c2 * cd) + (c2 * sd) * (c2 * sd) = c2 * c2).
  { replace ((c2 * cd) * (c2 * cd) + (c2 * sd) * (c2 * sd))
      with (c2 * c2 * (sd * sd + cd * cd)) by ring.
    rewrite H3. ring. }
  assert (E1 : (c1 - c2 * cd) * (c1 - c2 * cd) + (c2 * sd) * (c2 * sd)
               + (s1 - s2) * (s1 - s2)
               = (s1 * s1 + c1 * c1)
                 + ((c2 * cd) * (c2 * cd) + (c2 * sd) * (c2 * sd))
                 + s2 * s2 - 2 * (s1 * s2 + c1 * c2 * cd)) by ring.
  assert (E2 : (c1 + c2 * cd) * (c1 + c2 * cd) + (c2 * sd) * (c2 * sd)
               + (s1 + s2) * (s1 + s2)
               = (s1 * s1 + c1 * c1)
                 + ((c2 * cd) * (c2 * cd) + (c2 * sd) * (c2 * sd))
                 + s2 * s2 + 2 * (s1 * s2 + c1 * c2 * cd)) by ring.
  rewrite Hc2, H1 in E1, E2.
  lra.
Qed.

(** The quantity under the root is the haversine of the central angle. *)
Lemma hav_sum_bounds (p1 p2 dl : R) :
  0 <= hav (p2 - p1) + cos p1 * cos p2 * hav dl <= 1.
Proof.
  unfold hav. rewrite cos_minus.
  pose proof (sin2_cos2 p1) as H1. pose proof (sin2_cos2 p2) as H2.
  pose proof (sin2_cos2 dl) as H3. unfold Rsqr in *.
  pose proof (unit_dot _ _ _ _ _ _ H1 H2 H3) as [Hlo Hhi].
  replace ((1 - (cos p2 * cos p1 + sin p2 * sin p1)) / 2
           + cos p1 * cos p2 * ((1 - cos dl) / 2))
    with ((1 - (sin p1 * sin p2 + cos p1 * cos p2 * cos dl)) / 2) by field.
  lra.
Qed.

Lemma atan2_sqrt (a : R) :
  0 <= a <= 1 -> atan2 (sqrt a) (sqrt (1 - a)) = asin (sqrt a).
Proof.
  intros [H0 H1]. unfold atan2.
  destruct (Req_dec a 1) as [->|Hne].
  - replace (1 - 1) with 0 by lra. rewrite sqrt_0, sqrt_1, asin_1.
    destruct (Rlt_dec 0 0) as [H|_]; [lra|].
    destruct (Rlt_dec 0 1) as [_|H]; [reflexivity|lra].
  - assert (Hlt : 0 < sqrt (1 - a)) by (apply sqrt_lt_R0; lra).
    destruct (Rlt_dec 0 (sqrt (1 - a))) as [_|H]; [|lra].
    assert (Hs : 0 <= sqrt a < 1).
    { split; [apply sqrt_pos|]. rewrite <- sqrt_1. apply sqrt_lt_1; lra. }
    rewrite asin_atan by lra.
    now rewrite Rsqr_sqrt.
Qed.

(** Read in the real numbers, the formula is the haversine distance on a
    sphere of radius 6 371 000 metres. *)
Lemma haversine_formula_exact (lat1 lon1 lat2 lon2 : R) :
  haversine_formula exact lat1 lon1 lat2 lon2
  = haversine_metres lat1 lon1 lat2 lon2.
Proof.
  unfold haversine_formula, haversine_metres, exact. cbn.
  fold (radians lat1). fold (radians lat2).
  replace ((lat2 - lat1) * PI / 180) with (radians lat2 - radians lat1)
    by (unfold radians; lra).
  replace ((lon2 - lon1) * PI / 180) with (radians lon2 - radians lon1)
    by (unfold radians; lra).
  rewrite !sin_half_sqr.
  rewrite Rmult_assoc, sin_half_sqr.
  rewrite atan2_sqrt by apply hav_sum_bounds.
  lra.
Qed.

(** Two values of the formula: a point is at distance 0 from itself, and
    two opposite points of the equator are half a great circle apart. *)
Lemma haversine_same_point (lat lon : R) :
  haversine_metres lat lon lat lon = 0.
Proof.
  unfold haversine_metres, hav.
  replace (radians lat - radians lat) with 0 by lra.
  replace (radians lon - radians lon) with 0 by lra.
  rewrite cos_0.
  replace ((1 - 1) / 2
           + cos (radians lat) * cos (radians lat) * ((1 - 1) / 2))
    with 0 by lra.
  rewrite sqrt_0, asin_0. lra.
Qed.

Lemma haversine_antipodes : haversine_metres 0 0 0 180 = 6371000 * PI.
Proof.
  unfold haversine_metres, hav, radians.
  replace (0 * PI / 180) with 0 by lra.
  replace (180 * PI / 180 - 0) with PI by lra.
  replace (0 - 0) with 0 by lra.
  rewrite cos_0, cos_PI.
  replace ((1 - 1) / 2 + 1 * 1 * ((1 - -1) / 2)) with 1 by lra.
  rewrite sqrt_1, asin_1. lra.
Qed.

End Exact.

Section Submission.

(** [Math.sin], [Math.cos] and [Math.atan2] are left to the engine by the
    language standard; the workflow is stated for any of them. The
    arithmetic and [Math.sqrt] are the IEEE 754 binary64 operations. *)
Variables Math_sin Math_cos : float -> float.
Variable Math_atan2 : float -> float -> float.

Definition Math_PI : float := 0x1.921fb54442d18p+1%float.

(** [calculateDistance]: haversine distance in metres. *)
Definition calculateDistance (lat1 lon1 lat2 lon2 : float) : float :=
  let R := 6371e3%float in
  let phi1 := (lat1 * Math_PI / 180)%float in
  let phi2 := (lat2 * Math_PI / 180)%float in
  let dphi := ((lat2 - lat1) * Math_PI / 180)%float in
  let dlambda := ((lon2 - lon1) * Math_PI / 180)%float in
  let a := (Math_sin (dphi / 2) * Math_sin (dphi / 2) +
            Math_cos phi1 * Math_cos phi2 *
            Math_sin (dlambda / 2) * Math_sin (dlambda / 2))%float in
  let c := (2 * Math_atan2 (PrimFloat.sqrt a) (PrimFloat.sqrt (1 - a)))%float in
  (R * c)%float.

Definition RADIUS_METERS : float := 50%float.

(** The query of [checkDuplicateReport]: the user's pending reports. *)
Definition pending_of (uid : string) (docs : list (string * Doc.Report))
  : list (string * Doc.Report) :=
  List.filter
    (fun d => String.eqb (Doc.userId (snd d)) uid
              && bool_decide (Doc.status (snd d) = Doc.pending))
    docs.

(** The loop of [checkDuplicateReport] over the snapshot. *)
Fixpoint within_radius (currentLocation : Doc.LocationObject)
    (docs : list (string * Doc.Report)) : bool :=
  match docs with
  | [] => false
  | doc :: rest =>
      match Doc.location (snd doc) with
      | Some stored =>
          let distance :=
            calculateDistance
              (Doc.latitude (Doc.coords currentLocation))
              (Doc.longitude (Doc.coords currentLocation))
              (Doc.latitude (Doc.coords stored))
              (Doc.longitude (Doc.coords stored)) in
          if PrimFloat.leb distance RADIUS_METERS then true
          else within_radius currentLocation rest
      | None => within_radius currentLocation rest
      end
  end.

Definition checkDuplicateReport (env : Env)
    (currentLocation : Doc.LocationObject) : bool :=
  match user env with
  | None => false
  | Some uid => within_radius currentLocation (pending_of uid (reports env))
  end.

(** The duplicate phase of [uploadReport]: the check runs only when the
    form holds a location. *)
Definition isDuplicate (env : Env) (st : Form) : bool :=
  match location st with
  | Some loc => checkDuplicateReport env loc
  | None => false
  end.

(** The document [uploadReport] adds to [reports] for user [uid]. *)
Definition new_report (env : Env) (st : Form) (uid downloadURL : string)
  : Doc.Report :=
  {| Doc.id := uniqueId st;
     Doc.imageUrl := downloadURL;
     Doc.category := selectedCategory st;
     Doc.description := description st;
     Doc.addressLine1 := addressLine1 st;
     Doc.addressLine2 := addressLine2 st;
     Doc.county := Some (county st);
     Doc.eircode := eircode st;
     Doc.location := location st;
     Doc.timestamp := serverTimestamp env;
     Doc.userId := uid;
     Doc.status := Doc.pending;
     Doc.assigned := None;
     Doc.upvotes := None |}.

(** [addDoc(collection(db, "reports"), { ..., userId: user?.uid, ... })]:
    without a signed-in user the field is [undefined], which the document
    store refuses; otherwise the store answers as the environment says. *)
Definition addDoc_report (env : Env) (st : Form) (downloadURL : string)
  : (string * Doc.Report) + Js.Error :=
  match user env with
  | None => inr (Js.new_Error "Unsupported field value: undefined")
  | Some uid =>
      match addDoc env with
      | inl docId => inl (docId, new_report env st uid downloadURL)
      | inr e => inr e
      end
  end.

Definition set_isLoading (b : bool) (st : Form) : Form :=
  {| imageUri := imageUri st; imageUrl := imageUrl st;
     uniqueId := uniqueId st; selectedCategory := selectedCategory st;
     description := description st; reportDocId := reportDocId st;
     status := status st; hasExistingReport := hasExistingReport st;
     addressLine1 := addressLine1 st; addressLine2 := addressLine2 st;
     county := county st; eircode := eircode st; location := location st;
     locationAccuracy := locationAccuracy st; isLoading := b |}.

(** The state updates of the branch taken on a false verdict. *)
Definition reset_after_rejection (env : Env) (st : Form) : Form :=
  {| imageUri := ""; imageUrl := imageUrl st;
     uniqueId := generateId env; selectedCategory := "";
     description := ""; reportDocId := reportDocId st;
     status := status st; hasExistingReport := hasExistingReport st;
     addressLine1 := addressLine1 st; addressLine2 := addressLine2 st;
     county := county st; eircode := eircode st; location := location st;
     locationAccuracy := locationAccuracy st; isLoading := false |}.

(** The state updates after the report document was added. *)
Definition submitted (downloadURL docId : string) (st : Form) : Form :=
  {| imageUri := imageUri st; imageUrl := downloadURL;
     uniqueId := uniqueId st; selectedCategory := selectedCategory st;
     description := description st; reportDocId := Some docId;
     status := Some Doc.pending; hasExistingReport := true;
     addressLine1 := addressLine1 st; addressLine2 := addressLine2 st;
     county := county st; eircode := eircode st; location := location st;
     locationAccuracy := locationAccuracy st; isLoading := false |}.

(** The toast of the [catch] block. *)
Definition upload_failed (e : Js.Error) : Effect :=
  Toast "error" "Upload Failed" (Js.err_message e).

(** [uploadReport]: the new form state and the effects, in order. [None]
    only when the verification script ended during a retry. *)
Definition uploadReport (env : Env) (st : Form)
  : option (Form * list Effect) :=
  if negb (Js.truthy_string (imageUri st))
     || negb (Js.truthy_string (selectedCategory st))
     || negb (Js.truthy_string (description st))
     || negb (Js.truthy_string (addressLine1 st))
     || negb (Js.truthy_string (county st))
     || negb (Js.truthy_string (eircode st))
  then Some (st, [Toast "error" "Missing Fields"
                    "Please fill in all fields before submitting."])
  else if negb (IrishCounties.isValidCounty (Some (county st)))
  then Some (st, [Toast "error" "Invalid County"
                    "Please select a valid Irish county."])
  else if negb (isLocationValid st)
  then Some (st, [Toast "error" "Location Validation Failed"
                    "The location data appears to be inaccurate or incomplete. Please try refreshing your location or enter the address manually."])
  else if isDuplicate env st
  then Some (st, [Toast "error" "Duplicate Report"
                    "You have already submitted a report for this location. Please wait for the previous report to be approved before submitting another one in this area."])
  else
    match verifyImageWithChatGPT (verification env) with
    | None => None
    | Some run =>
        match outcome run with
        | Throws e => Some (set_isLoading false st, [upload_failed e])
        | Returns false =>
            Some (reset_after_rejection env st,
                  [Toast "error" "Validation Failed"
                     "Validation check failed. Please try again."])
        | Returns true =>
            let path := "reports/" ++ uniqueId st ++ ".jpg" in
            match uploadBytes env with
            | Some e => Some (set_isLoading false st, [upload_failed e])
            | None =>
                match getDownloadURL env with
                | inr e =>
                    Some (set_isLoading false st,
                          [UploadBytes path; upload_failed e])
                | inl downloadURL =>
                    match addDoc_report env st downloadURL with
                    | inr e =>
                        Some (set_isLoading false st,
                              [UploadBytes path; upload_failed e])
                    | inl (docId, data) =>
                        Some (submitted downloadURL docId st,
                              [UploadBytes path;
                               AddDoc data;
                               Toast "success" "Report Submitted"
                                 "Your report has been submitted successfully!"])
                    end
                end
            end
        end
    end.

(** *** The preconditions as the specification lists them *)

Definition missing_required_field (st : Form) : bool :=
  String.eqb (imageUri st) "" || String.eqb (selectedCategory st) ""
  || String.eqb (description st) "" || String.eqb (addressLine1 st) ""
  || String.eqb (county st) "" || String.eqb (eircode st) "".

(** No fix, a reported accuracy above 100 metres, or no address component. *)
Definition invalid_location (st : Form) : bool :=
  match location st with None => true | Some _ => false end
  || match locationAccuracy st with
     | Some acc => PrimFloat.ltb 100 acc
     | None => false
     end
  || (String.eqb (addressLine1 st) "" && String.eqb (county st) ""
      && String.eqb (eircode st) "").

(** The form with no location fix. *)
Definition without_location (st : Form) : Form :=
  mkForm (imageUri st) (imageUrl st) (uniqueId st) (selectedCategory st)
         (description st) (reportDocId st) (status st) (hasExistingReport st)
         (addressLine1 st) (addressLine2 st) (county st) (eircode st)
         None (locationAccuracy st) (isLoading st).

(** The arithmetic of a JavaScript number: IEEE 754 double precision, an
    integer literal being the double of that value, with the sine, cosine
    and arc tangent of the engine and the double nearest to pi. *)
Definition double_precision : Arith float :=
  mkArith float PrimFloat.add PrimFloat.sub PrimFloat.mul PrimFloat.div
          PrimFloat.sqrt Math_sin Math_cos Math_atan2
          (fun z => PrimFloat.of_uint63 (Uint63.of_Z z))
          0x1.921fb54442d18p+1%float.

(** A stored report that makes a submission at [loc] a duplicate: a
    pending report of the same user with stored coordinates whose distance
    from [loc], by the haversine formula evaluated in double precision, is
    at most 50. *)
Definition duplicate_of (env : Env) (loc : Doc.LocationObject)
    (r : Doc.Report) : Prop :=
  exists uid stored,
    user env = Some uid /\ Doc.userId r = uid /\
    Doc.status r = Doc.pending /\ Doc.location r = Some stored /\
    PrimFloat.leb
      (haversine_formula double_precision
         (Doc.latitude (Doc.coords loc)) (Doc.longitude (Doc.coords loc))
         (Doc.latitude (Doc.coords stored))
         (Doc.longitude (Doc.coords stored)))
      50 = true.

(** *** Properties of the verification client *)

(** A failure that does not carry status 429 is rethrown at once. *)
Lemma verify_other_failure_propagates (a : Attempt) (rest : list Attempt)
    (e : Js.Error) (ds : list Z) :
  attempt_once a = (inr e, ds) ->
  status_is_429 e = false ->
  verifyImageWithChatGPT (a :: rest)
  = Some (mkRun (Throws (Js.new_Error
                           (Js.or_string (Js.err_message e)
                              "Failed to verify image with AI")))
                1 ds).
Proof. intros Ha He. simpl. now rewrite Ha, He. Qed.

(** The error built from a response that is not ok carries no status, so
    such a response is never retried, whatever its HTTP status. *)
Lemma verify_http_failure_not_retried (st : Z) (body : Body)
    (rest : list Attempt) :
  response_ok st = false ->
  exists e,
    verifyImageWithChatGPT (Responds st body :: rest)
    = Some (mkRun (Throws e) 1 [1000]).
Proof.
  intros Hok. simpl. rewrite Hok. simpl. eauto.
Qed.

(** A thrown value with status 429 is retried after 5000 ms, and the retry
    is the whole client again. *)
Lemma verify_retry_step (a : Attempt) (rest : list Attempt)
    (e : Js.Error) (ds : list Z) (r : Run) :
  attempt_once a = (inr e, ds) ->
  status_is_429 e = true ->
  verifyImageWithChatGPT rest = Some r ->
  verifyImageWithChatGPT (a :: rest)
  = Some (mkRun (outcome r) (S (attempts r)) (ds ++ 5000 :: delays r)).
Proof. intros Ha He Hr. simpl. now rewrite Ha, He, Hr. Qed.

(** Any number of consecutive status-429 failures is retried. *)
Lemma verify_retries_unbounded (n : nat) (v : bool) :
  exists ds,
    verifyImageWithChatGPT
      (repeat (FetchRejects rate_limited) n
         ++ [Responds 200 (mkBody "" v)])%list
    = Some (mkRun (Returns v) (S n) ds).
Proof.
  induction n as [|n [ds IH]].
  - simpl. eauto.
  - exists (1000 :: 5000 :: ds).
    change (repeat (FetchRejects rate_limited) (S n)
              ++ [Responds 200 (mkBody "" v)])%list
      with (FetchRejects rate_limited
              :: (repeat (FetchRejects rate_limited) n
                    ++ [Responds 200 (mkBody "" v)]))%list.
    now rewrite (verify_retry_step (FetchRejects rate_limited) _
                   rate_limited [1000] _ eq_refl eq_refl IH).
Qed.

(** C3. The client on the two rate-limit scenarios. An HTTP 429 answer is
    turned into an error without status and rethrown after a single
    request: no retry, no 5000 ms wait. Two consecutive failures thrown
    with status 429 are both retried: the client makes a third request and
    returns its verdict instead of propagating the second failure. *)
Theorem verify_rate_limit_behaviour :
  verifyImageWithChatGPT
    [Responds 429 (mkBody "Too Many Requests" false);
     Responds 200 (mkBody "" true)]
  = Some (mkRun (Throws (Js.new_Error "Too Many Requests")) 1 [1000])
  /\
  verifyImageWithChatGPT
    [FetchRejects rate_limited; FetchRejects rate_limited;
     Responds 200 (mkBody "" true)]
  = Some (mkRun (Returns true) 3 [1000; 5000; 1000; 5000; 1000]).
Proof. split; reflexivity. Qed.

(** *** Properties of the submission workflow *)

Lemma truthy_string_eqb (s : string) :
  negb (Js.truthy_string s) = String.eqb s "".
Proof. now destruct s. Qed.

Lemma above_100_truthy (acc : float) :
  PrimFloat.ltb 100 acc = true -> Js.truthy_number acc = true.
Proof.
  intros H. unfold Js.truthy_number, PrimFloat.is_nan.
  rewrite ltb_spec in H. rewrite !FloatAxioms.eqb_spec.
  destruct (Prim2SF acc) as [s|s| |s m e] eqn:E.
  - vm_compute in H. discriminate.
  - destruct s; vm_compute in H; try discriminate. reflexivity.
  - vm_compute in H. discriminate.
  - change (Prim2SF 0) with (S754_zero false).
    unfold SFeqb, SFcompare.
    destruct s; cbn; now rewrite Z.compare_refl, Pos.compare_cont_refl.
Qed.

(** [isLocationValid] rejects exactly the locations the specification
    calls invalid. *)
Lemma isLocationValid_spec (st : Form) :
  isLocationValid st = negb (invalid_location st).
Proof.
  unfold isLocationValid, invalid_location.
  destruct (location st) as [loc|]; [|reflexivity].
  cbn [orb].
  assert (Hacc :
    match locationAccuracy st with
    | Some acc => Js.truthy_number acc && PrimFloat.ltb 100 acc
    | None => false
    end
    = match locationAccuracy st with
      | Some acc => PrimFloat.ltb 100 acc
      | None => false
      end).
  { destruct (locationAccuracy st) as [acc|]; [|reflexivity].
    destruct (PrimFloat.ltb 100 acc) eqn:Hlt.
    - now rewrite (above_100_truthy _ Hlt).
    - apply andb_false_r. }
  rewrite Hacc.
  destruct (match locationAccuracy st with
            | Some acc => PrimFloat.ltb 100 acc
            | None => false
            end); [reflexivity|].
  cbn [orb negb].
  rewrite <- !truthy_string_eqb.
  destruct (Js.truthy_string (addressLine1 st)),
           (Js.truthy_string (county st)),
           (Js.truthy_string (eircode st)); reflexivity.
Qed.

Lemma missing_required_field_spec (st : Form) :
  negb (Js.truthy_string (imageUri st))
  || negb (Js.truthy_string (selectedCategory st))
  || negb (Js.truthy_string (description st))
  || negb (Js.truthy_string (addressLine1 st))
  || negb (Js.truthy_string (county st))
  || negb (Js.truthy_string (eircode st))
  = missing_required_field st.
Proof. unfold missing_required_field. now rewrite !truthy_string_eqb. Qed.

Lemma accuracy_150_invalid (st : Form) :
  locationAccuracy st = Some 150%float -> invalid_location st = true.
Proof.
  intros H. unfold invalid_location. rewrite H.
  change (PrimFloat.ltb 100 150) with true.
  now rewrite orb_true_r.
Qed.

(** A submission that is not reported as a duplicate and whose
    preconditions hold reaches the verification step. *)
Definition reaches_verification (env : Env) (st : Form) : Prop :=
  missing_required_field st = false /\
  IrishCounties.isValidCounty (Some (county st)) = true /\
  invalid_location st = false /\
  isDuplicate env st = false.

Lemma uploadReport_verified (env : Env) (st : Form) :
  reaches_verification env st ->
  uploadReport env st
  = match verifyImageWithChatGPT (verification env) with
    | None => None
    | Some run =>
        match outcome run with
        | Throws e => Some (set_isLoading false st, [upload_failed e])
        | Returns false =>
            Some (reset_after_rejection env st,
                  [Toast "error" "Validation Failed"
                     "Validation check failed. Please try again."])
        | Returns true =>
            let path := "reports/" ++ uniqueId st ++ ".jpg" in
            match uploadBytes env with
            | Some e => Some (set_isLoading false st, [upload_failed e])
            | None =>
                match getDownloadURL env with
                | inr e =>
                    Some (set_isLoading false st,
                          [UploadBytes path; upload_failed e])
                | inl downloadURL =>
                    match addDoc_report env st downloadURL with
                    | inr e =>
                        Some (set_isLoading false st,
                              [UploadBytes path; upload_failed e])
                    | inl (docId, data) =>
                        Some (submitted downloadURL docId st,
                              [UploadBytes path;
                               AddDoc data;
                               Toast "success" "Report Submitted"
                                 "Your report has been submitted successfully!"])
                    end
                end
            end
        end
    end.
Proof.
  intros (Hm & Hc & Hl & Hd). unfold uploadReport.
  rewrite missing_required_field_spec, Hm, Hc, isLocationValid_spec, Hl, Hd.
  reflexivity.
Qed.

Lemma within_radius_spec (loc : Doc.LocationObject)
    (docs : list (string * Doc.Report)) :
  within_radius loc docs = true <->
  exists doc stored,
    In doc docs /\ Doc.location (snd doc) = Some stored /\
    PrimFloat.leb
      (calculateDistance
         (Doc.latitude (Doc.coords loc)) (Doc.longitude (Doc.coords loc))
         (Doc.latitude (Doc.coords stored))
         (Doc.longitude (Doc.coords stored)))
      50 = true.
Proof.
  induction docs as [|doc rest IH]; simpl.
  - split; [discriminate|]. now intros (? & ? & [] & _).
  - destruct (Doc.location (snd doc)) as [stored|] eqn:Hloc.
    + unfold RADIUS_METERS.
      destruct (PrimFloat.leb _ 50) eqn:Hd.
      * split; [|reflexivity]. intros _. exists doc, stored. auto.
      * rewrite IH. split.
        -- intros (d & s & Hin & Hl & Hle). exists d, s. auto.
        -- intros (d & s & [Heq|Hin] & Hl & Hle).
           ++ subst d. rewrite Hloc in Hl. inversion Hl; subst s.
              rewrite Hd in Hle. discriminate.
           ++ exists d, s. auto.
    + rewrite IH. split.
      * intros (d & s & Hin & Hl & Hle). exists d, s. auto.
      * intros (d & s & [Heq|Hin] & Hl & Hle).
        -- subst d. rewrite Hloc in Hl. discriminate.
        -- exists d, s. auto.
Qed.

Lemma pending_of_spec (uid : string) (docs : list (string * Doc.Report))
    (doc : string * Doc.Report) :
  In doc (pending_of uid docs) <->
  In doc docs /\ Doc.userId (snd doc) = uid /\
  Doc.status (snd doc) = Doc.pending.
Proof.
  unfold pending_of. rewrite filter_In, andb_true_iff, String.eqb_eq.
  rewrite bool_decide_eq_true. tauto.
Qed.

(** The program computes the haversine formula in double precision. *)
Lemma calculateDistance_formula (lat1 lon1 lat2 lon2 : float) :
  calculateDistance lat1 lon1 lat2 lon2
  = haversine_formula double_precision lat1 lon1 lat2 lon2.
Proof. reflexivity. Qed.

(** C4. The duplicate phase of a submission answers true exactly when the
    form holds a location and some stored report of the same user, in
    status pending and with stored coordinates, lies within 50 metres of
    it. Stored reports without coordinates do not count, and without a
    location in the form the check is skipped and the answer is "not a
    duplicate". The distance is the haversine distance on a sphere of
    radius 6 371 000 m: the formula that the program evaluates in double
    precision is, read in the real numbers, [2 r asin (sqrt h)] with
    [h = hav (phi2 - phi1) + cos phi1 cos phi2 hav (lambda2 - lambda1)],
    [hav theta = (1 - cos theta) / 2] and [r = 6371000]. The comparison
    with 50 is made on the double, with the sine, cosine and arc tangent
    of the engine. *)
Theorem duplicate_check_spec (env : Env) (st : Form) :
  (isDuplicate env st = true <->
   exists loc doc,
     location st = Some loc /\ In doc (reports env) /\
     duplicate_of env loc (snd doc))
  /\ isDuplicate env (without_location st) = false
  /\ (forall lat1 lon1 lat2 lon2,
        haversine_formula Exact.exact lat1 lon1 lat2 lon2
        = Exact.haversine_metres lat1 lon1 lat2 lon2).
Proof.
  split; [|split; [reflexivity|exact Exact.haversine_formula_exact]].
  unfold isDuplicate, checkDuplicateReport, duplicate_of.
  setoid_rewrite <- calculateDistance_formula.
  destruct (location st) as [loc|].
  - destruct (user env) as [uid|].
    + rewrite within_radius_spec. split.
      * intros (doc & stored & Hin & Hl & Hle).
        apply pending_of_spec in Hin as (Hin & Hu & Hs).
        exists loc, doc. repeat split; auto.
        exists uid, stored. auto.
      * intros (loc' & doc & Heq & Hin & uid' & stored & Hu & Hid & Hs & Hl & Hle).
        inversion Heq; subst loc'. inversion Hu; subst uid'.
        exists doc, stored. repeat split; auto.
        apply pending_of_spec. auto.
    + split; [discriminate|].
      intros (? & ? & _ & _ & ? & ? & Hu & _). discriminate.
  - split; [discriminate|]. intros (? & ? & Heq & _). discriminate.
Qed.

(** C5. A submission that reaches verification and gets the verdict false
    adds no report document and uploads no blob; the image, category and
    description fields are cleared and the submission id is replaced by a
    newly generated one; the only effect is the "Validation Failed" toast
    of the verdict branch, not the "Upload Failed" toast of the [catch]
    block. The new id is the clock reading and the random draw of that
    moment, written in base 36 and joined by a dash, so that both can be
    read back from it; it differs from the id the form held, which
    [pickImage] had generated, unless both the millisecond and the draw
    are the same as then. *)
Theorem false_verdict_resets_form (env : Env) (st : Form) (run : Run) :
  reaches_verification env st ->
  verifyImageWithChatGPT (verification env) = Some run ->
  outcome run = Returns false ->
  exists st' es,
    uploadReport env st = Some (st', es) /\
    writes es = [] /\
    es = [Toast "error" "Validation Failed"
            "Validation check failed. Please try again."] /\
    imageUri st' = "" /\ selectedCategory st' = "" /\ description st' = "" /\
    uniqueId st' = generateId env /\
    (exists a b,
       uniqueId st' = a ++ "-" ++ b /\
       all_digit36 a = true /\ all_digit36 b = true /\
       parse36 a = Date_now env /\ parse36 b = random_million env) /\
    (forall env0 : Env,
       uniqueId st = generateId env0 ->
       Date_now env0 <> Date_now env \/
       random_million env0 <> random_million env ->
       uniqueId st' <> uniqueId st) /\
    isLoading st' = false.
Proof.
  intros Hreach Hrun Hout.
  rewrite (uploadReport_verified _ _ Hreach), Hrun, Hout.
  eexists _, _. split; [reflexivity|].
  split; [reflexivity|]. split; [reflexivity|].
  split; [reflexivity|]. split; [reflexivity|]. split; [reflexivity|].
  split; [reflexivity|].
  split; [apply generateId_reads_back|].
  split; [|reflexivity].
  intros env0 H0 Hne. cbn [uniqueId reset_after_rejection]. rewrite H0.
  intros Heq. symmetry in Heq. revert Heq. now apply generateId_differs.
Qed.

(** C6. A submission with a missing required field, a county that
    [isValidCounty] rejects, or an invalid location (no fix, accuracy above
    100 metres, no address component) ends with one error toast naming the
    failed check, leaves the form as it was and performs no write. A
    reported accuracy of 150 metres is such a case whatever the other
    fields hold. *)
Theorem failed_precondition_aborts (env : Env) (st : Form) :
  missing_required_field st = true \/
  IrishCounties.isValidCounty (Some (county st)) = false \/
  invalid_location st = true \/
  locationAccuracy st = Some 150%float ->
  exists title text,
    uploadReport env st = Some (st, [Toast "error" title text]) /\
    writes [Toast "error" title text] = [] /\
    In title ["Missing Fields"; "Invalid County";
              "Location Validation Failed"].
Proof.
  intros H.
  assert (H' : missing_required_field st = true \/
               IrishCounties.isValidCounty (Some (county st)) = false \/
               invalid_location st = true).
  { destruct H as [H|[H|[H|H]]]; auto using accuracy_150_invalid. }
  clear H. unfold uploadReport.
  rewrite missing_required_field_spec, isLocationValid_spec.
  destruct (missing_required_field st).
  { eexists _, _. split; [reflexivity|]. simpl. auto. }
  destruct (IrishCounties.isValidCounty (Some (county st))).
  2:{ eexists _, _. split; [reflexivity|]. simpl. auto. }
  destruct (invalid_location st).
  { eexists _, _. split; [reflexivity|]. simpl. auto. }
  destruct H' as [H|[H|H]]; discriminate.
Qed.

End Submission.

(** *** A concrete instance

    Polynomial stand-ins for [Math.sin], [Math.cos] and [Math.atan2], good
    to a few centimetres for points some hundred metres apart at Irish
    latitudes; they make the workflow computable on examples. *)

Set Warnings "-inexact-float".

Definition poly_sin (x : float) : float :=
  (x - x * x * x / 6 + x * x * x * x * x / 120)%float.

Definition poly_cos (x : float) : float :=
  (1 - x * x / 2 + x * x * x * x / 24
   - x * x * x * x * x * x / 720)%float.

Definition poly_atan2 (y x : float) : float :=
  let t := (y / x)%float in (t - t * t * t / 3)%float.

Definition at_point (lat lon : float) (acc : float) : Doc.LocationObject :=
  {| Doc.coords := {| Doc.latitude := lat; Doc.longitude := lon;
                      Doc.accuracy := Some acc |} |}.

(** A pending report of user "u1" in Dublin city centre. *)
Definition stored_report : Doc.Report :=
  {| Doc.id := "m30tslc0-lflr";
     Doc.imageUrl := "https://blobs.example/reports/m30tslc0-lflr.jpg";
     Doc.category := "Pothole";
     Doc.description := "Deep pothole";
     Doc.addressLine1 := "1 O'Connell Street";
     Doc.addressLine2 := "";
     Doc.county := Some "Co. Dublin";
     Doc.eircode := "D01 F5P2";
     Doc.location := Some (at_point 53.3498 (-6.2603) 8);
     Doc.timestamp := 1730592000350;
     Doc.userId := "u1";
     Doc.status := Doc.pending;
     Doc.assigned := None;
     Doc.upvotes := None |}.

Definition example_env (script : list Attempt) : Env :=
  {| user := Some "u1";
     reports := [("doc1", stored_report)];
     verification := script;
     Date_now := 1730592000000;
     random_million := 999999;
     serverTimestamp := 1730592000350;
     uploadBytes := None;
     getDownloadURL := inl "https://blobs.example/reports/new.jpg";
     addDoc := inl "doc2" |}.

(** A filled-in form, about 200 metres north of the stored report. *)
Definition example_form (lat accuracy : float) : Form :=
  {| imageUri := "file:///photo.jpg"; imageUrl := "";
     uniqueId := "m30tslc0-1"; selectedCategory := "Pothole";
     description := "Another pothole"; reportDocId := None;
     status := None; hasExistingReport := false;
     addressLine1 := "12 Parnell Street"; addressLine2 := "";
     county := "Dublin"; eircode := "D01 A1B2";
     location := Some (at_point lat (-6.2603) accuracy);
     locationAccuracy := Some accuracy; isLoading := false |}.

(** Thirty metres north of the stored report is a duplicate, two hundred
    metres north is not. *)
Example duplicate_at_30m :
  isDuplicate poly_sin poly_cos poly_atan2 (example_env [])
    (example_form 53.35007 10) = true.
Proof. vm_compute. reflexivity. Qed.

Example no_duplicate_at_200m :
  isDuplicate poly_sin poly_cos poly_atan2 (example_env [])
    (example_form 53.3516 10) = false.
Proof. vm_compute. reflexivity. Qed.

(** A submission that passes every check stores the blob, then the report,
    in status pending and without assignee. *)
Example submission_succeeds :
  exists st' data,
    uploadReport poly_sin poly_cos poly_atan2
      (example_env [Responds 200 (mkBody "" true)])
      (example_form 53.3516 10)
    = Some (st', [UploadBytes "reports/m30tslc0-1.jpg"; AddDoc data;
                  Toast "success" "Report Submitted"
                    "Your report has been submitted successfully!"])
    /\ Doc.status data = Doc.pending /\ Doc.assigned data = None
    /\ reportDocId st' = Some "doc2".
Proof. eexists _, _. split; [vm_compute; reflexivity|]. repeat split. Qed.

Lemma false_verdict_resets_form_witness :
  exists st' es,
    uploadReport poly_sin poly_cos poly_atan2
      (example_env [Responds 200 (mkBody "" false)])
      (example_form 53.3516 10) = Some (st', es) /\
    writes es = [] /\
    es = [Toast "error" "Validation Failed"
            "Validation check failed. Please try again."] /\
    imageUri st' = "" /\ selectedCategory st' = "" /\ description st' = "" /\
    uniqueId st' = generateId (example_env [Responds 200 (mkBody "" false)]) /\
    (exists a b,
       uniqueId st' = a ++ "-" ++ b /\
       all_digit36 a = true /\ all_digit36 b = true /\
       parse36 a = 1730592000000%N /\ parse36 b = 999999%N) /\
    (forall env0 : Env,
       "m30tslc0-1" = generateId env0 ->
       Date_now env0 <> 1730592000000%N \/ random_million env0 <> 999999%N ->
       uniqueId st' <> "m30tslc0-1") /\
    isLoading st' = false.
Proof.
  apply (false_verdict_resets_form poly_sin poly_cos poly_atan2
           (example_env [Responds 200 (mkBody "" false)])
           (example_form 53.3516 10)
           (mkRun (Returns false) 1 [1000])).
  - repeat split; vm_compute; reflexivity.
  - reflexivity.
  - reflexivity.
Defined.

Lemma failed_precondition_aborts_witness :
  locationAccuracy (example_form 53.3516 150) = Some 150%float /\
  exists title text,
    uploadReport poly_sin poly_cos poly_atan2
      (example_env [Responds 200 (mkBody "" true)])
      (example_form 53.3516 150)
    = Some (example_form 53.3516 150, [Toast "error" title text]) /\
    writes [Toast "error" title text] = [] /\
    In title ["Missing Fields"; "Invalid County";
              "Location Validation Failed"].
Proof.
  split; [reflexivity|].
  apply (failed_precondition_aborts poly_sin poly_cos poly_atan2).
  right; right; right. reflexivity.
Defined.

Set Warnings "inexact-float".


(** *** More on the verification client *)

(** An attempt the [catch] block answers with a retry. *)
Definition retryable (a : Attempt) : bool :=
  match attempt_once a with
  | (inr e, _) => status_is_429 e
  | (inl _, _) => false
  end.

Lemma verify_retryable_cons (a : Attempt) (rest : list Attempt) :
  retryable a = true ->
  verifyImageWithChatGPT (a :: rest)
  = match verifyImageWithChatGPT rest with
    | Some r =>
        Some (mkRun (outcome r) (S (attempts r))
                    (snd (attempt_once a) ++ 5000 :: delays r)%list)
    | None => None
    end.
Proof.
  unfold retryable. simpl. destruct (attempt_once a) as [[v|e] ds];
    [discriminate|].
  intros ->. reflexivity.
Qed.

Lemma verify_final_cons (a : Attempt) (rest : list Attempt) :
  retryable a = false ->
  verifyImageWithChatGPT (a :: rest) = verifyImageWithChatGPT [a] /\
  exists r, verifyImageWithChatGPT [a] = Some r /\ attempts r = 1%nat /\
            ~ In 5000 (delays r) /\
            (forall e, outcome r = Throws e -> Js.err_status e = None) /\
            (forall v, outcome r = Returns v ->
                       exists st body, a = Responds st body /\
                                       response_ok st = true /\
                                       body_isVerified body = v).
Proof.
  unfold retryable. simpl.
  destruct a as [e|e|st body]; simpl.
  - intros ->. split; [reflexivity|]. eexists. split; [reflexivity|].
    repeat split; simpl; try tauto.
    + intros e0 H. now inversion H.
    + discriminate.
  - intros ->. split; [reflexivity|]. eexists. split; [reflexivity|].
    repeat split; simpl.
    + intros [H|[]]. discriminate.
    + intros e0 H. now inversion H.
    + discriminate.
  - intros _. destruct (response_ok st) eqn:Hok; simpl.
    + split; [reflexivity|]. eexists. split; [reflexivity|].
      repeat split; simpl.
      * intros [H|[]]. discriminate.
      * discriminate.
      * intros v H. inversion H. eauto.
    + split; [reflexivity|]. eexists. split; [reflexivity|].
      repeat split; simpl.
      * intros [H|[]]. discriminate.
      * intros e0 H. now inversion H.
      * discriminate.
Qed.

Lemma filter_absent (x : Z) (l : list Z) :
  ~ In x l -> List.filter (Z.eqb x) l = [].
Proof.
  induction l as [|d l IH]; simpl; [reflexivity|].
  intros H. destruct (Z.eqb_spec x d) as [->|Hne].
  - exfalso. apply H. now left.
  - apply IH. intros Hin. apply H. now right.
Qed.

(** The client gives up only on a script of retryable attempts. *)
Lemma verify_exhausted (script : list Attempt) :
  verifyImageWithChatGPT script = None <->
  Forall (fun a => retryable a = true) script.
Proof.
  induction script as [|a rest IH].
  - split; [constructor|reflexivity].
  - destruct (retryable a) eqn:Hr.
    + rewrite (verify_retryable_cons a rest Hr).
      destruct (verifyImageWithChatGPT rest) as [r|].
      * split; [discriminate|]. intros H. inversion H; subst.
        apply IH in H3. discriminate.
      * split; [|reflexivity]. intros _. constructor; [assumption|].
        now apply IH.
    + destruct (verify_final_cons a rest Hr) as (-> & r & -> & _).
      split; [discriminate|]. intros H. inversion H; subst. congruence.
Qed.

(** X2. The shape of a run of the verification client. When the first
    [n] attempts each fail with a thrown value of status 429 and the next
    does not, the client makes [n + 1] requests, waits 5000 ms exactly [n]
    times, and ends as that last attempt alone would: it returns a verdict
    only from an answer with an ok status, and an error it throws never
    carries a status. *)
Theorem verify_run_shape (pre : list Attempt) (a : Attempt)
    (rest : list Attempt) :
  Forall (fun x => retryable x = true) pre ->
  retryable a = false ->
  exists r r1,
    verifyImageWithChatGPT (pre ++ a :: rest)%list = Some r /\
    verifyImageWithChatGPT [a] = Some r1 /\
    outcome r = outcome r1 /\
    attempts r = S (length pre) /\
    length (List.filter (Z.eqb 5000) (delays r)) = length pre /\
    (forall e, outcome r = Throws e -> Js.err_status e = None) /\
    (forall v, outcome r = Returns v ->
               exists st body, a = Responds st body /\
                               response_ok st = true /\
                               body_isVerified body = v).
Proof.
  intros Hpre Ha.
  destruct (verify_final_cons a rest Ha)
    as (Hcons & r1 & Hr1 & Hatt & Hdel & Hthrow & Hret).
  induction Hpre as [|x pre Hx Hpre IH].
  - exists r1, r1. simpl app. rewrite Hcons. repeat split; auto.
    simpl. now rewrite (filter_absent 5000 (delays r1) Hdel).
  - destruct IH as (r & r1' & Hr & Hr1' & Hout & Hn & H5 & Ht & Hv).
    rewrite Hr1 in Hr1'. inversion Hr1'; subst r1'.
    eexists. exists r1. split.
    { change ((x :: pre) ++ a :: rest)%list
        with (x :: (pre ++ a :: rest))%list.
      rewrite (verify_retryable_cons x _ Hx), Hr. reflexivity. }
    cbn [outcome attempts delays length]. repeat split; auto.
    rewrite List.filter_app, length_app. cbn [List.filter].
    rewrite Z.eqb_refl. cbn [length]. rewrite H5.
    assert (Hds : List.filter (Z.eqb 5000) (snd (attempt_once x)) = []).
    { destruct x as [e|e|st body]; simpl; [reflexivity|reflexivity|].
      now destruct (negb (response_ok st)). }
    rewrite Hds. reflexivity.
Qed.

Lemma verify_run_shape_witness :
  exists r r1,
    verifyImageWithChatGPT
      ([FetchRejects rate_limited; ReadRejects rate_limited]
         ++ Responds 500 (mkBody "quota" false)
         :: [Responds 200 (mkBody "" true)])%list = Some r /\
    verifyImageWithChatGPT [Responds 500 (mkBody "quota" false)] = Some r1 /\
    outcome r = outcome r1 /\
    attempts r = S (length [FetchRejects rate_limited;
                            ReadRejects rate_limited]) /\
    length (List.filter (Z.eqb 5000) (delays r))
    = length [FetchRejects rate_limited; ReadRejects rate_limited] /\
    (forall e, outcome r = Throws e -> Js.err_status e = None) /\
    (forall v, outcome r = Returns v ->
               exists st body,
                 Responds 500 (mkBody "quota" false) = Responds st body /\
                 response_ok st = true /\
                 body_isVerified body = v).
Proof.
  apply (verify_run_shape
           [FetchRejects rate_limited; ReadRejects rate_limited]
           (Responds 500 (mkBody "quota" false))
           [Responds 200 (mkBody "" true)]).
  - repeat constructor.
  - reflexivity.
Defined.


(** *** More on the submission workflow *)

Section SubmissionOutcomes.

Variables Math_sin Math_cos : float -> float.
Variable Math_atan2 : float -> float -> float.

(** The blob path of a submission. *)
Definition blob_path (st : Form) : string :=
  "reports/" ++ uniqueId st ++ ".jpg".

Lemma uploadReport_unverified (env : Env) (st : Form) :
  ~ reaches_verification Math_sin Math_cos Math_atan2 env st ->
  exists title text,
    uploadReport Math_sin Math_cos Math_atan2 env st
    = Some (st, [Toast "error" title text]).
Proof.
  intros Hn. unfold uploadReport.
  rewrite missing_required_field_spec, isLocationValid_spec.
  destruct (missing_required_field st) eqn:Hm; [simpl; eauto|].
  destruct (IrishCounties.isValidCounty (Some (county st))) eqn:Hc;
    [|simpl; eauto].
  destruct (invalid_location st) eqn:Hl; [simpl; eauto|].
  destruct (isDuplicate Math_sin Math_cos Math_atan2 env st) eqn:Hd;
    [simpl; eauto|].
  exfalso. apply Hn. repeat split; assumption.
Qed.

Lemma reaches_verification_dec (env : Env) (st : Form) :
  reaches_verification Math_sin Math_cos Math_atan2 env st \/
  ~ reaches_verification Math_sin Math_cos Math_atan2 env st.
Proof.
  unfold reaches_verification.
  destruct (missing_required_field st);
    [right; intros (H & _); discriminate|].
  destruct (IrishCounties.isValidCounty (Some (county st)));
    [|right; intros (_ & H & _); discriminate].
  destruct (invalid_location st);
    [right; intros (_ & _ & H & _); discriminate|].
  destruct (isDuplicate Math_sin Math_cos Math_atan2 env st);
    [right; intros (_ & _ & _ & H); discriminate|].
  left. auto.
Qed.

(** X5. A report document is written only by a submission that passed
    every check: the required fields are present, the county is valid, the
    location is valid, no pending report of the user lies within the
    radius, the verification returned true and a user is signed in. The
    document then belongs to that user, carries the form's id and county,
    is pending, unassigned and without upvote counter, and the blob was
    stored before it. *)
Theorem report_written_only_when_checked (env : Env) (st st' : Form)
    (es : list Effect) (data : Doc.Report) :
  uploadReport Math_sin Math_cos Math_atan2 env st = Some (st', es) ->
  In (AddDoc data) es ->
  reaches_verification Math_sin Math_cos Math_atan2 env st /\
  (exists run, verifyImageWithChatGPT (verification env) = Some run /\
               outcome run = Returns true) /\
  user env = Some (Doc.userId data) /\
  Doc.id data = uniqueId st /\
  Doc.county data = Some (county st) /\
  IrishCounties.isValidCounty (Doc.county data) = true /\
  Doc.status data = Doc.pending /\
  Doc.assigned data = None /\
  Doc.upvotes data = None /\
  es = [UploadBytes (blob_path st); AddDoc data;
        Toast "success" "Report Submitted"
          "Your report has been submitted successfully!"].
Proof.
  intros Hrun Hin.
  destruct (reaches_verification_dec env st) as [Hreach|Hn].
  2:{ destruct (uploadReport_unverified env st Hn) as (t & x & H).
      rewrite H in Hrun. inversion Hrun; subst.
      destruct Hin as [Hin|[]]. discriminate. }
  split; [assumption|].
  pose proof Hreach as (_ & Hcounty & _).
  rewrite (uploadReport_verified _ _ _ _ _ Hreach) in Hrun.
  destruct (verifyImageWithChatGPT (verification env)) as [run|];
    [|discriminate].
  destruct (outcome run) as [[|]|e] eqn:Hout.
  - cbv zeta in Hrun.
    destruct (uploadBytes env) as [e|].
    { inversion Hrun; subst. destruct Hin as [Hin|[]]. discriminate. }
    destruct (getDownloadURL env) as [url|e].
    2:{ inversion Hrun; subst.
        destruct Hin as [Hin|[Hin|[]]]; discriminate. }
    unfold addDoc_report in Hrun.
    destruct (user env) as [uid|].
    2:{ inversion Hrun; subst.
        destruct Hin as [Hin|[Hin|[]]]; discriminate. }
    destruct (addDoc env) as [docId|e].
    2:{ inversion Hrun; subst.
        destruct Hin as [Hin|[Hin|[]]]; discriminate. }
    inversion Hrun; subst.
    destruct Hin as [Hin|[Hin|[Hin|[]]]]; try discriminate.
    inversion Hin; subst data. cbn.
    repeat split; eauto.
  - inversion Hrun; subst. destruct Hin as [Hin|[]]. discriminate.
  - inversion Hrun; subst. destruct Hin as [Hin|[]]. discriminate.
Qed.

(** ** The submission with a query that can be refused

    [checkDuplicateReport] awaits [getDocs] outside any [try] block, and
    [uploadReport] awaits [checkDuplicateReport] before its own [try]
    block. When the query is refused the promise of [uploadReport] is
    rejected with the error of the query. *)

(** How the promise of an [async] function settles. *)
Inductive Settled :=
| Fulfilled
| RejectedWith (e : Js.Error).

(** [checkDuplicateReport], with [getDocs] rejecting with
    [getDocs_rejects] if that is an error. *)
Definition checkDuplicateReport_awaited (getDocs_rejects : option Js.Error)
    (env : Env) (currentLocation : Doc.LocationObject) : bool + Js.Error :=
  match user env with
  | None => inl false
  | Some uid =>
      match getDocs_rejects with
      | Some e => inr e
      | None =>
          inl (within_radius Math_sin Math_cos Math_atan2 currentLocation
                 (pending_of uid (reports env)))
      end
  end.

(** [uploadReport]: the new form state, the effects in order, and how the
    promise settles. [None] only when the verification script ended during
    a retry. *)
Definition uploadReport_awaited (getDocs_rejects : option Js.Error)
    (env : Env) (st : Form) : option (Form * list Effect * Settled) :=
  if negb (Js.truthy_string (imageUri st))
     || negb (Js.truthy_string (selectedCategory st))
     || negb (Js.truthy_string (description st))
     || negb (Js.truthy_string (addressLine1 st))
     || negb (Js.truthy_string (county st))
     || negb (Js.truthy_string (eircode st))
  then Some (st, [Toast "error" "Missing Fields"
                    "Please fill in all fields before submitting."],
             Fulfilled)
  else if negb (IrishCounties.isValidCounty (Some (county st)))
  then Some (st, [Toast "error" "Invalid County"
                    "Please select a valid Irish county."],
             Fulfilled)
  else if negb (isLocationValid st)
  then Some (st, [Toast "error" "Location Validation Failed"
                    "The location data appears to be inaccurate or incomplete. Please try refreshing your location or enter the address manually."],
             Fulfilled)
  else
    match match location st with
          | Some loc => checkDuplicateReport_awaited getDocs_rejects env loc
          | None => inl false
          end
    with
    | inr e => Some (st, [], RejectedWith e)
    | inl true =>
        Some (st, [Toast "error" "Duplicate Report"
                     "You have already submitted a report for this location. Please wait for the previous report to be approved before submitting another one in this area."],
              Fulfilled)
    | inl false =>
        match verifyImageWithChatGPT (verification env) with
        | None => None
        | Some run =>
            match outcome run with
            | Throws e =>
                Some (set_isLoading false st, [upload_failed e], Fulfilled)
            | Returns false =>
                Some (reset_after_rejection env st,
                      [Toast "error" "Validation Failed"
                         "Validation check failed. Please try again."],
                      Fulfilled)
            | Returns true =>
                let path := "reports/" ++ uniqueId st ++ ".jpg" in
                match uploadBytes env with
                | Some e =>
                    Some (set_isLoading false st, [upload_failed e],
                          Fulfilled)
                | None =>
                    match getDownloadURL env with
                    | inr e =>
                        Some (set_isLoading false st,
                              [UploadBytes path; upload_failed e],
                              Fulfilled)
                    | inl downloadURL =>
                        match addDoc_report env st downloadURL with
                        | inr e =>
                            Some (set_isLoading false st,
                                  [UploadBytes path; upload_failed e],
                                  Fulfilled)
                        | inl (docId, data) =>
                            Some (submitted downloadURL docId st,
                                  [UploadBytes path;
                                   AddDoc data;
                                   Toast "success" "Report Submitted"
                                     "Your report has been submitted successfully!"],
                                  Fulfilled)
                        end
                    end
                end
            end
        end
    end.

(** With a query that is answered, the run is the one of [uploadReport]. *)
Lemma uploadReport_awaited_answered (env : Env) (st : Form) :
  uploadReport_awaited None env st
  = match uploadReport Math_sin Math_cos Math_atan2 env st with
    | Some (st', es) => Some (st', es, Fulfilled)
    | None => None
    end.
Proof.
  unfold uploadReport_awaited, uploadReport, isDuplicate,
    checkDuplicateReport_awaited, checkDuplicateReport.
  repeat case_match; simplify_eq; reflexivity.
Qed.

(** The query is sent exactly when the three tests before it pass and a
    user is signed in; refused, it ends the run at once. *)
Lemma uploadReport_awaited_refused (e : Js.Error) (env : Env) (st : Form) :
  uploadReport_awaited (Some e) env st
  = if negb (missing_required_field st)
       && IrishCounties.isValidCounty (Some (county st))
       && negb (invalid_location st)
       && bool_decide (user env <> None)
    then Some (st, [], RejectedWith e)
    else uploadReport_awaited None env st.
Proof.
  unfold uploadReport_awaited.
  rewrite missing_required_field_spec, isLocationValid_spec.
  destruct (missing_required_field st); [reflexivity|].
  destruct (IrishCounties.isValidCounty (Some (county st))); [|reflexivity].
  destruct (invalid_location st) eqn:Hl; [reflexivity|].
  cbn [negb andb].
  unfold invalid_location in Hl.
  destruct (location st) as [loc|]; [|discriminate].
  unfold checkDuplicateReport_awaited.
  destruct (user env) as [uid|].
  - rewrite bool_decide_eq_true_2 by discriminate. reflexivity.
  - rewrite bool_decide_eq_false_2 by tauto. reflexivity.
Qed.

(** A run of [uploadReport] in which the query is answered shows exactly
    one toast, and shows it last. *)
Lemma uploadReport_one_toast (env : Env) (st st' : Form)
    (es : list Effect) :
  uploadReport Math_sin Math_cos Math_atan2 env st = Some (st', es) ->
  exists type title text,
    es = (writes es ++ [Toast type title text])%list /\
    (writes es = [] \/
     (writes es = [UploadBytes (blob_path st)] /\ type = "error" /\
      ((exists e, getDownloadURL env = inr e) \/
       (exists url e, getDownloadURL env = inl url /\
                      addDoc_report env st url = inr e))) \/
     (exists data, writes es = [UploadBytes (blob_path st); AddDoc data] /\
                   type = "success")).
Proof.
  intros Hrun.
  destruct (reaches_verification_dec env st) as [Hreach|Hn].
  2:{ destruct (uploadReport_unverified env st Hn) as (t & x & H).
      rewrite H in Hrun. inversion Hrun; subst.
      eexists _, _, _. split; [reflexivity|]. now left. }
  rewrite (uploadReport_verified _ _ _ _ _ Hreach) in Hrun.
  destruct (verifyImageWithChatGPT (verification env)) as [run|];
    [|discriminate].
  destruct (outcome run) as [[|]|e] eqn:Hout.
  - cbv zeta in Hrun.
    destruct (uploadBytes env) as [e|].
    { inversion Hrun; subst. eexists _, _, _.
      split; [reflexivity|]. now left. }
    destruct (getDownloadURL env) as [url|e].
    2:{ inversion Hrun; subst. eexists _, _, _.
        split; [reflexivity|]. right. left. simpl. eauto. }
    destruct (addDoc_report env st url) as [[docId data]|e] eqn:Hadd.
    + inversion Hrun; subst. eexists _, _, _.
      split; [reflexivity|]. right. right. simpl. eauto.
    + inversion Hrun; subst. eexists _, _, _.
      split; [reflexivity|]. right. left. simpl.
      repeat split. right. eauto.
  - inversion Hrun; subst. eexists _, _, _.
    split; [reflexivity|]. now left.
  - inversion Hrun; subst. eexists _, _, _.
    split; [reflexivity|]. now left.
Qed.


(** X6. How a run of [uploadReport] that ends has ended. If the query of
    the duplicate check was refused, which can only happen when the three
    tests before it passed and a user is signed in, the promise is rejected
    with the error of the query: no toast is shown, nothing is written and
    the form is as it was. Every other run shows exactly one toast, and
    shows it last; what it wrote before is nothing, the blob alone (when
    the URL lookup or the document write failed after the upload: the blob
    is left behind), or the blob and then the document. *)
Theorem uploadReport_effects (getDocs_rejects : option Js.Error)
    (env : Env) (st st' : Form) (es : list Effect) (how : Settled) :
  uploadReport_awaited getDocs_rejects env st = Some (st', es, how) ->
  match how with
  | RejectedWith e =>
      getDocs_rejects = Some e /\ st' = st /\ es = [] /\
      missing_required_field st = false /\
      IrishCounties.isValidCounty (Some (county st)) = true /\
      invalid_location st = false /\
      user env <> None
  | Fulfilled =>
      (getDocs_rejects = None \/
       missing_required_field st = true \/
       IrishCounties.isValidCounty (Some (county st)) = false \/
       invalid_location st = true \/
       user env = None) /\
      uploadReport Math_sin Math_cos Math_atan2 env st = Some (st', es) /\
      exists type title text,
        es = (writes es ++ [Toast type title text])%list /\
        (writes es = [] \/
         (writes es = [UploadBytes (blob_path st)] /\ type = "error" /\
          ((exists e, getDownloadURL env = inr e) \/
           (exists url e, getDownloadURL env = inl url /\
                          addDoc_report env st url = inr e))) \/
         (exists data,
             writes es = [UploadBytes (blob_path st); AddDoc data] /\
             type = "success"))
  end.
Proof.
  intros Hrun.
  assert (Hanswered :
    uploadReport_awaited None env st = Some (st', es, how) ->
    how = Fulfilled /\
    uploadReport Math_sin Math_cos Math_atan2 env st = Some (st', es)).
  { rewrite uploadReport_awaited_answered.
    destruct (uploadReport Math_sin Math_cos Math_atan2 env st)
      as [[st0 es0]|]; [|discriminate].
    intros H. inversion H; subst. auto. }
  destruct getDocs_rejects as [e|].
  - rewrite uploadReport_awaited_refused in Hrun.
    destruct (missing_required_field st) eqn:Hm.
    { destruct (Hanswered Hrun) as [-> Hu].
      split; [auto|]. split; [assumption|].
      exact (uploadReport_one_toast _ _ _ _ Hu). }
    destruct (IrishCounties.isValidCounty (Some (county st))) eqn:Hc.
    2:{ destruct (Hanswered Hrun) as [-> Hu].
        split; [auto|]. split; [assumption|].
        exact (uploadReport_one_toast _ _ _ _ Hu). }
    destruct (invalid_location st) eqn:Hl.
    { destruct (Hanswered Hrun) as [-> Hu].
      split; [auto 6|]. split; [assumption|].
      exact (uploadReport_one_toast _ _ _ _ Hu). }
    cbn [negb andb] in Hrun.
    destruct (bool_decide (user env <> None)) eqn:Hu.
    + apply bool_decide_eq_true_1 in Hu.
      inversion Hrun; subst. repeat split; auto.
    + apply bool_decide_eq_false_1 in Hu.
      destruct (Hanswered Hrun) as [-> Hup].
      split.
      { do 4 right. destruct (user env); [|reflexivity].
        exfalso. apply Hu. discriminate. }
      split; [assumption|].
      exact (uploadReport_one_toast _ _ _ _ Hup).
  - destruct (Hanswered Hrun) as [-> Hu].
    split; [auto|]. split; [assumption|].
    exact (uploadReport_one_toast _ _ _ _ Hu).
Qed.

End SubmissionOutcomes.

Set Warnings "-inexact-float".

(** A submission two hundred metres from the user's pending report, with a
    true verdict and every backend call succeeding. *)
Definition accepted_env : Env := example_env [Responds 200 (mkBody "" true)].

Definition accepted_form : Form := example_form 53.3516 10.

Set Warnings "inexact-float".

Definition accepted_report : Doc.Report :=
  new_report accepted_env accepted_form "u1"
    "https://blobs.example/reports/new.jpg".

Definition accepted_effects : list Effect :=
  [UploadBytes (blob_path accepted_form); AddDoc accepted_report;
   Toast "success" "Report Submitted"
     "Your report has been submitted successfully!"].

Lemma accepted_run :
  uploadReport poly_sin poly_cos poly_atan2 accepted_env accepted_form
  = Some (submitted "https://blobs.example/reports/new.jpg" "doc2"
            accepted_form,
          accepted_effects).
Proof. vm_compute. reflexivity. Qed.

Lemma report_written_only_when_checked_witness :
  reaches_verification poly_sin poly_cos poly_atan2
    accepted_env accepted_form /\
  (exists run, verifyImageWithChatGPT (verification accepted_env) = Some run /\
               outcome run = Returns true) /\
  user accepted_env = Some (Doc.userId accepted_report) /\
  Doc.id accepted_report = uniqueId accepted_form /\
  Doc.county accepted_report = Some (county accepted_form) /\
  IrishCounties.isValidCounty (Doc.county accepted_report) = true /\
  Doc.status accepted_report = Doc.pending /\
  Doc.assigned accepted_report = None /\
  Doc.upvotes accepted_report = None /\
  accepted_effects
  = [UploadBytes (blob_path accepted_form); AddDoc accepted_report;
     Toast "success" "Report Submitted"
       "Your report has been submitted successfully!"].
Proof.
  apply (report_written_only_when_checked poly_sin poly_cos poly_atan2
           accepted_env accepted_form
           (submitted "https://blobs.example/reports/new.jpg" "doc2"
              accepted_form)
           accepted_effects accepted_report).
  - exact accepted_run.
  - right. left. reflexivity.
Defined.

(** The same submission when the store refuses the query of the duplicate
    check. *)
Definition store_unavailable : Js.Error := Js.new_Error "unavailable".

Lemma refused_run :
  uploadReport_awaited poly_sin poly_cos poly_atan2
    (Some store_unavailable) accepted_env accepted_form
  = Some (accepted_form, [], RejectedWith store_unavailable).
Proof. vm_compute. reflexivity. Qed.

Lemma uploadReport_effects_witness :
  Some store_unavailable = Some store_unavailable /\
  accepted_form = accepted_form /\ @nil Effect = [] /\
  missing_required_field accepted_form = false /\
  IrishCounties.isValidCounty (Some (county accepted_form)) = true /\
  invalid_location accepted_form = false /\
  user accepted_env <> None.
Proof.
  apply (uploadReport_effects poly_sin poly_cos poly_atan2
           (Some store_unavailable) accepted_env accepted_form
           accepted_form [] (RejectedWith store_unavailable)).
  exact refused_run.
Defined.

(** With the query answered, the run ends with the success toast after the
    two writes. *)
Example answered_run_one_toast :
  uploadReport_awaited poly_sin poly_cos poly_atan2
    None accepted_env accepted_form
  = Some (submitted "https://blobs.example/reports/new.jpg" "doc2"
            accepted_form,
          accepted_effects, Fulfilled).
Proof. vm_compute. reflexivity. Qed.

(** *** Submission ids *)

(** X7. Submission ids can be read back: the two parts of a generated id
    are separated by its first dash and [parseInt(part, 36)] returns the
    clock reading and the random draw it was built from. Two generated ids
    are therefore equal only when both the millisecond and the draw
    coincide. *)
Theorem generateId_injective (env env' : Env) :
  (exists a b, generateId env = a ++ "-" ++ b /\
               all_digit36 a = true /\ all_digit36 b = true /\
               parse36 a = Date_now env /\
               parse36 b = random_million env) /\
  (generateId env = generateId env' ->
   Date_now env = Date_now env' /\
   random_million env = random_million env').
Proof.
  assert (Hd : forall n, all_digit36 (toString36 n) = true)
    by (intros n; now apply toString36_aux_digits).
  split.
  - exists (toString36 (Date_now env)), (toString36 (random_million env)).
    repeat split; auto using parse36_toString36.
  - unfold generateId. intros H.
    apply split_at_dash in H as [Ha Hb]; auto.
    split.
    + rewrite <- (parse36_toString36 (Date_now env)), Ha.
      apply parse36_toString36.
    + rewrite <- (parse36_toString36 (random_million env)), Hb.
      apply parse36_toString36.
Qed.

(** *** The screen around a submission *)

(** An address of [Location.reverseGeocodeAsync]; every field may be
    [null]. *)
Record Address := mkAddress {
  streetNumber : option string;
  street : option string;
  district : option string;
  subregion : option string;
  region : option string;
  postalCode : option string
}.

(** [field || ''] on a field that is a string or [null]. *)
Definition or_empty (field : option string) : string :=
  match field with Some s => s | None => "" end.

(** A value caught by a [catch] block: an [Error], or anything else. *)
Inductive Thrown :=
| ErrorObject (e : Js.Error)
| OtherValue.

(** [err instanceof Error ? err.message : "An error occurred"] *)
Definition message_of (t : Thrown) : string :=
  match t with
  | ErrorObject e => Js.err_message e
  | OtherValue => "An error occurred"
  end.

(** What [getLocation] meets: the permission request rejects or is not
    granted, the position request rejects, the reverse geocoding rejects,
    or it answers with a list of addresses. *)
Inductive Geo :=
| PermissionRejects (t : Thrown)
| PermissionNotGranted
| PositionRejects (t : Thrown)
| GeocodeRejects (loc : Doc.LocationObject) (t : Thrown)
| Geocoded (loc : Doc.LocationObject) (addresses : list Address).

(** [setLocationAccuracy(loc.coords.accuracy); setLocation(loc)] *)
Definition setLocation (loc : Doc.LocationObject) (st : Form) : Form :=
  {| imageUri := imageUri st; imageUrl := imageUrl st;
     uniqueId := uniqueId st; selectedCategory := selectedCategory st;
     description := description st; reportDocId := reportDocId st;
     status := status st; hasExistingReport := hasExistingReport st;
     addressLine1 := addressLine1 st; addressLine2 := addressLine2 st;
     county := county st; eircode := eircode st; location := Some loc;
     locationAccuracy := Doc.accuracy (Doc.coords loc);
     isLoading := isLoading st |}.

Definition setCounty (c : string) (st : Form) : Form :=
  {| imageUri := imageUri st; imageUrl := imageUrl st;
     uniqueId := uniqueId st; selectedCategory := selectedCategory st;
     description := description st; reportDocId := reportDocId st;
     status := status st; hasExistingReport := hasExistingReport st;
     addressLine1 := addressLine1 st; addressLine2 := addressLine2 st;
     county := c; eircode := eircode st; location := location st;
     locationAccuracy := locationAccuracy st; isLoading := isLoading st |}.

Definition setSelectedCategory (c : string) (st : Form) : Form :=
  {| imageUri := imageUri st; imageUrl := imageUrl st;
     uniqueId := uniqueId st; selectedCategory := c;
     description := description st; reportDocId := reportDocId st;
     status := status st; hasExistingReport := hasExistingReport st;
     addressLine1 := addressLine1 st; addressLine2 := addressLine2 st;
     county := county st; eircode := eircode st; location := location st;
     locationAccuracy := locationAccuracy st; isLoading := isLoading st |}.

Definition setDescription (text : string) (st : Form) : Form :=
  {| imageUri := imageUri st; imageUrl := imageUrl st;
     uniqueId := uniqueId st; selectedCategory := selectedCategory st;
     description := text; reportDocId := reportDocId st;
     status := status st; hasExistingReport := hasExistingReport st;
     addressLine1 := addressLine1 st; addressLine2 := addressLine2 st;
     county := county st; eircode := eircode st; location := location st;
     locationAccuracy := locationAccuracy st; isLoading := isLoading st |}.

Definition setAddressLine1 (text : string) (st : Form) : Form :=
  {| imageUri := imageUri st; imageUrl := imageUrl st;
     uniqueId := uniqueId st; selectedCategory := selectedCategory st;
     description := description st; reportDocId := reportDocId st;
     status := status st; hasExistingReport := hasExistingReport st;
     addressLine1 := text; addressLine2 := addressLine2 st;
     county := county st; eircode := eircode st; location := location st;
     locationAccuracy := locationAccuracy st; isLoading := isLoading st |}.

Definition setAddressLine2 (text : string) (st : Form) : Form :=
  {| imageUri := imageUri st; imageUrl := imageUrl st;
     uniqueId := uniqueId st; selectedCategory := selectedCategory st;
     description := description st; reportDocId := reportDocId st;
     status := status st; hasExistingReport := hasExistingReport st;
     addressLine1 := addressLine1 st; addressLine2 := text;
     county := county st; eircode := eircode st; location := location st;
     locationAccuracy := locationAccuracy st; isLoading := isLoading st |}.

Definition setEircode (text : string) (st : Form) : Form :=
  {| imageUri := imageUri st; imageUrl := imageUrl st;
     uniqueId := uniqueId st; selectedCategory := selectedCategory st;
     description := description st; reportDocId := reportDocId st;
     status := status st; hasExistingReport := hasExistingReport st;
     addressLine1 := addressLine1 st; addressLine2 := addressLine2 st;
     county := county st; eircode := text; location := location st;
     locationAccuracy := locationAccuracy st; isLoading := isLoading st |}.

(** The test of [addresses.find]. *)
Definition has_valid_region (addr : Address) : bool :=
  match region addr with
  | Some r => Js.truthy_string r && IrishCounties.isValidCounty (Some r)
  | None => false
  end.

(** The county [getLocation] settles on, if any: the region of the first
    address when it is valid, else the region of the first address that
    has a valid one. *)
Definition county_of_addresses (address : Address) (addresses : list Address)
  : option string :=
  if IrishCounties.isValidCounty (Some (or_empty (region address)))
  then Some (or_empty (region address))
  else
    match List.find has_valid_region addresses with
    | Some addr =>
        match region addr with
        | Some possibleCounty =>
            if Js.truthy_string possibleCounty then Some possibleCounty
            else None
        | None => None
        end
    | None => None
    end.

(** The address fields [getLocation] fills in from the first address. *)
Definition fill_address (address : Address) (addresses : list Address)
    (st : Form) : Form :=
  let streetNumber := or_empty (streetNumber address) in
  let street := or_empty (street address) in
  let fullStreet :=
    if Js.truthy_string streetNumber then streetNumber ++ " " ++ street
    else street in
  let addressLine2Value :=
    Js.or_string (or_empty (district address))
      (Js.or_string (or_empty (subregion address)) "") in
  let st1 := setAddressLine2 addressLine2Value (setAddressLine1 fullStreet st) in
  let st2 :=
    match county_of_addresses address addresses with
    | Some c => setCounty c st1
    | None => st1
    end in
  setEircode (or_empty (postalCode address)) st2.

(** [getLocation]: the form afterwards, the value of [locationError]
    afterwards, and the toasts shown. A toast shown without second line
    has the empty text. *)
Definition getLocation (g : Geo) (st : Form)
  : Form * option string * list Effect :=
  match g with
  | PermissionRejects t =>
      (st, Some (message_of t),
       [Toast "error" "Failed to get location" (message_of t)])
  | PermissionNotGranted =>
      (st, Some "Permission to access location was denied",
       [Toast "error" "Permission Denied"
          "Location access is required for accurate reporting"])
  | PositionRejects t =>
      (st, Some (message_of t),
       [Toast "error" "Failed to get location" (message_of t)])
  | GeocodeRejects loc t =>
      (setLocation loc st, Some (message_of t),
       [Toast "error" "Failed to get location" (message_of t)])
  | Geocoded loc addresses =>
      match addresses with
      | address :: _ =>
          (fill_address address addresses (setLocation loc st), None,
           [Toast "success" "Location retrieved successfully" ""])
      | [] =>
          (setLocation loc st,
           Some "Could not determine address from location",
           [Toast "error" "Location Error"
              "Could not determine address from location"])
      end
  end.

(** What the image picker answers. *)
Inductive Picked :=
| Canceled
| Asset (uri : string)
| PickRejects (message : string).

(** [pickImage] *)
Definition pickImage (env : Env) (result : Picked) (st : Form)
  : Form * list Effect :=
  match result with
  | Canceled => (st, [])
  | Asset selectedUri =>
      ({| imageUri := selectedUri; imageUrl := "";
          uniqueId := generateId env; selectedCategory := "";
          description := ""; reportDocId := None;
          status := None; hasExistingReport := hasExistingReport st;
          addressLine1 := addressLine1 st; addressLine2 := addressLine2 st;
          county := county st; eircode := eircode st;
          location := location st;
          locationAccuracy := locationAccuracy st;
          isLoading := isLoading st |},
       [Toast "success" "Image selected successfully" ""])
  | PickRejects message =>
      (st, [Toast "error" "Failed to pick image" message])
  end.

(** The state updates shared by [deleteReport] and the empty branch of
    [checkExistingReport]. *)
Definition cleared (st : Form) : Form :=
  {| imageUri := ""; imageUrl := ""; uniqueId := ""; selectedCategory := "";
     description := ""; reportDocId := None; status := None;
     hasExistingReport := false;
     addressLine1 := addressLine1 st; addressLine2 := addressLine2 st;
     county := county st; eircode := eircode st; location := location st;
     locationAccuracy := locationAccuracy st; isLoading := isLoading st |}.

(** [checkExistingReport]: the user's first pending report, if any, is
    loaded into the screen. *)
Definition checkExistingReport (env : Env) (st : Form) : Form :=
  match user env with
  | None => st
  | Some uid =>
      match List.filter
              (fun d => String.eqb (Doc.userId (snd d)) uid
                        && bool_decide (Doc.status (snd d) = Doc.pending))
              (reports env) with
      | (docId, docData) :: _ =>
          {| imageUri := imageUri st; imageUrl := Doc.imageUrl docData;
             uniqueId := Doc.id docData;
             selectedCategory := Doc.category docData;
             description := Doc.description docData;
             reportDocId := Some docId;
             status := Some (Doc.status docData);
             hasExistingReport := true;
             addressLine1 := addressLine1 st;
             addressLine2 := addressLine2 st;
             county := county st; eircode := eircode st;
             location := location st;
             locationAccuracy := locationAccuracy st;
             isLoading := isLoading st |}
      | [] => cleared st
      end
  end.

(** A deletion committed by [deleteReport]: of the document, of the blob. *)
Inductive Removal :=
| DeleteDoc (docId : string)
| DeleteObject (path : string).

(** What [deleteReport] meets. *)
Inductive Deletion :=
| DeleteDocRejects (message : string)
| DeleteObjectRejects (message : string)
| Deleted.

(** [deleteReport]: the form afterwards, the deletions committed, in
    order, and the toast. *)
Definition deleteReport (d : Deletion) (st : Form)
  : Form * list Removal * list Effect :=
  match reportDocId st with
  | None => (st, [], [])
  | Some docId =>
      if negb (Js.truthy_string docId) then (st, [], [])
      else
        match d with
        | DeleteDocRejects message =>
            (st, [], [Toast "error" "Delete Failed" message])
        | DeleteObjectRejects message =>
            (st, [DeleteDoc docId], [Toast "error" "Delete Failed" message])
        | Deleted =>
            (cleared st,
             [DeleteDoc docId;
              DeleteObject ("reports/" ++ uniqueId st ++ ".jpg")],
             [Toast "success" "Report Deleted"
                "Your report has been deleted successfully"])
        end
  end.

Definition categories : list string :=
  [ "Pothole"; "Broken Streetlight"; "Damaged Sidewalk"; "Trash Overflow";
    "Flooded Area"; "Power Outage"; "Water Leak"; "Graffiti/Vandalism";
    "Traffic Sign Issue"; "Public Restroom Problem" ].

(** The screen as [useState] initialises it. *)
Definition mounted : Form :=
  {| imageUri := ""; imageUrl := ""; uniqueId := ""; selectedCategory := "";
     description := ""; reportDocId := None; status := None;
     hasExistingReport := false; addressLine1 := ""; addressLine2 := "";
     county := ""; eircode := ""; location := None;
     locationAccuracy := None; isLoading := false |}.

(** The county field is empty or holds a valid county. *)
Definition county_settled (st : Form) : Prop :=
  county st = "" \/ IrishCounties.isValidCounty (Some (county st)) = true.

(** The accuracy kept beside the fix is the accuracy of the fix. *)
Definition accuracy_of_fix (st : Form) : Prop :=
  locationAccuracy st
  = match location st with
    | Some loc => Doc.accuracy (Doc.coords loc)
    | None => None
    end.

(** A status is shown exactly when the screen knows the stored document. *)
Definition status_has_document (st : Form) : Prop :=
  is_Some (status st) <-> is_Some (reportDocId st).

Lemma county_of_addresses_valid (address : Address)
    (addresses : list Address) (c : string) :
  county_of_addresses address addresses = Some c ->
  IrishCounties.isValidCounty (Some c) = true.
Proof.
  unfold county_of_addresses.
  destruct (IrishCounties.isValidCounty (Some (or_empty (region address))))
    eqn:E.
  - intros H. inversion H. now subst.
  - destruct (List.find has_valid_region addresses) as [addr|] eqn:Ef;
      [|discriminate].
    apply find_some in Ef as [_ Hv]. unfold has_valid_region in Hv.
    destruct (region addr) as [r|]; [|discriminate].
    apply andb_true_iff in Hv as [Ht Hv]. rewrite Ht.
    intros H. inversion H. now subst.
Qed.

Lemma getLocation_keeps (g : Geo) (st : Form) :
  county_settled st -> accuracy_of_fix st ->
  county_settled (fst (fst (getLocation g st))) /\
  accuracy_of_fix (fst (fst (getLocation g st))) /\
  status (fst (fst (getLocation g st))) = status st /\
  reportDocId (fst (fst (getLocation g st))) = reportDocId st.
Proof.
  intros Hc Ha. destruct g as [t| |t|loc t|loc [|address addresses]];
    cbn [getLocation fst]; auto.
  - repeat split. exact Hc.
  - repeat split. exact Hc.
  - unfold fill_address. cbv zeta.
    destruct (county_of_addresses address (address :: addresses)) as [c|]
      eqn:E.
    + repeat split. right. cbn.
      exact (county_of_addresses_valid _ _ _ E).
    + repeat split. exact Hc.
Qed.

Section Screen.

Variables Math_sin Math_cos : float -> float.
Variable Math_atan2 : float -> float -> float.

(** What can happen on the screen: the handlers run against whatever they
    meet, the county is taken from the list of the modal, the category
    from the list of categories, and the text fields are typed into. *)
Inductive step : Form -> Form -> Prop :=
| step_getLocation g st :
    step st (fst (fst (getLocation g st)))
| step_pickImage env result st :
    step st (fst (pickImage env result st))
| step_checkExistingReport env st :
    step st (checkExistingReport env st)
| step_deleteReport d st :
    step st (fst (fst (deleteReport d st)))
| step_uploadReport env st st' es :
    uploadReport Math_sin Math_cos Math_atan2 env st = Some (st', es) ->
    step st st'
| step_county item st :
    In item IrishCounties.irishCounties -> step st (setCounty item st)
| step_category item st :
    In item categories -> step st (setSelectedCategory item st)
| step_description text st :
    step st (setDescription (String.substring 0 150 text) st)
| step_addressLine1 text st : step st (setAddressLine1 text st)
| step_addressLine2 text st : step st (setAddressLine2 text st)
| step_eircode text st : step st (setEircode text st).

Inductive reachable : Form -> Prop :=
| reach_mounted : reachable mounted
| reach_step st st' : reachable st -> step st st' -> reachable st'.

Lemma uploadReport_keeps (env : Env) (st st' : Form) (es : list Effect) :
  uploadReport Math_sin Math_cos Math_atan2 env st = Some (st', es) ->
  county st' = county st /\ location st' = location st /\
  locationAccuracy st' = locationAccuracy st /\
  (st' = submitted (imageUrl st') (default "" (reportDocId st')) st /\
   is_Some (reportDocId st') /\ status st' = Some Doc.pending \/
   status st' = status st /\ reportDocId st' = reportDocId st).
Proof.
  intros Hrun.
  destruct (reaches_verification_dec Math_sin Math_cos Math_atan2 env st)
    as [Hreach|Hn].
  2:{ destruct (uploadReport_unverified _ _ _ env st Hn) as (t & x & H).
      rewrite H in Hrun. inversion Hrun; subst. auto 10. }
  rewrite (uploadReport_verified _ _ _ _ _ Hreach) in Hrun.
  destruct (verifyImageWithChatGPT (verification env)) as [run|];
    [|discriminate].
  destruct (outcome run) as [[|]|e] eqn:Hout.
  - cbv zeta in Hrun.
    destruct (uploadBytes env) as [e|];
      [inversion Hrun; subst; cbn; auto 10|].
    destruct (getDownloadURL env) as [url|e];
      [|inversion Hrun; subst; cbn; auto 10].
    destruct (addDoc_report env st url) as [[docId data]|e];
      inversion Hrun; subst; cbn; auto 10.
  - inversion Hrun; subst. cbn. auto 10.
  - inversion Hrun; subst. cbn. auto 10.
Qed.

Lemma irishCounties_valid (item : string) :
  In item IrishCounties.irishCounties ->
  IrishCounties.isValidCounty (Some item) = true.
Proof.
  assert (H : forallb (fun c => IrishCounties.isValidCounty (Some c))
                IrishCounties.irishCounties = true)
    by (vm_compute; reflexivity).
  rewrite forallb_forall in H. apply H.
Qed.

Lemma step_keeps (st st' : Form) :
  step st st' ->
  county_settled st /\ accuracy_of_fix st /\ status_has_document st ->
  county_settled st' /\ accuracy_of_fix st' /\ status_has_document st'.
Proof.
  intros Hstep (Hc & Ha & Hs). destruct Hstep.
  - destruct (getLocation_keeps g st Hc Ha) as (H1 & H2 & H3 & H4).
    repeat split; try assumption; unfold status_has_document in *;
      rewrite H3, H4; apply Hs.
  - destruct result; cbn [pickImage fst]; auto.
    repeat split; try assumption; cbn; intros [x Hx]; discriminate.
  - unfold checkExistingReport. destruct (user env); auto.
    destruct (List.filter _ (reports env)) as [|[docId docData] rest].
    + repeat split; try assumption; cbn; intros [x Hx]; discriminate.
    + repeat split; try assumption; cbn; eauto.
  - unfold deleteReport. destruct (reportDocId st) as [docId|] eqn:E;
      cbn [fst]; auto.
    destruct (negb (Js.truthy_string docId)); cbn [fst]; auto.
    destruct d; cbn [fst]; auto.
    repeat split; try assumption; cbn; intros [x Hx]; discriminate.
  - destruct (uploadReport_keeps env st st' es H) as (H1 & H2 & H3 & H4).
    split; [unfold county_settled; now rewrite H1|].
    split; [unfold accuracy_of_fix; now rewrite H2, H3|].
    unfold status_has_document.
    destruct H4 as [(_ & Hd & Hst)|[Hst Hd]].
    + rewrite Hst. split; eauto.
    + rewrite Hst, Hd. apply Hs.
  - repeat split; try assumption; try apply Hs.
    right. cbn. now apply irishCounties_valid.
  - repeat split; try assumption; apply Hs.
  - repeat split; try assumption; apply Hs.
  - repeat split; try assumption; apply Hs.
  - repeat split; try assumption; apply Hs.
  - repeat split; try assumption; apply Hs.
Qed.

(** X24. In every state the report screen can reach, by any sequence of
    location lookups, image picks, checks for an existing report,
    deletions, submissions, picks in the county and category lists and
    typing, the county field is empty or holds a valid county (it is only
    ever set from a validated region or from the list of the modal), the
    accuracy kept for validation is that of the location kept, and a
    status is shown exactly when the stored document is known. A
    submission from such a state therefore never ends in the "Invalid
    County" toast. *)
Theorem screen_invariants (st : Form) :
  reachable st ->
  county_settled st /\ accuracy_of_fix st /\ status_has_document st /\
  forall env st' es text,
    uploadReport Math_sin Math_cos Math_atan2 env st = Some (st', es) ->
    ~ In (Toast "error" "Invalid County" text) es.
Proof.
  intros Hreach.
  assert (Hinv : county_settled st /\ accuracy_of_fix st /\
                 status_has_document st).
  { induction Hreach as [|st st' _ IH Hstep].
    - repeat split; try (now left); cbn; intros [x Hx]; discriminate.
    - now apply (step_keeps st st'). }
  destruct Hinv as (Hc & Ha & Hs). repeat (split; [assumption|]).
  intros env st' es text Hrun Hin.
  unfold uploadReport in Hrun.
  destruct (negb (Js.truthy_string (imageUri st))
            || negb (Js.truthy_string (selectedCategory st))
            || negb (Js.truthy_string (description st))
            || negb (Js.truthy_string (addressLine1 st))
            || negb (Js.truthy_string (county st))
            || negb (Js.truthy_string (eircode st))) eqn:Hm.
  { inversion Hrun; subst. destruct Hin as [Hin|[]]. discriminate. }
  assert (Hv : IrishCounties.isValidCounty (Some (county st)) = true).
  { destruct Hc as [Hc|Hc]; [|assumption].
    rewrite Hc in Hm. cbn in Hm.
    rewrite !orb_true_r in Hm. discriminate. }
  rewrite Hv in Hrun. cbn [negb] in Hrun.
  destruct (negb (isLocationValid st));
    [inversion Hrun; subst; destruct Hin as [Hin|[]]; discriminate|].
  destruct (isDuplicate Math_sin Math_cos Math_atan2 env st);
    [inversion Hrun; subst; destruct Hin as [Hin|[]]; discriminate|].
  destruct (verifyImageWithChatGPT (verification env)) as [run|];
    [|discriminate].
  destruct (outcome run) as [[|]|e].
  - cbv zeta in Hrun.
    destruct (uploadBytes env) as [e|];
      [inversion Hrun; subst; destruct Hin as [Hin|[]]; discriminate|].
    destruct (getDownloadURL env) as [url|e];
      [|inversion Hrun; subst; destruct Hin as [Hin|[Hin|[]]]; discriminate].
    destruct (addDoc_report env st url) as [[docId data]|e];
      inversion Hrun; subst.
    + destruct Hin as [Hin|[Hin|[Hin|[]]]]; discriminate.
    + destruct Hin as [Hin|[Hin|[]]]; discriminate.
  - inversion Hrun; subst. destruct Hin as [Hin|[]]. discriminate.
  - inversion Hrun; subst. destruct Hin as [Hin|[]]. discriminate.
Qed.

(** X25. Deleting undoes a submission. After a submission that wrote its
    document, the screen holds the storage id the store answered and
    shows the report as pending, and a deletion that meets no failure
    removes that document (its storage id not being the empty string) and
    then the blob under the very path the submission uploaded to; the
    screen is cleared, the image buttons are enabled again, and the
    address fields and the location stay. *)
Theorem delete_undoes_submit (env : Env) (st st' : Form) (es : list Effect)
    (data : Doc.Report) :
  uploadReport Math_sin Math_cos Math_atan2 env st = Some (st', es) ->
  In (AddDoc data) es ->
  exists docId,
    addDoc env = inl docId /\
    reportDocId st' = Some docId /\
    status st' = Some Doc.pending /\
    hasExistingReport st' = true /\
    In (UploadBytes ("reports/" ++ uniqueId st ++ ".jpg")) es /\
    (docId <> "" ->
     deleteReport Deleted st'
     = (cleared st',
        [DeleteDoc docId; DeleteObject ("reports/" ++ uniqueId st ++ ".jpg")],
        [Toast "success" "Report Deleted"
           "Your report has been deleted successfully"])) /\
    hasExistingReport (cleared st') = false /\
    reportDocId (cleared st') = None /\
    imageUri (cleared st') = "" /\
    addressLine1 (cleared st') = addressLine1 st /\
    county (cleared st') = county st /\
    eircode (cleared st') = eircode st /\
    location (cleared st') = location st.
Proof.
  intros Hrun Hin.
  destruct (reaches_verification_dec Math_sin Math_cos Math_atan2 env st)
    as [Hreach|Hn].
  2:{ destruct (uploadReport_unverified _ _ _ env st Hn) as (t & x & H).
      rewrite H in Hrun. inversion Hrun; subst.
      destruct Hin as [Hin|[]]. discriminate. }
  rewrite (uploadReport_verified _ _ _ _ _ Hreach) in Hrun.
  destruct (verifyImageWithChatGPT (verification env)) as [run|];
    [|discriminate].
  destruct (outcome run) as [[|]|e] eqn:Hout.
  - cbv zeta in Hrun.
    destruct (uploadBytes env) as [e|].
    { inversion Hrun; subst. destruct Hin as [Hin|[]]. discriminate. }
    destruct (getDownloadURL env) as [url|e].
    2:{ inversion Hrun; subst.
        destruct Hin as [Hin|[Hin|[]]]; discriminate. }
    unfold addDoc_report in Hrun.
    destruct (user env) as [uid|].
    2:{ inversion Hrun; subst.
        destruct Hin as [Hin|[Hin|[]]]; discriminate. }
    destruct (addDoc env) as [docId|e].
    2:{ inversion Hrun; subst.
        destruct Hin as [Hin|[Hin|[]]]; discriminate. }
    inversion Hrun; subst. exists docId.
    repeat split; try reflexivity; [simpl; auto|].
    intros Hne. unfold deleteReport. cbn [reportDocId submitted].
    destruct docId; [contradiction|reflexivity].
  - inversion Hrun; subst. destruct Hin as [Hin|[]]. discriminate.
  - inversion Hrun; subst. destruct Hin as [Hin|[]]. discriminate.
Qed.

End Screen.

Lemma screen_invariants_witness :
  county_settled (setCounty "Co. Dublin" mounted) /\
  accuracy_of_fix (setCounty "Co. Dublin" mounted) /\
  status_has_document (setCounty "Co. Dublin" mounted) /\
  forall env st' es text,
    uploadReport poly_sin poly_cos poly_atan2 env
      (setCounty "Co. Dublin" mounted) = Some (st', es) ->
    ~ In (Toast "error" "Invalid County" text) es.
Proof.
  apply (screen_invariants poly_sin poly_cos poly_atan2
           (setCounty "Co. Dublin" mounted)).
  apply (reach_step poly_sin poly_cos poly_atan2 mounted).
  - apply reach_mounted.
  - apply step_county. repeat (first [left; reflexivity | right]).
Defined.

Lemma delete_undoes_submit_witness :
  exists docId,
    addDoc accepted_env = inl docId /\
    reportDocId (submitted "https://blobs.example/reports/new.jpg" "doc2"
                   accepted_form) = Some docId /\
    status (submitted "https://blobs.example/reports/new.jpg" "doc2"
              accepted_form) = Some Doc.pending /\
    hasExistingReport (submitted "https://blobs.example/reports/new.jpg"
                         "doc2" accepted_form) = true /\
    In (UploadBytes ("reports/" ++ uniqueId accepted_form ++ ".jpg"))
       accepted_effects /\
    (docId <> "" ->
     deleteReport Deleted
       (submitted "https://blobs.example/reports/new.jpg" "doc2" accepted_form)
     = (cleared (submitted "https://blobs.example/reports/new.jpg" "doc2"
                   accepted_form),
        [DeleteDoc docId;
         DeleteObject ("reports/" ++ uniqueId accepted_form ++ ".jpg")],
        [Toast "success" "Report Deleted"
           "Your report has been deleted successfully"])) /\
    hasExistingReport
      (cleared (submitted "https://blobs.example/reports/new.jpg" "doc2"
                  accepted_form)) = false /\
    reportDocId
      (cleared (submitted "https://blobs.example/reports/new.jpg" "doc2"
                  accepted_form)) = None /\
    imageUri
      (cleared (submitted "https://blobs.example/reports/new.jpg" "doc2"
                  accepted_form)) = "" /\
    addressLine1
      (cleared (submitted "https://blobs.example/reports/new.jpg" "doc2"
                  accepted_form)) = addressLine1 accepted_form /\
    county
      (cleared (submitted "https://blobs.example/reports/new.jpg" "doc2"
                  accepted_form)) = county accepted_form /\
    eircode
      (cleared (submitted "https://blobs.example/reports/new.jpg" "doc2"
                  accepted_form)) = eircode accepted_form /\
    location
      (cleared (submitted "https://blobs.example/reports/new.jpg" "doc2"
                  accepted_form)) = location accepted_form.
Proof.
  apply (delete_undoes_submit poly_sin poly_cos poly_atan2
           accepted_env accepted_form
           (submitted "https://blobs.example/reports/new.jpg" "doc2"
              accepted_form)
           accepted_effects accepted_report).
  - exact accepted_run.
  - right. left. reflexivity.
Defined.

End ReportScreen.

(** ** The image verification endpoint ([POST /api/verify-image]) *)

Module VerifyImageApi.

(** JavaScript white space and line terminators, in ASCII: tab, line feed,
    vertical tab, form feed, carriage return, space. *)
Definition is_space (c : ascii) : bool :=
  let n := N_of_ascii c in
  ((9 <=? n) && (n <=? 13) || (n =? 32))%N.

Fixpoint all_space (s : string) : bool :=
  match s with
  | EmptyString => true
  | String c s' => is_space c && all_space s'
  end.

Fixpoint trimStart (s : string) : string :=
  match s with
  | EmptyString => EmptyString
  | String c s' => if is_space c then trimStart s' else s
  end.

Fixpoint trimEnd (s : string) : string :=
  match s with
  | EmptyString => EmptyString
  | String c s' =>
      match trimEnd s' with
      | EmptyString => if is_space c then EmptyString else String c EmptyString
      | t => String c t
      end
  end.

(** [String.prototype.trim] *)
Definition trim (s : string) : string := trimEnd (trimStart s).

(** What the classifier does with the request: it answers with a message
    whose content may be [null], or the call, or the reading of its
    answer, throws an error with this message. *)
Inductive Classifier :=
| Answers (content : option string)
| Fails (message : string).

(** The parsed JSON body of the request, or the message of the error
    [request.json()] throws. *)
Record Fields := mkFields {
  imageBase64 : option string;
  category : option string
}.

Definition falsy (v : option string) : bool :=
  match v with
  | None => true
  | Some s => negb (Js.truthy_string s)
  end.

(** The content is ASCII text: the white space of [trim] and the letters
    of [toLowerCase] are then the ASCII ones. *)
Definition ascii_text (s : string) : bool :=
  forallb (fun c => (N_of_ascii c <? 128)%N) (list_ascii_of_string s).

(** [response.choices[0].message.content?.toLowerCase().trim() === "true"],
    for a content that is ASCII text. *)
Definition verdict (content : option string) : bool :=
  match content with
  | None => false
  | Some s => String.eqb (trim (Js.toLowerCase s)) "true"
  end.

(** The answer of the handler: HTTP status and JSON body ([None] for the
    empty body of the preflight answer). *)
Definition Answer : Type := Z * option ReportScreen.Body.

Definition failure (http_status : Z) (error : string) : Answer :=
  (http_status, Some (ReportScreen.mkBody error false)).

(** [POST]: the preflight answer, the 400 on a missing field, the 200 with
    the verdict, and the 500 of the [catch] block. *)
Definition POST (method : string) (json : Fields + string)
    (openai : Classifier) : Answer :=
  if String.eqb method "OPTIONS" then (204, None)
  else
    match json with
    | inr message => failure 500 (Js.or_string message "Failed to verify image")
    | inl body =>
        if falsy (imageBase64 body) || falsy (category body)
        then failure 400 "Missing required fields"
        else
          match openai with
          | Fails message =>
              failure 500 (Js.or_string message "Failed to verify image")
          | Answers content =>
              (200, Some (ReportScreen.mkBody "" (verdict content)))
          end
    end.

Example verdict_true :
  verdict (Some (" True" ++ String (ascii_of_N 10) "")) = true.
Proof. reflexivity. Qed.

Example verdict_sentence : verdict (Some "true.") = false.
Proof. reflexivity. Qed.

Example verdict_null : verdict None = false.
Proof. reflexivity. Qed.

(** *** Properties *)

Lemma lower_space (c : ascii) : is_space (Js.lower_ascii c) = is_space c.
Proof.
  unfold Js.lower_ascii.
  destruct ((65 <=? N_of_ascii c) && (N_of_ascii c <=? 90))%N eqn:E;
    [|reflexivity].
  apply andb_true_iff in E as [H1 H2].
  apply N.leb_le in H1, H2. unfold is_space.
  rewrite N_ascii_embedding by lia.
  repeat match goal with
         | |- context [(?a <=? ?b)%N] =>
             destruct (N.leb_spec a b); try lia
         | |- context [(?a =? ?b)%N] =>
             destruct (N.eqb_spec a b); try lia
         end; reflexivity.
Qed.

Lemma all_space_lower (s : string) :
  all_space (Js.toLowerCase s) = all_space s.
Proof.
  induction s as [|c s IH]; simpl; [reflexivity|].
  now rewrite lower_space, IH.
Qed.

Lemma trimStart_split (s : string) :
  exists l, s = l ++ trimStart s /\ all_space l = true.
Proof.
  induction s as [|c s (l & Hl & Hs)]; simpl.
  - exists "". auto.
  - destruct (is_space c) eqn:E.
    + exists (String c l). simpl. rewrite E, Hs.
      split; [now rewrite Hl at 1|reflexivity].
    + exists "". auto.
Qed.

Lemma trimEnd_split (s : string) :
  exists r, s = trimEnd s ++ r /\ all_space r = true.
Proof.
  induction s as [|c s (r & Hr & Hs)]; simpl.
  - exists "". auto.
  - destruct (trimEnd s) as [|d t] eqn:E.
    + destruct (is_space c) eqn:Ec.
      * exists (String c r). simpl. rewrite Ec, Hs.
        split; [now rewrite Hr at 1|reflexivity].
      * exists r. simpl. split; [now rewrite Hr at 1|assumption].
    + exists r. simpl. split; [now rewrite Hr at 1|assumption].
Qed.

Lemma trimEnd_space (r : string) : all_space r = true -> trimEnd r = "".
Proof.
  induction r as [|c r IH]; simpl; [reflexivity|].
  intros H. apply andb_true_iff in H as [Hc Hr].
  now rewrite (IH Hr), Hc.
Qed.

Lemma trimEnd_app_space (t r : string) :
  all_space r = true -> trimEnd (t ++ r) = trimEnd t.
Proof.
  intros Hr. induction t as [|c t IH]; simpl.
  - now apply trimEnd_space.
  - now rewrite IH.
Qed.

Lemma trimStart_app_space (l t : string) :
  all_space l = true -> trimStart (l ++ t) = trimStart t.
Proof.
  induction l as [|c l IH]; simpl; [reflexivity|].
  intros H. apply andb_true_iff in H as [Hc Hl]. rewrite Hc. auto.
Qed.

Lemma toLowerCase_split (s a b : string) :
  Js.toLowerCase s = a ++ b ->
  exists s1 s2, s = s1 ++ s2 /\ Js.toLowerCase s1 = a /\
                Js.toLowerCase s2 = b.
Proof.
  revert s. induction a as [|c a IH]; intros s H.
  - exists "", s. auto.
  - destruct s as [|d s]; [discriminate|].
    simpl in H. inversion H as [[Hc Ha]].
    destruct (IH s Ha) as (s1 & s2 & -> & H1 & H2).
    exists (String d s1), s2. simpl. now rewrite H1.
Qed.

(** X3. The endpoint's reading of an answer of the classifier that is
    missing or ASCII text: the verdict is true exactly when the content is
    the word "true" in any letter case, with nothing around it but white
    space (tab, line feed, vertical tab, form feed, carriage return,
    space); a missing content and any other ASCII text give false. *)
Theorem verdict_spec (content : option string) :
  (forall s, content = Some s -> ascii_text s = true) ->
  verdict content = true <->
  exists l t r,
    content = Some (l ++ t ++ r) /\
    all_space l = true /\ all_space r = true /\
    Js.toLowerCase t = "true".
Proof.
  intros _. unfold verdict. split.
  - destruct content as [s|]; [|discriminate].
    intros H. apply String.eqb_eq in H. unfold trim in H.
    destruct (trimStart_split (Js.toLowerCase s)) as (l' & Hl' & Hsl).
    destruct (trimEnd_split (trimStart (Js.toLowerCase s)))
      as (r' & Hr' & Hsr).
    rewrite H in Hr'. rewrite Hr' in Hl'.
    destruct (toLowerCase_split _ _ _ Hl') as (l & x & -> & Hl & Hx).
    destruct (toLowerCase_split _ _ _ Hx) as (t & r & -> & Ht & Hr).
    exists l, t, r. repeat split; auto.
    + now rewrite <- all_space_lower, Hl.
    + now rewrite <- all_space_lower, Hr.
  - intros (l & t & r & -> & Hl & Hr & Ht).
    apply String.eqb_eq. unfold trim.
    rewrite !IrishCounties.toLowerCase_app, Ht.
    rewrite trimStart_app_space by now rewrite all_space_lower.
    change (trimStart ("true" ++ Js.toLowerCase r))
      with ("true" ++ Js.toLowerCase r).
    rewrite trimEnd_app_space by now rewrite all_space_lower.
    reflexivity.
Qed.

Lemma verdict_spec_witness :
  verdict (Some (" True" ++ String (ascii_of_N 10) "")) = true <->
  exists l t r,
    Some (" True" ++ String (ascii_of_N 10) "") = Some (l ++ t ++ r) /\
    all_space l = true /\ all_space r = true /\
    Js.toLowerCase t = "true".
Proof.
  apply (verdict_spec (Some (" True" ++ String (ascii_of_N 10) ""))).
  intros s H. inversion H. reflexivity.
Defined.

(** X4. The client against this endpoint. Whatever the request and the
    classifier, a call answered by [POST] takes one request and one
    1000 ms wait and is never retried: with both fields present and an
    answer from the classifier the client returns the endpoint's verdict;
    a missing field or a failure of the classifier (its rate limit
    included) reaches the caller as an error carrying the endpoint's
    message. *)
Theorem client_against_endpoint (json : Fields + string)
    (openai : Classifier) (rest : list ReportScreen.Attempt) :
  exists body,
    POST "POST" json openai = (fst (POST "POST" json openai), Some body) /\
    ReportScreen.verifyImageWithChatGPT
      (ReportScreen.Responds (fst (POST "POST" json openai)) body :: rest)
    = Some (ReportScreen.mkRun
              match json, openai with
              | inl fields, Answers content =>
                  if falsy (imageBase64 fields) || falsy (category fields)
                  then ReportScreen.Throws
                         (Js.new_Error "Missing required fields")
                  else ReportScreen.Returns (verdict content)
              | inl fields, Fails message =>
                  if falsy (imageBase64 fields) || falsy (category fields)
                  then ReportScreen.Throws
                         (Js.new_Error "Missing required fields")
                  else ReportScreen.Throws
                         (Js.new_Error
                            (Js.or_string message "Failed to verify image"))
              | inr message, _ =>
                  ReportScreen.Throws
                    (Js.new_Error
                       (Js.or_string message "Failed to verify image"))
              end
              1 [1000]).
Proof.
  unfold POST. cbn [String.eqb Ascii.eqb Bool.eqb].
  assert (Hmsg : forall m,
    Js.or_string (Js.or_string m "Failed to verify image")
                 "Failed to verify image"
    = Js.or_string m "Failed to verify image") by (now intros [|c m]).
  assert (Hmsg' : forall m,
    Js.or_string (Js.or_string m "Failed to verify image")
                 "Failed to verify image with AI"
    = Js.or_string m "Failed to verify image") by (now intros [|c m]).
  destruct json as [fields|message].
  - destruct (falsy (imageBase64 fields) || falsy (category fields)).
    + eexists. split; [reflexivity|]. destruct openai; reflexivity.
    + destruct openai as [content|message].
      * eexists. split; [reflexivity|]. reflexivity.
      * eexists. split; [reflexivity|]. cbn.
        now rewrite Hmsg, Hmsg'.
  - eexists. split; [reflexivity|]. cbn. now rewrite Hmsg, Hmsg'.
Qed.

End VerifyImageApi.

(** ** The admin dashboard: moderation handlers *)

Module AdminDashboard.
Import Doc.

(** A write committed to the document store. *)
Inductive Write :=
| UpdateStatus (docId : string) (s : Status)
| DeleteReport (docId : string)
| AddMessage (m : Message).

(** The document store together with the state of the dashboard
    component. [log] lists the committed writes, oldest first. *)
Record World := mkWorld {
  reports : list (string * Report);
  messages : list Message;
  log : list Write;
  pendingReports : list (string * Report);
  assignedReports : list (string * Report);
  processingId : option string;
  currentCardIndex : Z;
  alerts : list (string * string)
}.

(** What a handler reads and does not change: the signed-in admin
    ([useAuth]), the device clock ([new Date()]), the clock of the server
    ([serverTimestamp()]) and the time zone of the device ([LocalTZA], the
    offset of its local time from UTC, see [Js.LocalTime]). *)
Record Session := mkSession {
  user : option string;
  isAdmin : bool;
  clientNow : Z;
  serverNow : Z;
  LocalTZA : Z -> bool -> Z
}.

(** Handlers run in a state monad with exceptions. *)
Definition M (A : Type) : Type := World -> (A + Js.Error) * World.

Definition ret {A} (a : A) : M A := fun w => (inl a, w).

Definition bind {A B} (m : M A) (k : A -> M B) : M B :=
  fun w =>
    match m w with
    | (inl a, w') => k a w'
    | (inr e, w') => (inr e, w')
    end.

Definition throw {A} (e : Js.Error) : M A := fun w => (inr e, w).

Definition gets {A} (f : World -> A) : M A := fun w => (inl (f w), w).

Definition modify (f : World -> World) : M unit := fun w => (inl tt, f w).

Declare Scope handler_scope.
Delimit Scope handler_scope with handler.

Notation "x <- m ;; k" := (bind m (fun x => k))
  (at level 100, m at next level, right associativity) : handler_scope.
Notation "m ;; k" := (bind m (fun _ => k))
  (at level 100, right associativity) : handler_scope.

(** [try { body } catch (error) { handler } finally { fin }] *)
Definition try_catch_finally (body : M unit) (handler : Js.Error -> M unit)
    (fin : M unit) : M unit :=
  fun w =>
    match body w with
    | (inl _, w1) => fin w1
    | (inr e, w1) =>
        match handler e w1 with
        | (r, w2) =>
            match fin w2 with
            | (inl _, w3) => (r, w3)
            | (inr e', w3) => (inr e', w3)
            end
        end
    end.

(** The state a handler leaves behind. *)
Definition exec {A} (m : M A) (w : World) : World := snd (m w).

(** *** State setters *)

Definition with_reports (v : list (string * Report)) (w : World) : World :=
  mkWorld v (messages w) (log w) (pendingReports w) (assignedReports w)
          (processingId w) (currentCardIndex w) (alerts w).

Definition with_messages (v : list Message) (w : World) : World :=
  mkWorld (reports w) v (log w) (pendingReports w) (assignedReports w)
          (processingId w) (currentCardIndex w) (alerts w).

Definition with_log (v : list Write) (w : World) : World :=
  mkWorld (reports w) (messages w) v (pendingReports w) (assignedReports w)
          (processingId w) (currentCardIndex w) (alerts w).

Definition setPendingReports (f : list (string * Report) -> list (string * Report))
  : M unit :=
  modify (fun w =>
    mkWorld (reports w) (messages w) (log w) (f (pendingReports w))
            (assignedReports w) (processingId w) (currentCardIndex w)
            (alerts w)).

Definition setAssignedReports (f : list (string * Report) -> list (string * Report))
  : M unit :=
  modify (fun w =>
    mkWorld (reports w) (messages w) (log w) (pendingReports w)
            (f (assignedReports w)) (processingId w) (currentCardIndex w)
            (alerts w)).

Definition setProcessingId (v : option string) : M unit :=
  modify (fun w =>
    mkWorld (reports w) (messages w) (log w) (pendingReports w)
            (assignedReports w) v (currentCardIndex w) (alerts w)).

Definition setCurrentCardIndex (v : Z) : M unit :=
  modify (fun w =>
    mkWorld (reports w) (messages w) (log w) (pendingReports w)
            (assignedReports w) (processingId w) v (alerts w)).

(** [Alert.alert(title, message)] *)
Definition Alert_alert (title message : string) : M unit :=
  modify (fun w =>
    mkWorld (reports w) (messages w) (log w) (pendingReports w)
            (assignedReports w) (processingId w) (currentCardIndex w)
            (alerts w ++ [(title, message)])).

(** *** Document store operations *)

Definition set_status (s : Status) (r : Report) : Report :=
  mkReport (id r) (imageUrl r) (category r) (description r) (addressLine1 r)
           (addressLine2 r) (county r) (eircode r) (location r) (timestamp r)
           (userId r) s (assigned r) (upvotes r).

Definition has_doc (docId : string) (docs : list (string * Report)) : bool :=
  existsb (fun d => String.eqb (fst d) docId) docs.

(** The collection after the status field of document [docId] was set. *)
Definition update_status (docId : string) (s : Status)
    (docs : list (string * Report)) : list (string * Report) :=
  map (fun d => if String.eqb (fst d) docId
                then (fst d, set_status s (snd d)) else d) docs.

Definition not_found : Js.Error :=
  Js.new_Error "No document to update".

(** [updateDoc(doc(db, "reports", docId), { status })]: rejects when the
    document does not exist. *)
Definition updateDoc_status (docId : string) (s : Status) : M unit :=
  fun w =>
    if has_doc docId (reports w) then
      (inl tt,
       with_log (log w ++ [UpdateStatus docId s])
         (with_reports (update_status docId s (reports w)) w))
    else (inr not_found, w).

(** [deleteDoc(doc(db, "reports", docId))] *)
Definition deleteDoc (docId : string) : M unit :=
  modify (fun w =>
    with_log (log w ++ [DeleteReport docId])
      (with_reports
         (List.filter (fun d => negb (String.eqb (fst d) docId)) (reports w))
         w)).

(** [addDoc(collection(db, "messages"), m)] *)
Definition addDoc_message (m : Message) : M unit :=
  modify (fun w =>
    with_log (log w ++ [AddMessage m]) (with_messages (messages w ++ [m]) w)).

(** [getDocs(query(collection(db, "reports"), where("id", "==", reportId)))] *)
Definition getDocs_by_id (reportId : string) : M (list (string * Report)) :=
  gets (fun w =>
    List.filter (fun d => String.eqb (id (snd d)) reportId) (reports w)).

(** [getDoc(doc(db, "reports", docId))]; [None] when [exists()] is false. *)
Definition getDoc (docId : string) : M (option Report) :=
  gets (fun w =>
    match List.filter (fun d => String.eqb (fst d) docId) (reports w) with
    | d :: _ => Some (snd d)
    | [] => None
    end).

(** [snapshot.docs[0].data()]: a [TypeError] on an empty snapshot. *)
Definition first_data (docs : list (string * Report)) : M Report :=
  match docs with
  | d :: _ => ret (snd d)
  | [] => throw (Js.new_Error "Cannot read properties of undefined")
  end.

Definition two_hours : Z := 2 * 60 * 60 * 1000.

(** [const expiresAt = new Date(); expiresAt.setHours(expiresAt.getHours() + 2)]:
    the time value of [expiresAt] afterwards. *)
Definition expiry (ses : Session) : Z :=
  let expiresAt := clientNow ses in
  Js.setHours (LocalTZA ses) expiresAt
    (Js.getHours (LocalTZA ses) expiresAt + 2).

(** The UTC offset of the device is the same when the message is composed
    and at the local time two hours later. *)
Definition same_offset (ses : Session) : Prop :=
  LocalTZA ses (Js.LocalTime (LocalTZA ses) (clientNow ses) + two_hours) false
  = LocalTZA ses (clientNow ses) true.

Definition notification (ses : Session) (reportData : Report)
    (title content : string) (type : MessageType) (reportId : string)
  : Message :=
  {| msg_userId := userId reportData;
     msg_title := title;
     msg_content := content;
     msg_type := type;
     msg_reportId := reportId;
     msg_createdAt := serverNow ses;
     msg_read := false;
     msg_expiresAt := expiry ses |}.

Definition not_doc (docId : string) (d : string * Report) : bool :=
  negb (String.eqb (fst d) docId).

Open Scope handler_scope.

(** *** The handlers *)

Definition fetchPendingReports : M unit :=
  snapshot <- gets (fun w =>
    List.filter (fun d => bool_decide (status (snd d) = pending)) (reports w)) ;;
  setPendingReports (fun _ => snapshot).

Definition fetchAssignedReports (ses : Session) : M unit :=
  match user ses with
  | None => ret tt
  | Some uid =>
      snapshot <- gets (fun w =>
        List.filter
          (fun d => bool_decide (assigned (snd d) = Some uid)
                    && bool_decide (status (snd d) = approved))
          (reports w)) ;;
      setAssignedReports (fun _ => snapshot)
  end.

Definition handleApprove (ses : Session) (reportId docId : string) : M unit :=
  current <- gets processingId ;;
  if bool_decide (current = Some docId) then ret tt
  else
    setProcessingId (Some docId) ;;
    try_catch_finally
      (reportDoc <- getDocs_by_id reportId ;;
       reportData <- first_data reportDoc ;;
       updateDoc_status docId approved ;;
       addDoc_message
         (notification ses reportData "Report Approved"
            ("Your report about " ++ Js.quote ++ category reportData
               ++ Js.quote ++ " has been approved.")
            approval reportId) ;;
       setPendingReports (List.filter (not_doc docId)) ;;
       setCurrentCardIndex 0 ;;
       Alert_alert "Success" "Report approved successfully")
      (fun _ => Alert_alert "Error" "Failed to approve report")
      (setProcessingId None).

Definition handleDecline (ses : Session) (reportId docId : string) : M unit :=
  current <- gets processingId ;;
  if bool_decide (current = Some docId) then ret tt
  else
    setProcessingId (Some docId) ;;
    try_catch_finally
      (reportDoc <- getDocs_by_id reportId ;;
       reportData <- first_data reportDoc ;;
       deleteDoc docId ;;
       addDoc_message
         (notification ses reportData "Report Declined"
            ("Your report about " ++ Js.quote ++ category reportData
               ++ Js.quote
               ++ " has been declined. Please review and submit again.")
            decline reportId) ;;
       setPendingReports (List.filter (not_doc docId)) ;;
       setCurrentCardIndex 0 ;;
       Alert_alert "Success" "Report declined and deleted")
      (fun _ => Alert_alert "Error" "Failed to decline report")
      (setProcessingId None).

Definition handleComplete (ses : Session) (reportId docId : string) : M unit :=
  current <- gets processingId ;;
  if bool_decide (current = Some docId) then ret tt
  else
    setProcessingId (Some docId) ;;
    try_catch_finally
      (reportDoc <- getDoc docId ;;
       match reportDoc with
       | None => throw (Js.new_Error "Report not found")
       | Some reportData =>
           updateDoc_status docId completed ;;
           addDoc_message
             (notification ses reportData "Report Completed"
                ("Your report about " ++ Js.quote ++ category reportData
                   ++ Js.quote ++ " has been marked as completed.")
                general reportId) ;;
           setAssignedReports (List.filter (not_doc docId)) ;;
           Alert_alert "Success" "Report marked as completed"
       end)
      (fun _ => Alert_alert "Error" "Failed to complete report")
      (setProcessingId None).

Close Scope handler_scope.

(** *** Well-formed stores and the assignee restriction *)

(** Storage ids are unique in a collection. *)
Definition unique_docIds (docs : list (string * Report)) : Prop :=
  List.NoDup (map fst docs).

(** The ids the clients generated identify the reports. *)
Definition unique_ids (docs : list (string * Report)) : Prop :=
  List.NoDup (map (fun d => id (snd d)) docs).

(** The render code of the dashboard: a non-admin gets the "Access Denied"
    view, and the Complete button exists once per card of
    [assignedReports]. *)
Definition complete_offered (ses : Session) (w : World) (docId : string)
  : Prop :=
  isAdmin ses = true /\ In docId (map fst (assignedReports w)).

(** A complete attempt was rejected: the store is as it was. *)
Definition completion_rejected (ses : Session) (w : World)
    (reportId docId : string) : Prop :=
  reports (exec (handleComplete ses reportId docId) w) = reports w /\
  messages (exec (handleComplete ses reportId docId) w) = messages w.

(** The scenario behind the dashboard's "My Assigned Reports" tab going
    stale: admin B loads the tab while the report is assigned to B, the
    report is then reassigned to admin A, and B presses Complete on the
    card still shown. *)
Definition admin_B : Session :=
  {| user := Some "adminB"; isAdmin := true;
     clientNow := 1730592000000; serverNow := 1730592000350;
     LocalTZA := fun _ _ => 0 |}.

Definition approved_report (assignee : string) : Report :=
  {| id := "m30tslc0-lflr";
     imageUrl := "https://blobs.example/reports/m30tslc0-lflr.jpg";
     category := "Pothole";
     description := "Deep pothole";
     addressLine1 := "1 O'Connell Street";
     addressLine2 := "";
     county := Some "Co. Dublin";
     eircode := "D01 F5P2";
     location := None;
     timestamp := 1730592000350;
     userId := "u1";
     status := approved;
     assigned := Some assignee;
     upvotes := None |}.

Definition initial_world (docs : list (string * Report)) : World :=
  mkWorld docs [] [] [] [] None 0 [].

Definition tab_loaded : World :=
  exec (fetchAssignedReports admin_B)
       (initial_world [("doc1", approved_report "adminB")]).

Definition stale_world : World :=
  with_reports [("doc1", approved_report "adminA")] tab_loaded.

(** *** Properties *)

Lemma filter_unique_key {A} (key : A -> string) (l : list A) (x : A) :
  List.NoDup (map key l) -> In x l ->
  List.filter (fun y => String.eqb (key y) (key x)) l = [x].
Proof.
  induction l as [|y l IH]; simpl; [tauto|].
  intros Hnd [Heq|Hin].
  - subst y. rewrite String.eqb_refl. f_equal.
    apply List.NoDup_cons_iff in Hnd as [Hnotin _].
    clear IH. induction l as [|z l IHl]; simpl; [reflexivity|].
    destruct (String.eqb (key z) (key x)) eqn:E.
    + apply String.eqb_eq in E. exfalso. apply Hnotin. simpl. now left.
    + apply IHl. intros H. apply Hnotin. simpl. now right.
  - apply List.NoDup_cons_iff in Hnd as [Hnotin Hnd].
    destruct (String.eqb (key y) (key x)) eqn:E.
    + apply String.eqb_eq in E. exfalso. apply Hnotin. rewrite E.
      now apply in_map.
    + now apply IH.
Qed.

Lemma has_doc_In (docId : string) (R : Report) docs :
  In (docId, R) docs -> has_doc docId docs = true.
Proof.
  intros H. unfold has_doc. apply existsb_exists.
  exists (docId, R). split; [assumption|apply String.eqb_refl].
Qed.

Lemma update_status_In (docId : string) (s : Status) (R : Report) docs :
  In (docId, R) docs -> In (docId, set_status s R) (update_status docId s docs).
Proof.
  intros H. unfold update_status. apply in_map_iff.
  exists (docId, R). simpl. now rewrite String.eqb_refl.
Qed.

(** Documents other than [docId] are left as they were. *)
Lemma update_status_other (docId d : string) (s : Status) (R : Report) docs :
  d <> docId -> In (d, R) docs -> In (d, R) (update_status docId s docs).
Proof.
  intros Hne H. unfold update_status. apply in_map_iff.
  exists (d, R). simpl. destruct (String.eqb d docId) eqn:E; [|auto].
  apply String.eqb_eq in E. contradiction.
Qed.

(** Reduce the projections of explicit worlds and the matches on the
    results of the steps already run. *)
Ltac world_simpl :=
  cbv beta iota zeta;
  cbn [reports messages log pendingReports assignedReports processingId
       currentCardIndex alerts fst snd].

(** The run of [handleApprove] on a stored report whose generated id is
    unique, with no transition in progress for it. *)
Lemma handleApprove_run (ses : Session) (w : World) (docId : string)
    (R : Report) :
  In (docId, R) (reports w) ->
  unique_ids (reports w) ->
  processingId w <> Some docId ->
  let m := notification ses R "Report Approved"
             ("Your report about " ++ Js.quote ++ category R
                ++ Js.quote ++ " has been approved.")
             approval (id R) in
  handleApprove ses (id R) docId w
  = (inl tt,
     mkWorld (update_status docId approved (reports w))
             (messages w ++ [m])
             (log w ++ [UpdateStatus docId approved; AddMessage m])
             (List.filter (not_doc docId) (pendingReports w))
             (assignedReports w) None 0
             (alerts w ++ [("Success", "Report approved successfully")])).
Proof.
  intros Hin Hu Hg m.
  destruct w as [rs ms lg pr ar pid idx al]. cbn [reports processingId] in *.
  unfold handleApprove, bind, gets. cbn [processingId].
  rewrite (bool_decide_eq_false_2 _ Hg).
  unfold setProcessingId, modify, try_catch_finally, bind, getDocs_by_id, gets.
  world_simpl.
  pose proof (filter_unique_key (fun d => id (snd d)) _ (docId, R) Hu Hin) as Hq.
  cbn [snd] in Hq. rewrite Hq.
  cbn [first_data ret snd]. unfold updateDoc_status. world_simpl.
  rewrite (has_doc_In _ _ _ Hin).
  unfold with_log, with_reports. world_simpl.
  unfold addDoc_message, modify, with_log, with_messages. world_simpl.
  unfold setPendingReports, modify. world_simpl.
  unfold setCurrentCardIndex, modify. world_simpl.
  unfold Alert_alert, modify. world_simpl.
  rewrite <- app_assoc. reflexivity.
Qed.

(** The run of [handleComplete] on a stored report, with no transition in
    progress for it. Neither [ses] nor the assignee of the report is
    consulted. *)
Lemma handleComplete_run (ses : Session) (w : World) (docId : string)
    (R : Report) :
  In (docId, R) (reports w) ->
  unique_docIds (reports w) ->
  processingId w <> Some docId ->
  let m := notification ses R "Report Completed"
             ("Your report about " ++ Js.quote ++ category R
                ++ Js.quote ++ " has been marked as completed.")
             general (id R) in
  handleComplete ses (id R) docId w
  = (inl tt,
     mkWorld (update_status docId completed (reports w))
             (messages w ++ [m])
             (log w ++ [UpdateStatus docId completed; AddMessage m])
             (pendingReports w)
             (List.filter (not_doc docId) (assignedReports w)) None
             (currentCardIndex w)
             (alerts w ++ [("Success", "Report marked as completed")])).
Proof.
  intros Hin Hu Hg m.
  destruct w as [rs ms lg pr ar pid idx al]. cbn [reports processingId] in *.
  unfold handleComplete, bind, gets. cbn [processingId].
  rewrite (bool_decide_eq_false_2 _ Hg).
  unfold setProcessingId, modify, try_catch_finally, bind, getDoc, gets.
  world_simpl.
  pose proof (filter_unique_key fst _ (docId, R) Hu Hin) as Hq.
  cbn [fst] in Hq. rewrite Hq.
  cbn [snd]. unfold bind, updateDoc_status. world_simpl.
  rewrite (has_doc_In _ _ _ Hin).
  unfold with_log, with_reports. world_simpl.
  unfold addDoc_message, modify, with_log, with_messages. world_simpl.
  unfold setAssignedReports, modify. world_simpl.
  unfold Alert_alert, modify. world_simpl.
  rewrite <- app_assoc. reflexivity.
Qed.

(** A handler entered while its own transition is in progress does nothing. *)
Lemma handleApprove_guarded (ses : Session) (w : World) (reportId docId : string) :
  processingId w = Some docId ->
  handleApprove ses reportId docId w = (inl tt, w).
Proof.
  intros H. unfold handleApprove, bind, gets.
  now rewrite bool_decide_eq_true_2.
Qed.

(** What the "My Assigned Reports" tab lists. *)
Lemma fetchAssignedReports_lists (ses : Session) (w : World) (uid : string)
    (doc : string * Report) :
  user ses = Some uid ->
  (In doc (assignedReports (exec (fetchAssignedReports ses) w)) <->
   In doc (reports w) /\ assigned (snd doc) = Some uid /\
   status (snd doc) = approved).
Proof.
  intros Hu. unfold fetchAssignedReports, exec. rewrite Hu.
  unfold bind, gets, setAssignedReports, modify.
  cbv beta iota zeta. cbn [snd assignedReports].
  rewrite filter_In, andb_true_iff, !bool_decide_eq_true. tauto.
Qed.

(** The expiry is the device clock moved two hours ahead on the local wall
    clock. *)
Lemma expiry_local (ses : Session) :
  expiry ses
  = Js.UTC (LocalTZA ses)
      (Js.LocalTime (LocalTZA ses) (clientNow ses) + 2 * 60 * 60 * 1000).
Proof.
  unfold expiry. cbv zeta. now rewrite Js.setHours_getHours.
Qed.

(** It is two hours after the device clock when the UTC offset of the
    device does not change in between. *)
Lemma expiry_same_offset (ses : Session) :
  same_offset ses -> expiry ses = clientNow ses + 2 * 60 * 60 * 1000.
Proof.
  intros H. rewrite expiry_local. unfold same_offset, two_hours in H.
  unfold Js.UTC. rewrite H. unfold Js.LocalTime. lia.
Qed.


Lemma update_status_sets (docId : string) (s : Status) docs (r : Report) :
  In (docId, r) (update_status docId s docs) -> status r = s.
Proof.
  unfold update_status. rewrite in_map_iff. intros ([d r0] & Heq & _).
  cbn [fst snd] in Heq. destruct (String.eqb d docId) eqn:E.
  - inversion Heq. reflexivity.
  - inversion Heq; subst. rewrite String.eqb_refl in E. discriminate.
Qed.



Lemma unique_docIds_inj (docs : list (string * Report)) (docId : string)
    (R R' : Report) :
  unique_docIds docs -> In (docId, R) docs -> In (docId, R') docs -> R = R'.
Proof.
  intros Hu Hin Hin'.
  pose proof (filter_unique_key fst docs (docId, R) Hu Hin) as H.
  assert (Hf : In (docId, R')
                 (List.filter (fun y => String.eqb (fst y) (fst (docId, R)))
                    docs)).
  { apply filter_In. split; [assumption|apply String.eqb_refl]. }
  rewrite H in Hf. destruct Hf as [Heq|[]]. now inversion Heq.
Qed.

(** C1, as the code has it. The Complete button is offered to an admin for
    the reports the "My Assigned Reports" tab listed: those assigned to the
    signed-in admin and in status approved when the tab was loaded. The
    handler itself consults neither the admin nor the assignee: run on any
    stored report with no transition in progress for it, it sets the status
    to completed and adds one message of type general for the owner. *)
Theorem complete_gated_by_assigned_tab (ses : Session) (w : World)
    (uid docId : string) (R : Report) :
  user ses = Some uid ->
  In (docId, R) (reports w) ->
  unique_docIds (reports w) ->
  processingId w <> Some docId ->
  (complete_offered ses (exec (fetchAssignedReports ses) w) docId <->
   isAdmin ses = true /\ assigned R = Some uid /\ status R = approved)
  /\
  exists m,
    In (docId, set_status completed R)
       (reports (exec (handleComplete ses (id R) docId) w)) /\
    (forall r, In (docId, r)
                  (reports (exec (handleComplete ses (id R) docId) w)) ->
               status r = completed) /\
    messages (exec (handleComplete ses (id R) docId) w)
    = (messages w ++ [m])%list /\
    msg_type m = general /\
    msg_userId m = userId R /\
    log (exec (handleComplete ses (id R) docId) w)
    = (log w ++ [UpdateStatus docId completed; AddMessage m])%list.
Proof.
  intros Huser Hin Hu Hg. split.
  - unfold complete_offered. rewrite in_map_iff. split.
    + intros (Hadm & [d r] & Hd & Hl). cbn [fst] in Hd. subst d.
      apply (fetchAssignedReports_lists ses w uid _ Huser) in Hl
        as (Hin' & Ha & Hs). cbn [snd] in Ha, Hs.
      now rewrite (unique_docIds_inj _ _ _ _ Hu Hin Hin').
    + intros (Hadm & Ha & Hs). split; [assumption|].
      exists (docId, R). split; [reflexivity|].
      now apply (fetchAssignedReports_lists ses w uid _ Huser).
  - unfold exec.
    rewrite (handleComplete_run ses w docId R Hin Hu Hg).
    cbn [snd reports messages log].
    eexists. split; [now apply update_status_In|].
    split; [intros r; apply update_status_sets|].
    repeat split.
Qed.

(** C1, as the specification states it, fails on the stale tab: the report
    is approved and assigned to admin A, admin B completes it from the card
    the tab still shows, and the attempt is not rejected: the status
    becomes completed and a message is created. *)
Lemma complete_by_other_admin_not_rejected :
  In ("doc1", approved_report "adminA") (reports stale_world) /\
  status (approved_report "adminA") = approved /\
  assigned (approved_report "adminA") = Some "adminA" /\
  user admin_B = Some "adminB" /\
  complete_offered admin_B stale_world "doc1" /\
  reports (exec (handleComplete admin_B "m30tslc0-lflr" "doc1") stale_world)
  = [("doc1", set_status completed (approved_report "adminA"))] /\
  length (messages
            (exec (handleComplete admin_B "m30tslc0-lflr" "doc1") stale_world))
  = 1%nat /\
  ~ completion_rejected admin_B stale_world "m30tslc0-lflr" "doc1".
Proof.
  repeat split; try (vm_compute; auto; fail).
  intros [H _]. vm_compute in H. discriminate.
Qed.

Definition pending_report : Report :=
  {| id := "m30tslc0-lflr";
     imageUrl := "https://blobs.example/reports/m30tslc0-lflr.jpg";
     category := "Pothole";
     description := "Deep pothole";
     addressLine1 := "1 O'Connell Street";
     addressLine2 := "";
     county := Some "Co. Dublin";
     eircode := "D01 F5P2";
     location := None;
     timestamp := 1730592000350;
     userId := "u1";
     status := pending;
     assigned := None;
     upvotes := None |}.





Lemma complete_gated_by_assigned_tab_witness :
  (complete_offered admin_B
     (exec (fetchAssignedReports admin_B) stale_world) "doc1" <->
   isAdmin admin_B = true /\
   assigned (approved_report "adminA") = Some "adminB" /\
   status (approved_report "adminA") = approved)
  /\
  exists m,
    In ("doc1", set_status completed (approved_report "adminA"))
       (reports (exec (handleComplete admin_B
                         (id (approved_report "adminA")) "doc1") stale_world)) /\
    (forall r,
        In ("doc1", r)
           (reports (exec (handleComplete admin_B
                             (id (approved_report "adminA")) "doc1")
                          stale_world)) ->
        status r = completed) /\
    messages (exec (handleComplete admin_B
                      (id (approved_report "adminA")) "doc1") stale_world)
    = (messages stale_world ++ [m])%list /\
    msg_type m = general /\
    msg_userId m = userId (approved_report "adminA") /\
    log (exec (handleComplete admin_B
                 (id (approved_report "adminA")) "doc1") stale_world)
    = (log stale_world ++ [UpdateStatus "doc1" completed; AddMessage m])%list.
Proof.
  apply (complete_gated_by_assigned_tab admin_B stale_world "adminB" "doc1"
           (approved_report "adminA")).
  - reflexivity.
  - simpl. auto.
  - unfold unique_docIds. simpl. constructor; [simpl; tauto|constructor].
  - simpl. discriminate.
Defined.

(** *** The three transitions, whatever the store holds *)

(** The three buttons of a dashboard card. *)
Inductive Action := Approve | Decline | Complete.

Definition handle (a : Action) : Session -> string -> string -> M unit :=
  match a with
  | Approve => handleApprove
  | Decline => handleDecline
  | Complete => handleComplete
  end.

(** The state after a handler's [catch] and [finally] blocks. *)
Definition failed (w : World) (message : string) : World :=
  mkWorld (reports w) (messages w) (log w) (pendingReports w)
          (assignedReports w) None (currentCardIndex w)
          (alerts w ++ [("Error", message)]).

Definition approval_message (ses : Session) (R : Report) (reportId : string)
  : Message :=
  notification ses R "Report Approved"
    ("Your report about " ++ Js.quote ++ category R ++ Js.quote
       ++ " has been approved.")
    approval reportId.

Definition decline_message (ses : Session) (R : Report) (reportId : string)
  : Message :=
  notification ses R "Report Declined"
    ("Your report about " ++ Js.quote ++ category R ++ Js.quote
       ++ " has been declined. Please review and submit again.")
    decline reportId.

Definition completion_message (ses : Session) (R : Report) (reportId : string)
  : Message :=
  notification ses R "Report Completed"
    ("Your report about " ++ Js.quote ++ category R ++ Js.quote
       ++ " has been marked as completed.")
    general reportId.

(** The lookup a handler starts with finds nothing to act on: no report
    with the generated id (approve, decline), no document to update
    (approve, complete). *)
Definition lookup_fails (a : Action) (reportId docId : string) (w : World)
  : bool :=
  let by_id :=
    List.filter (fun d => String.eqb (id (snd d)) reportId) (reports w) in
  match a with
  | Approve =>
      match by_id with
      | [] => true
      | _ :: _ => negb (has_doc docId (reports w))
      end
  | Decline => match by_id with [] => true | _ :: _ => false end
  | Complete => negb (has_doc docId (reports w))
  end.

Lemma handleApprove_result (ses : Session) (w : World)
    (reportId docId : string) :
  processingId w <> Some docId ->
  handleApprove ses reportId docId w
  = (inl tt,
     match List.filter (fun d => String.eqb (id (snd d)) reportId) (reports w)
     with
     | d :: _ =>
         if has_doc docId (reports w) then
           mkWorld (update_status docId approved (reports w))
                   (messages w ++ [approval_message ses (snd d) reportId])
                   (log w ++ [UpdateStatus docId approved;
                              AddMessage (approval_message ses (snd d) reportId)])
                   (List.filter (not_doc docId) (pendingReports w))
                   (assignedReports w) None 0
                   (alerts w ++ [("Success", "Report approved successfully")])
         else failed w "Failed to approve report"
     | [] => failed w "Failed to approve report"
     end).
Proof.
  intros Hg.
  destruct w as [rs ms lg pr ar pid idx al]. cbn [reports processingId] in *.
  unfold handleApprove, bind, gets. cbn [processingId].
  rewrite (bool_decide_eq_false_2 _ Hg).
  unfold setProcessingId, modify, try_catch_finally, bind, getDocs_by_id, gets,
    failed.
  world_simpl.
  destruct (List.filter _ rs) as [|d rest].
  - cbn [first_data throw]. unfold Alert_alert, modify. world_simpl.
    reflexivity.
  - cbn [first_data ret snd]. unfold updateDoc_status. world_simpl.
    destruct (has_doc docId rs).
    + unfold with_log, with_reports. world_simpl.
      unfold addDoc_message, modify, with_log, with_messages. world_simpl.
      unfold setPendingReports, modify. world_simpl.
      unfold setCurrentCardIndex, modify. world_simpl.
      unfold Alert_alert, modify. world_simpl.
      rewrite <- app_assoc. reflexivity.
    + unfold Alert_alert, modify. world_simpl. reflexivity.
Qed.

Lemma handleDecline_result (ses : Session) (w : World)
    (reportId docId : string) :
  processingId w <> Some docId ->
  handleDecline ses reportId docId w
  = (inl tt,
     match List.filter (fun d => String.eqb (id (snd d)) reportId) (reports w)
     with
     | d :: _ =>
         mkWorld (List.filter (not_doc docId) (reports w))
                 (messages w ++ [decline_message ses (snd d) reportId])
                 (log w ++ [DeleteReport docId;
                            AddMessage (decline_message ses (snd d) reportId)])
                 (List.filter (not_doc docId) (pendingReports w))
                 (assignedReports w) None 0
                 (alerts w ++ [("Success", "Report declined and deleted")])
     | [] => failed w "Failed to decline report"
     end).
Proof.
  intros Hg.
  destruct w as [rs ms lg pr ar pid idx al]. cbn [reports processingId] in *.
  unfold handleDecline, bind, gets. cbn [processingId].
  rewrite (bool_decide_eq_false_2 _ Hg).
  unfold setProcessingId, modify, try_catch_finally, bind, getDocs_by_id, gets,
    failed.
  world_simpl.
  destruct (List.filter _ rs) as [|d rest].
  - cbn [first_data throw]. unfold Alert_alert, modify. world_simpl.
    reflexivity.
  - cbn [first_data ret snd]. unfold deleteDoc, modify. world_simpl.
    unfold with_log, with_reports. world_simpl.
    unfold addDoc_message, modify, with_log, with_messages. world_simpl.
    unfold setPendingReports, modify. world_simpl.
    unfold setCurrentCardIndex, modify. world_simpl.
    unfold Alert_alert, modify. world_simpl.
    rewrite <- app_assoc. reflexivity.
Qed.

Lemma has_doc_filter (docId : string) (docs : list (string * Report)) :
  has_doc docId docs
  = match List.filter (fun d => String.eqb (fst d) docId) docs with
    | [] => false
    | _ :: _ => true
    end.
Proof.
  unfold has_doc. induction docs as [|d docs IH]; [reflexivity|].
  simpl. destruct (String.eqb (fst d) docId); [reflexivity|exact IH].
Qed.

Lemma handleComplete_result (ses : Session) (w : World)
    (reportId docId : string) :
  processingId w <> Some docId ->
  handleComplete ses reportId docId w
  = (inl tt,
     match List.filter (fun d => String.eqb (fst d) docId) (reports w) with
     | d :: _ =>
         mkWorld (update_status docId completed (reports w))
                 (messages w ++ [completion_message ses (snd d) reportId])
                 (log w ++ [UpdateStatus docId completed;
                            AddMessage
                              (completion_message ses (snd d) reportId)])
                 (pendingReports w)
                 (List.filter (not_doc docId) (assignedReports w)) None
                 (currentCardIndex w)
                 (alerts w ++ [("Success", "Report marked as completed")])
     | [] => failed w "Failed to complete report"
     end).
Proof.
  intros Hg.
  destruct w as [rs ms lg pr ar pid idx al]. cbn [reports processingId] in *.
  unfold handleComplete, bind, gets. cbn [processingId].
  rewrite (bool_decide_eq_false_2 _ Hg).
  unfold setProcessingId, modify, try_catch_finally, bind, getDoc, gets,
    failed.
  world_simpl.
  pose proof (has_doc_filter docId rs) as Hhas.
  destruct (List.filter _ rs) as [|d rest].
  - cbn [throw]. unfold throw, Alert_alert, modify. world_simpl. reflexivity.
  - unfold bind, updateDoc_status. world_simpl. rewrite Hhas.
    unfold with_log, with_reports. world_simpl.
    unfold addDoc_message, modify, with_log, with_messages. world_simpl.
    unfold setAssignedReports, modify. world_simpl.
    unfold Alert_alert, modify. world_simpl.
    rewrite <- app_assoc. reflexivity.
Qed.

Lemma handle_guarded (a : Action) (ses : Session) (w : World)
    (reportId docId : string) :
  processingId w = Some docId ->
  handle a ses reportId docId w = (inl tt, w).
Proof.
  intros H.
  destruct a; cbn [handle];
    unfold handleApprove, handleDecline, handleComplete, bind, gets;
    now rewrite bool_decide_eq_true_2.
Qed.

Lemma filter_not_doc (docId : string) (docs : list (string * Report))
    (d : string) (r : Report) :
  In (d, r) (List.filter (not_doc docId) docs) <-> In (d, r) docs /\ d <> docId.
Proof.
  rewrite filter_In. unfold not_doc. cbn [fst].
  rewrite negb_true_iff. split; intros [H1 H2]; split; auto.
  - intros ->. rewrite String.eqb_refl in H2. discriminate.
  - now apply String.eqb_neq.
Qed.

Lemma update_status_other_iff (docId d : string) (s : Status) (R : Report)
    docs :
  d <> docId -> (In (d, R) (update_status docId s docs) <-> In (d, R) docs).
Proof.
  intros Hne. split; [|now apply update_status_other].
  unfold update_status. rewrite in_map_iff. intros ([d0 r0] & Heq & Hin).
  cbn [fst snd] in Heq. destruct (String.eqb d0 docId) eqn:E.
  - apply String.eqb_eq in E. inversion Heq. congruence.
  - now inversion Heq; subst.
Qed.

Lemma update_status_origin (docId : string) (s : Status) (r' : Report) docs :
  In (docId, r') (update_status docId s docs) ->
  exists r, In (docId, r) docs /\ r' = set_status s r.
Proof.
  unfold update_status. rewrite in_map_iff. intros ([d0 r0] & Heq & Hin).
  cbn [fst snd] in Heq. destruct (String.eqb d0 docId) eqn:E.
  - inversion Heq; subst. eauto.
  - inversion Heq; subst. rewrite String.eqb_refl in E. discriminate.
Qed.

Lemma set_status_same (r : Report) : set_status (status r) r = r.
Proof. now destruct r. Qed.

Lemma update_status_docIds (docId : string) (s : Status) docs :
  map fst (update_status docId s docs) = map fst docs.
Proof.
  unfold update_status. rewrite map_map. apply map_ext.
  intros d. now destruct (String.eqb (fst d) docId).
Qed.

Lemma update_status_ids (docId : string) (s : Status) docs :
  map (fun d => id (snd d)) (update_status docId s docs)
  = map (fun d => id (snd d)) docs.
Proof.
  unfold update_status. rewrite map_map. apply map_ext.
  intros d. now destruct (String.eqb (fst d) docId).
Qed.

(** X8. Declining a stored report (generated ids unique, no transition in
    progress for it, the store accepting the two writes) deletes its
    document and nothing else, and then adds
    exactly one message: of type decline, addressed to the report's owner,
    expiring at the reading of the device clock moved two hours ahead on
    the local wall clock, which is 7 200 000 ms later when the UTC offset
    of the device is the same at both moments. The card leaves the pending
    list. The log shows the deletion before the message. *)
Theorem decline_deletes_then_notifies (ses : Session) (w : World)
    (docId : string) (R : Report) :
  In (docId, R) (reports w) ->
  unique_ids (reports w) ->
  processingId w <> Some docId ->
  exists m,
    (forall d r, In (d, r) (reports (exec (handleDecline ses (id R) docId) w))
                 <-> In (d, r) (reports w) /\ d <> docId) /\
    messages (exec (handleDecline ses (id R) docId) w)
    = (messages w ++ [m])%list /\
    msg_type m = decline /\
    msg_userId m = userId R /\
    msg_reportId m = id R /\
    msg_read m = false /\
    msg_expiresAt m
    = Js.UTC (LocalTZA ses)
        (Js.LocalTime (LocalTZA ses) (clientNow ses) + 2 * 60 * 60 * 1000) /\
    (same_offset ses -> msg_expiresAt m = clientNow ses + 2 * 60 * 60 * 1000) /\
    log (exec (handleDecline ses (id R) docId) w)
    = (log w ++ [DeleteReport docId; AddMessage m])%list /\
    (forall d r,
        In (d, r) (pendingReports (exec (handleDecline ses (id R) docId) w))
        <-> In (d, r) (pendingReports w) /\ d <> docId) /\
    processingId (exec (handleDecline ses (id R) docId) w) = None.
Proof.
  intros Hin Hu Hg. unfold exec.
  rewrite (handleDecline_result ses w (id R) docId Hg).
  pose proof (filter_unique_key (fun d => id (snd d)) _ (docId, R) Hu Hin) as Hq.
  cbn [snd] in Hq. rewrite Hq. world_simpl.
  eexists. split; [intros d r; apply filter_not_doc|].
  split; [reflexivity|].
  cbn [decline_message notification msg_type msg_userId msg_reportId
       msg_read msg_expiresAt].
  repeat (split; [reflexivity|]).
  split; [apply expiry_local|].
  split; [apply expiry_same_offset|].
  split; [reflexivity|].
  split; [intros d r; apply filter_not_doc|reflexivity].
Qed.

Lemma decline_deletes_then_notifies_witness :
  exists m,
    (forall d r,
        In (d, r)
           (reports (exec (handleDecline admin_B (id pending_report) "doc1")
                          (initial_world [("doc1", pending_report)])))
        <-> In (d, r) (reports (initial_world [("doc1", pending_report)]))
            /\ d <> "doc1") /\
    messages (exec (handleDecline admin_B (id pending_report) "doc1")
                   (initial_world [("doc1", pending_report)]))
    = (messages (initial_world [("doc1", pending_report)]) ++ [m])%list /\
    msg_type m = decline /\
    msg_userId m = userId pending_report /\
    msg_reportId m = id pending_report /\
    msg_read m = false /\
    msg_expiresAt m
    = Js.UTC (LocalTZA admin_B)
        (Js.LocalTime (LocalTZA admin_B) (clientNow admin_B)
         + 2 * 60 * 60 * 1000) /\
    (same_offset admin_B ->
     msg_expiresAt m = clientNow admin_B + 2 * 60 * 60 * 1000) /\
    log (exec (handleDecline admin_B (id pending_report) "doc1")
              (initial_world [("doc1", pending_report)]))
    = (log (initial_world [("doc1", pending_report)])
         ++ [DeleteReport "doc1"; AddMessage m])%list /\
    (forall d r,
        In (d, r)
           (pendingReports
              (exec (handleDecline admin_B (id pending_report) "doc1")
                    (initial_world [("doc1", pending_report)])))
        <-> In (d, r) (pendingReports (initial_world [("doc1", pending_report)]))
            /\ d <> "doc1") /\
    processingId (exec (handleDecline admin_B (id pending_report) "doc1")
                       (initial_world [("doc1", pending_report)])) = None.
Proof.
  apply (decline_deletes_then_notifies admin_B
           (initial_world [("doc1", pending_report)]) "doc1" pending_report).
  - simpl. auto.
  - unfold unique_ids. simpl. constructor; [simpl; tauto|constructor].
  - simpl. discriminate.
Defined.

(** *** A store that may refuse

    Every awaited call of a handler can reject: the query or the read, the
    update, the deletion, the creation of the message. [Store] says what
    the store does with each of them; [accepting] refuses nothing, and the
    handlers above are the handlers below over it. *)

Record Store := mkStore {
  read_rejects : option Js.Error;
  write_rejects : Write -> option Js.Error
}.

Definition accepting : Store := mkStore None (fun _ => None).

Module Fallible.

Definition getDocs_by_id (store : Store) (reportId : string)
  : M (list (string * Report)) :=
  match read_rejects store with
  | Some e => throw e
  | None => AdminDashboard.getDocs_by_id reportId
  end.

Definition getDoc (store : Store) (docId : string) : M (option Report) :=
  match read_rejects store with
  | Some e => throw e
  | None => AdminDashboard.getDoc docId
  end.

Definition updateDoc_status (store : Store) (docId : string) (s : Status)
  : M unit :=
  match write_rejects store (UpdateStatus docId s) with
  | Some e => throw e
  | None => AdminDashboard.updateDoc_status docId s
  end.

Definition deleteDoc (store : Store) (docId : string) : M unit :=
  match write_rejects store (DeleteReport docId) with
  | Some e => throw e
  | None => AdminDashboard.deleteDoc docId
  end.

Definition addDoc_message (store : Store) (m : Message) : M unit :=
  match write_rejects store (AddMessage m) with
  | Some e => throw e
  | None => AdminDashboard.addDoc_message m
  end.

Local Open Scope handler_scope.

Definition handleApprove (store : Store) (ses : Session)
    (reportId docId : string) : M unit :=
  current <- gets processingId ;;
  if bool_decide (current = Some docId) then ret tt
  else
    setProcessingId (Some docId) ;;
    try_catch_finally
      (reportDoc <- getDocs_by_id store reportId ;;
       reportData <- first_data reportDoc ;;
       updateDoc_status store docId approved ;;
       addDoc_message store (approval_message ses reportData reportId) ;;
       setPendingReports (List.filter (not_doc docId)) ;;
       setCurrentCardIndex 0 ;;
       Alert_alert "Success" "Report approved successfully")
      (fun _ => Alert_alert "Error" "Failed to approve report")
      (setProcessingId None).

Definition handleDecline (store : Store) (ses : Session)
    (reportId docId : string) : M unit :=
  current <- gets processingId ;;
  if bool_decide (current = Some docId) then ret tt
  else
    setProcessingId (Some docId) ;;
    try_catch_finally
      (reportDoc <- getDocs_by_id store reportId ;;
       reportData <- first_data reportDoc ;;
       deleteDoc store docId ;;
       addDoc_message store (decline_message ses reportData reportId) ;;
       setPendingReports (List.filter (not_doc docId)) ;;
       setCurrentCardIndex 0 ;;
       Alert_alert "Success" "Report declined and deleted")
      (fun _ => Alert_alert "Error" "Failed to decline report")
      (setProcessingId None).

Definition handleComplete (store : Store) (ses : Session)
    (reportId docId : string) : M unit :=
  current <- gets processingId ;;
  if bool_decide (current = Some docId) then ret tt
  else
    setProcessingId (Some docId) ;;
    try_catch_finally
      (reportDoc <- getDoc store docId ;;
       match reportDoc with
       | None => throw (Js.new_Error "Report not found")
       | Some reportData =>
           updateDoc_status store docId completed ;;
           addDoc_message store (completion_message ses reportData reportId) ;;
           setAssignedReports (List.filter (not_doc docId)) ;;
           Alert_alert "Success" "Report marked as completed"
       end)
      (fun _ => Alert_alert "Error" "Failed to complete report")
      (setProcessingId None).

Definition handle (store : Store) (a : Action)
  : Session -> string -> string -> M unit :=
  match a with
  | Approve => handleApprove store
  | Decline => handleDecline store
  | Complete => handleComplete store
  end.

End Fallible.

(** Over a store that refuses nothing the handlers are the ones above. *)
Lemma handle_accepting (a : Action) (ses : Session)
    (reportId docId : string) (w : World) :
  Fallible.handle accepting a ses reportId docId w
  = handle a ses reportId docId w.
Proof. destruct a; reflexivity. Qed.

(** The first write of a handler. *)
Definition first_write (a : Action) (docId : string) : Write :=
  match a with
  | Approve => UpdateStatus docId approved
  | Decline => DeleteReport docId
  | Complete => UpdateStatus docId completed
  end.

(** The collection after the first write of a handler. *)
Definition after_first_write (a : Action) (docId : string)
    (docs : list (string * Report)) : list (string * Report) :=
  match a with
  | Approve => update_status docId approved docs
  | Decline => List.filter (not_doc docId) docs
  | Complete => update_status docId completed docs
  end.

(** The report a handler reads the owner and the category from: the
    first report with the generated id (approve, decline), the document
    itself (complete). *)
Definition report_read (a : Action) (reportId docId : string) (w : World)
  : option Report :=
  match a with
  | Approve | Decline =>
      match List.filter (fun d => String.eqb (id (snd d)) reportId)
                        (reports w) with
      | d :: _ => Some (snd d)
      | [] => None
      end
  | Complete =>
      match List.filter (fun d => String.eqb (fst d) docId) (reports w) with
      | d :: _ => Some (snd d)
      | [] => None
      end
  end.

Definition composed (a : Action) (ses : Session) (R : Report)
    (reportId : string) : Message :=
  match a with
  | Approve => approval_message ses R reportId
  | Decline => decline_message ses R reportId
  | Complete => completion_message ses R reportId
  end.

Definition failure_message (a : Action) : string :=
  match a with
  | Approve => "Failed to approve report"
  | Decline => "Failed to decline report"
  | Complete => "Failed to complete report"
  end.

(** The state after the first write was committed and the creation of the
    message was refused: the [catch] and [finally] blocks have run, the
    lists of the dashboard are as they were. *)
Definition half_done (a : Action) (docId : string) (w : World) : World :=
  mkWorld (after_first_write a docId (reports w)) (messages w)
          (log w ++ [first_write a docId]) (pendingReports w)
          (assignedReports w) None (currentCardIndex w)
          (alerts w ++ [("Error", failure_message a)]).

(** The state after both writes. *)
Definition done (a : Action) (ses : Session) (R : Report)
    (reportId docId : string) (w : World) : World :=
  mkWorld (after_first_write a docId (reports w))
          (messages w ++ [composed a ses R reportId])
          (log w ++ [first_write a docId;
                     AddMessage (composed a ses R reportId)])
          (match a with
           | Approve | Decline => List.filter (not_doc docId) (pendingReports w)
           | Complete => pendingReports w
           end)
          (match a with
           | Approve | Decline => assignedReports w
           | Complete => List.filter (not_doc docId) (assignedReports w)
           end)
          None
          (match a with
           | Approve | Decline => 0
           | Complete => currentCardIndex w
           end)
          (alerts w ++ [("Success",
                         match a with
                         | Approve => "Report approved successfully"
                         | Decline => "Report declined and deleted"
                         | Complete => "Report marked as completed"
                         end)]).

(** The run of a handler over any store, when no transition is in progress
    for the document. *)
Lemma handle_result (store : Store) (a : Action) (ses : Session) (w : World)
    (reportId docId : string) :
  processingId w <> Some docId ->
  Fallible.handle store a ses reportId docId w
  = (inl tt,
     match read_rejects store with
     | Some _ => failed w (failure_message a)
     | None =>
         match report_read a reportId docId w with
         | None => failed w (failure_message a)
         | Some R =>
             if lookup_fails a reportId docId w
             then failed w (failure_message a)
             else
               match write_rejects store (first_write a docId) with
               | Some _ => failed w (failure_message a)
               | None =>
                   match write_rejects store
                           (AddMessage (composed a ses R reportId)) with
                   | Some _ => half_done a docId w
                   | None => done a ses R reportId docId w
                   end
               end
         end
     end).
Proof.
  intros Hg.
  destruct w as [rs ms lg pr ar pid idx al]. cbn [reports processingId] in *.
  destruct a; cbn [Fallible.handle failure_message first_write report_read
                   lookup_fails composed]; cbv zeta.
  - unfold Fallible.handleApprove, bind, gets. cbn [processingId].
    rewrite (bool_decide_eq_false_2 _ Hg).
    unfold setProcessingId, modify, try_catch_finally, bind,
      Fallible.getDocs_by_id, failed, half_done, done.
    world_simpl.
    destruct (read_rejects store) as [e|].
    { unfold throw, Alert_alert, modify. world_simpl. reflexivity. }
    unfold getDocs_by_id, gets. world_simpl.
    destruct (List.filter _ rs) as [|d rest].
    { cbn [first_data throw]. unfold throw, Alert_alert, modify. world_simpl.
      reflexivity. }
    cbn [first_data ret snd]. unfold ret, Fallible.updateDoc_status.
    world_simpl.
    destruct (has_doc docId rs) eqn:Hdoc; cbn [negb].
    2:{ destruct (write_rejects store (UpdateStatus docId approved)).
        - unfold throw, Alert_alert, modify. world_simpl. reflexivity.
        - unfold updateDoc_status. world_simpl. rewrite Hdoc.
          unfold Alert_alert, modify. world_simpl. reflexivity. }
    destruct (write_rejects store (UpdateStatus docId approved)).
    { unfold throw, Alert_alert, modify. world_simpl. reflexivity. }
    unfold updateDoc_status. world_simpl. rewrite Hdoc.
    unfold with_log, with_reports. world_simpl.
    unfold Fallible.addDoc_message.
    destruct (write_rejects store
                (AddMessage (approval_message ses (snd d) reportId))).
    { unfold throw, Alert_alert, modify. world_simpl.
      cbn [after_first_write first_write failure_message]. reflexivity. }
    unfold addDoc_message, modify, with_log, with_messages. world_simpl.
    unfold setPendingReports, modify. world_simpl.
    unfold setCurrentCardIndex, modify. world_simpl.
    unfold Alert_alert, modify. world_simpl.
    cbn [after_first_write first_write composed].
    rewrite <- app_assoc. reflexivity.
  - unfold Fallible.handleDecline, bind, gets. cbn [processingId].
    rewrite (bool_decide_eq_false_2 _ Hg).
    unfold setProcessingId, modify, try_catch_finally, bind,
      Fallible.getDocs_by_id, failed, half_done, done.
    world_simpl.
    destruct (read_rejects store) as [e|].
    { unfold throw, Alert_alert, modify. world_simpl. reflexivity. }
    unfold getDocs_by_id, gets. world_simpl.
    destruct (List.filter _ rs) as [|d rest].
    { cbn [first_data throw]. unfold throw, Alert_alert, modify. world_simpl.
      reflexivity. }
    cbn [first_data ret snd]. unfold ret, Fallible.deleteDoc.
    world_simpl.
    destruct (write_rejects store (DeleteReport docId)).
    { unfold throw, Alert_alert, modify. world_simpl. reflexivity. }
    unfold deleteDoc, modify, with_log, with_reports. world_simpl.
    unfold Fallible.addDoc_message.
    destruct (write_rejects store
                (AddMessage (decline_message ses (snd d) reportId))).
    { unfold throw, Alert_alert, modify. world_simpl.
      cbn [after_first_write first_write failure_message]. reflexivity. }
    unfold addDoc_message, modify, with_log, with_messages. world_simpl.
    unfold setPendingReports, modify. world_simpl.
    unfold setCurrentCardIndex, modify. world_simpl.
    unfold Alert_alert, modify. world_simpl.
    cbn [after_first_write first_write composed].
    rewrite <- app_assoc. reflexivity.
  - unfold Fallible.handleComplete, bind, gets. cbn [processingId].
    rewrite (bool_decide_eq_false_2 _ Hg).
    unfold setProcessingId, modify, try_catch_finally, bind,
      Fallible.getDoc, failed, half_done, done.
    world_simpl.
    destruct (read_rejects store) as [e|].
    { unfold throw, Alert_alert, modify. world_simpl. reflexivity. }
    unfold getDoc, gets. world_simpl.
    pose proof (has_doc_filter docId rs) as Hhas.
    destruct (List.filter _ rs) as [|d rest].
    { unfold throw, Alert_alert, modify. world_simpl. reflexivity. }
    rewrite Hhas. cbn [negb]. unfold bind, Fallible.updateDoc_status.
    destruct (write_rejects store (UpdateStatus docId completed)).
    { unfold throw, Alert_alert, modify. world_simpl. reflexivity. }
    unfold updateDoc_status. world_simpl. rewrite Hhas.
    unfold with_log, with_reports. world_simpl.
    unfold Fallible.addDoc_message.
    destruct (write_rejects store
                (AddMessage (completion_message ses (snd d) reportId))).
    { unfold throw, Alert_alert, modify. world_simpl.
      cbn [after_first_write first_write failure_message]. reflexivity. }
    unfold addDoc_message, modify, with_log, with_messages. world_simpl.
    unfold setAssignedReports, modify. world_simpl.
    unfold Alert_alert, modify. world_simpl.
    cbn [after_first_write first_write composed].
    rewrite <- app_assoc. reflexivity.
Qed.

(** X9. Each of the three handlers, over any store (one that may refuse
    the read and any of the writes), on any collection and for any
    arguments, either does nothing at all (its own transition is in
    progress) or releases the guard and ends in exactly one of three ways.
    Nothing written: the read was refused, the lookup found nothing to act
    on, or the first write was refused; both lists are as they were and
    one "Error" alert is raised. Half done: the first write (the status,
    or the deletion) was committed and the creation of the message was
    refused; the store keeps the first write, no message exists, the card
    stays in its list and one "Error" alert is raised. Done: both writes
    were committed, the second being the one new message for the report id
    given, and one "Success" alert is raised. Declining needs no document
    to delete, only the report found by its generated id. *)
Theorem handlers_all_or_nothing (store : Store) (a : Action) (ses : Session)
    (w : World) (reportId docId : string) :
  let w' := exec (Fallible.handle store a ses reportId docId) w in
  (processingId w = Some docId /\ w' = w) \/
  (processingId w <> Some docId /\ processingId w' = None /\
   (((is_Some (read_rejects store) \/
      lookup_fails a reportId docId w = true \/
      is_Some (write_rejects store (first_write a docId))) /\
     reports w' = reports w /\ messages w' = messages w /\ log w' = log w /\
     pendingReports w' = pendingReports w /\
     assignedReports w' = assignedReports w /\
     alerts w' = (alerts w ++ [("Error", failure_message a)])%list) \/
    (exists R,
       read_rejects store = None /\
       lookup_fails a reportId docId w = false /\
       report_read a reportId docId w = Some R /\
       write_rejects store (first_write a docId) = None /\
       is_Some (write_rejects store (AddMessage (composed a ses R reportId))) /\
       reports w' = after_first_write a docId (reports w) /\
       messages w' = messages w /\
       log w' = (log w ++ [first_write a docId])%list /\
       pendingReports w' = pendingReports w /\
       assignedReports w' = assignedReports w /\
       alerts w' = (alerts w ++ [("Error", failure_message a)])%list) \/
    (exists R m message,
       read_rejects store = None /\
       lookup_fails a reportId docId w = false /\
       report_read a reportId docId w = Some R /\
       m = composed a ses R reportId /\
       write_rejects store (first_write a docId) = None /\
       write_rejects store (AddMessage m) = None /\
       reports w' = after_first_write a docId (reports w) /\
       messages w' = (messages w ++ [m])%list /\
       msg_reportId m = reportId /\
       msg_userId m = userId R /\
       log w' = (log w ++ [first_write a docId; AddMessage m])%list /\
       alerts w' = (alerts w ++ [("Success", message)])%list))).
Proof.
  intros w'. subst w'. unfold exec.
  destruct (decide (processingId w = Some docId)) as [Hg|Hg].
  - left. split; [assumption|].
    destruct a; cbn [Fallible.handle];
      unfold Fallible.handleApprove, Fallible.handleDecline,
        Fallible.handleComplete, bind, gets;
      now rewrite bool_decide_eq_true_2.
  - right. split; [assumption|].
    rewrite (handle_result store a ses w reportId docId Hg). cbn [snd].
    destruct (read_rejects store) as [e|] eqn:Hread.
    { unfold failed. world_simpl. split; [reflexivity|]. left.
      split; [left; eauto|]. repeat split. }
    destruct (lookup_fails a reportId docId w) eqn:Hlook.
    { assert (E : match report_read a reportId docId w with
                  | Some _ => failed w (failure_message a)
                  | None => failed w (failure_message a)
                  end = failed w (failure_message a))
        by now destruct (report_read a reportId docId w).
      rewrite E. unfold failed. world_simpl. split; [reflexivity|]. left.
      split; [right; left; reflexivity|]. repeat split. }
    destruct (report_read a reportId docId w) as [R|] eqn:Hrep.
    2:{ unfold failed. world_simpl. split; [reflexivity|]. left.
        split; [|repeat split]. exfalso.
        destruct a; cbn [report_read lookup_fails] in Hrep, Hlook;
          cbv zeta in Hlook.
        - destruct (List.filter _ (reports w)); discriminate.
        - destruct (List.filter _ (reports w)); discriminate.
        - rewrite has_doc_filter in Hlook.
          destruct (List.filter _ (reports w)); discriminate. }
    destruct (write_rejects store (first_write a docId)) as [e|] eqn:Hw1.
    { unfold failed. world_simpl. split; [reflexivity|]. left.
      split; [right; right; eauto|]. repeat split. }
    destruct (write_rejects store (AddMessage (composed a ses R reportId)))
      as [e|] eqn:Hw2.
    + unfold half_done. world_simpl. split; [reflexivity|]. right. left.
      exists R. rewrite Hw2. repeat split; eauto.
    + unfold done. world_simpl. split; [reflexivity|]. right. right.
      exists R. eexists. eexists. repeat split; eauto;
        destruct a; reflexivity.
Qed.

(** X10. No handler touches a document other than the one it is given:
    every other document is stored afterwards exactly as before, and none
    appears. A document stored under [docId] afterwards is one that was
    stored before, with at most its status changed: the assignee, the
    owner and the upvote counter are never written. *)
Theorem handlers_touch_only_docId (a : Action) (ses : Session) (w : World)
    (reportId docId : string) :
  let w' := exec (handle a ses reportId docId) w in
  (forall d r, d <> docId -> (In (d, r) (reports w') <-> In (d, r) (reports w)))
  /\
  (forall r', In (docId, r') (reports w') ->
     exists r, In (docId, r) (reports w) /\ r' = set_status (status r') r).
Proof.
  intros w'. subst w'. unfold exec.
  assert (Hsame : forall r', In (docId, r') (reports w) ->
            exists r, In (docId, r) (reports w) /\ r' = set_status (status r') r).
  { intros r' H. exists r'. now rewrite set_status_same. }
  assert (Hupd : forall s r', In (docId, r') (update_status docId s (reports w)) ->
            exists r, In (docId, r) (reports w) /\ r' = set_status (status r') r).
  { intros s r' H. destruct (update_status_origin _ _ _ _ H) as (r & Hin & ->).
    exists r. split; [assumption|]. now destruct r. }
  destruct (decide (processingId w = Some docId)) as [Hg|Hg].
  - rewrite handle_guarded by assumption. cbn [snd]. split; [tauto|exact Hsame].
  - destruct a; cbn [handle].
    + rewrite (handleApprove_result ses w reportId docId Hg). cbn [snd].
      destruct (List.filter _ (reports w)) as [|d0 rest];
        [unfold failed; world_simpl; split; [tauto|exact Hsame]|].
      destruct (has_doc docId (reports w));
        [|unfold failed; world_simpl; split; [tauto|exact Hsame]].
      world_simpl. split; [|apply Hupd].
      intros d r Hne. now apply update_status_other_iff.
    + rewrite (handleDecline_result ses w reportId docId Hg). cbn [snd].
      destruct (List.filter _ (reports w)) as [|d0 rest];
        [unfold failed; world_simpl; split; [tauto|exact Hsame]|].
      world_simpl. split.
      * intros d r Hne. rewrite filter_not_doc. tauto.
      * intros r' H. apply filter_not_doc in H as [_ H]. contradiction.
    + rewrite (handleComplete_result ses w reportId docId Hg). cbn [snd].
      destruct (List.filter _ (reports w)) as [|d0 rest];
        [unfold failed; world_simpl; split; [tauto|exact Hsame]|].
      world_simpl. split; [|apply Hupd].
      intros d r Hne. now apply update_status_other_iff.
Qed.

(** *** Sequences of transitions *)

Lemma fetchPendingReports_result (w : World) :
  fetchPendingReports w
  = (inl tt,
     mkWorld (reports w) (messages w) (log w)
             (List.filter (fun d => bool_decide (status (snd d) = pending))
                          (reports w))
             (assignedReports w) (processingId w) (currentCardIndex w)
             (alerts w)).
Proof. reflexivity. Qed.

Lemma fetchAssignedReports_result (ses : Session) (w : World) (uid : string) :
  user ses = Some uid ->
  fetchAssignedReports ses w
  = (inl tt,
     mkWorld (reports w) (messages w) (log w) (pendingReports w)
             (List.filter
                (fun d => bool_decide (assigned (snd d) = Some uid)
                          && bool_decide (status (snd d) = approved))
                (reports w))
             (processingId w) (currentCardIndex w) (alerts w)).
Proof. intros H. unfold fetchAssignedReports. now rewrite H. Qed.

Lemma not_listed_after_removal (docId : string) (docs : list (string * Report)) :
  ~ In docId (map fst (List.filter (not_doc docId) docs)).
Proof.
  rewrite in_map_iff. intros ([d r] & Hd & Hin). cbn [fst] in Hd. subst d.
  apply filter_not_doc in Hin as [_ Hne]. contradiction.
Qed.

Lemma not_listed_by_status (docId : string) (s : Status)
    (p : string * Report -> bool) (docs : list (string * Report)) :
  (forall d, p d = true -> status (snd d) <> s) ->
  ~ In docId (map fst (List.filter p (update_status docId s docs))).
Proof.
  intros Hp. rewrite in_map_iff. intros ([d r] & Hd & Hin).
  cbn [fst] in Hd. subst d. apply filter_In in Hin as [Hin Hpd].
  apply (Hp _ Hpd). cbn [snd]. now apply update_status_sets in Hin.
Qed.

Lemma filter_filter_nil {A} (p q : A -> bool) (l : list A) :
  (forall x, In x l -> p x = true -> q x = false) ->
  List.filter p (List.filter q l) = [].
Proof.
  intros H. induction l as [|x l IH]; [reflexivity|].
  simpl. destruct (q x) eqn:Eq.
  - simpl. destruct (p x) eqn:Ep.
    + rewrite (H x (or_introl eq_refl) Ep) in Eq. discriminate.
    + apply IH. intros y Hy. apply H. now right.
  - apply IH. intros y Hy. apply H. now right.
Qed.

(** X11. The life of a report on the dashboard. A stored pending report
    (generated ids and storage ids unique) that is assigned to the
    signed-in admin is listed by the pending tab; approving it removes the
    card from that tab; reloading the assigned tab then lists it;
    completing it removes it from that tab and leaves it stored with status
    completed and every other field as submitted. The store has received
    four writes in this order: status approved, the approval message, status
    completed, the completion message, both messages addressed to the owner.
    Reloading either tab afterwards lists the report no more. *)
Theorem approve_then_complete (ses : Session) (w : World)
    (uid docId : string) (R : Report) :
  user ses = Some uid ->
  In (docId, R) (reports w) ->
  status R = pending ->
  assigned R = Some uid ->
  unique_ids (reports w) ->
  unique_docIds (reports w) ->
  processingId w <> Some docId ->
  let w1 := exec fetchPendingReports w in
  let w2 := exec (handleApprove ses (id R) docId) w1 in
  let w3 := exec (fetchAssignedReports ses) w2 in
  let w4 := exec (handleComplete ses (id R) docId) w3 in
  In (docId, R) (pendingReports w1) /\
  ~ In docId (map fst (pendingReports w2)) /\
  In (docId, set_status approved R) (assignedReports w3) /\
  ~ In docId (map fst (assignedReports w4)) /\
  In (docId, set_status completed R) (reports w4) /\
  (forall r, In (docId, r) (reports w4) -> r = set_status completed R) /\
  (exists m1 m2,
     log w4 = (log w ++ [UpdateStatus docId approved; AddMessage m1;
                         UpdateStatus docId completed; AddMessage m2])%list /\
     messages w4 = (messages w ++ [m1; m2])%list /\
     msg_type m1 = approval /\ msg_type m2 = general /\
     msg_userId m1 = userId R /\ msg_userId m2 = userId R) /\
  ~ In docId (map fst (pendingReports (exec fetchPendingReports w4))) /\
  ~ In docId (map fst (assignedReports (exec (fetchAssignedReports ses) w4))).
Proof.
  intros Huser Hin Hst Has Hui Hud Hg w1 w2 w3 w4.
  assert (E1 : w1 = mkWorld (reports w) (messages w) (log w)
             (List.filter (fun d => bool_decide (status (snd d) = pending))
                          (reports w))
             (assignedReports w) (processingId w) (currentCardIndex w)
             (alerts w)) by reflexivity.
  clearbody w1.
  assert (E2 : w2 = mkWorld (update_status docId approved (reports w))
             (messages w ++ [approval_message ses R (id R)])
             (log w ++ [UpdateStatus docId approved;
                        AddMessage (approval_message ses R (id R))])
             (List.filter (not_doc docId) (pendingReports w1))
             (assignedReports w) None 0
             (alerts w ++ [("Success", "Report approved successfully")])).
  { subst w2. unfold exec.
    rewrite (handleApprove_run ses w1 docId R); rewrite E1; world_simpl;
      auto. }
  clearbody w2.
  assert (Hin2 : In (docId, set_status approved R) (reports w2)).
  { rewrite E2. world_simpl. now apply update_status_In. }
  assert (E3 : w3 = mkWorld (reports w2) (messages w2) (log w2)
             (pendingReports w2)
             (List.filter
                (fun d => bool_decide (assigned (snd d) = Some uid)
                          && bool_decide (status (snd d) = approved))
                (reports w2))
             (processingId w2) (currentCardIndex w2) (alerts w2)).
  { subst w3. unfold exec.
    now rewrite (fetchAssignedReports_result ses w2 uid Huser). }
  clearbody w3.
  assert (Hud2 : unique_docIds (reports w2)).
  { rewrite E2. world_simpl. unfold unique_docIds.
    now rewrite update_status_docIds. }
  assert (E4 : w4 = mkWorld (update_status docId completed (reports w2))
             (messages w2 ++ [completion_message ses R (id R)])
             (log w2 ++ [UpdateStatus docId completed;
                         AddMessage (completion_message ses R (id R))])
             (pendingReports w2)
             (List.filter (not_doc docId) (assignedReports w3)) None
             (currentCardIndex w2)
             (alerts w2 ++ [("Success", "Report marked as completed")])).
  { subst w4. unfold exec.
    change (id R) with (id (set_status approved R)).
    rewrite (handleComplete_run ses w3 docId (set_status approved R));
      rewrite E3; world_simpl; auto.
    rewrite E2. world_simpl. discriminate. }
  clearbody w4.
  assert (Hin4 : In (docId, set_status completed R) (reports w4)).
  { rewrite E4. world_simpl.
    apply (update_status_In docId completed _ _ Hin2). }
  assert (Hud4 : unique_docIds (reports w4)).
  { rewrite E4. world_simpl. unfold unique_docIds.
    now rewrite update_status_docIds. }
  split.
  { rewrite E1. world_simpl. apply filter_In. split; [assumption|].
    cbn [snd]. now apply bool_decide_eq_true. }
  split; [rewrite E2; world_simpl; apply not_listed_after_removal|].
  split.
  { rewrite E3. world_simpl. apply filter_In. split; [assumption|].
    cbn [snd set_status assigned status]. apply andb_true_iff.
    split; now apply bool_decide_eq_true. }
  split; [rewrite E4; world_simpl; apply not_listed_after_removal|].
  split; [assumption|].
  split.
  { intros r Hr. symmetry. exact (unique_docIds_inj _ _ _ _ Hud4 Hin4 Hr). }
  split.
  { exists (approval_message ses R (id R)), (completion_message ses R (id R)).
    rewrite E4, E2. world_simpl. rewrite <- !app_assoc.
    repeat split. }
  split.
  - unfold exec. rewrite fetchPendingReports_result. world_simpl.
    rewrite E4. world_simpl. apply not_listed_by_status.
    intros d Hd. apply bool_decide_eq_true in Hd. rewrite Hd. discriminate.
  - unfold exec.
    rewrite (fetchAssignedReports_result ses w4 uid Huser). world_simpl.
    rewrite E4. world_simpl. apply not_listed_by_status.
    intros d Hd. apply andb_true_iff in Hd as [_ Hd].
    apply bool_decide_eq_true in Hd. rewrite Hd. discriminate.
Qed.

Definition assigned_pending_report : Report :=
  {| id := "m30tslc0-lflr";
     imageUrl := "https://blobs.example/reports/m30tslc0-lflr.jpg";
     category := "Pothole";
     description := "Deep pothole";
     addressLine1 := "1 O'Connell Street";
     addressLine2 := "";
     county := Some "Co. Dublin";
     eircode := "D01 F5P2";
     location := None;
     timestamp := 1730592000350;
     userId := "u1";
     status := pending;
     assigned := Some "adminB";
     upvotes := None |}.

Lemma approve_then_complete_witness :
  let w := initial_world [("doc1", assigned_pending_report)] in
  let R := assigned_pending_report in
  let w1 := exec fetchPendingReports w in
  let w2 := exec (handleApprove admin_B (id R) "doc1") w1 in
  let w3 := exec (fetchAssignedReports admin_B) w2 in
  let w4 := exec (handleComplete admin_B (id R) "doc1") w3 in
  In ("doc1", R) (pendingReports w1) /\
  ~ In "doc1" (map fst (pendingReports w2)) /\
  In ("doc1", set_status approved R) (assignedReports w3) /\
  ~ In "doc1" (map fst (assignedReports w4)) /\
  In ("doc1", set_status completed R) (reports w4) /\
  (forall r, In ("doc1", r) (reports w4) -> r = set_status completed R) /\
  (exists m1 m2,
     log w4 = (log w ++ [UpdateStatus "doc1" approved; AddMessage m1;
                         UpdateStatus "doc1" completed; AddMessage m2])%list /\
     messages w4 = (messages w ++ [m1; m2])%list /\
     msg_type m1 = approval /\ msg_type m2 = general /\
     msg_userId m1 = userId R /\ msg_userId m2 = userId R) /\
  ~ In "doc1" (map fst (pendingReports (exec fetchPendingReports w4))) /\
  ~ In "doc1"
      (map fst (assignedReports (exec (fetchAssignedReports admin_B) w4))).
Proof.
  apply (approve_then_complete admin_B
           (initial_world [("doc1", assigned_pending_report)]) "adminB" "doc1"
           assigned_pending_report).
  - reflexivity.
  - simpl. auto.
  - reflexivity.
  - reflexivity.
  - unfold unique_ids. simpl. constructor; [simpl; tauto|constructor].
  - unfold unique_docIds. simpl. constructor; [simpl; tauto|constructor].
  - simpl. discriminate.
Defined.

(** X12. A declined report is gone for the dashboard: after the decline of
    a stored report whose generated id is unique, a further approve,
    decline or complete for the same card, by any admin, writes nothing,
    sends no message and ends in an "Error" alert. *)
Theorem declined_report_is_gone (a : Action) (ses ses' : Session) (w : World)
    (docId : string) (R : Report) :
  In (docId, R) (reports w) ->
  unique_ids (reports w) ->
  processingId w <> Some docId ->
  let w1 := exec (handleDecline ses (id R) docId) w in
  let w2 := exec (handle a ses' (id R) docId) w1 in
  reports w2 = reports w1 /\ messages w2 = messages w1 /\ log w2 = log w1 /\
  (exists message, alerts w2 = (alerts w1 ++ [("Error", message)])%list) /\
  (forall r, ~ In (docId, r) (reports w2)) /\
  (forall d, In d (reports w2) -> id (snd d) <> id R).
Proof.
  intros Hin Hu Hg w1 w2.
  pose proof (filter_unique_key (fun d => id (snd d)) _ (docId, R) Hu Hin) as Hq.
  cbn [snd] in Hq.
  assert (E1 : w1 = mkWorld (List.filter (not_doc docId) (reports w))
                 (messages w ++ [decline_message ses R (id R)])
                 (log w ++ [DeleteReport docId;
                            AddMessage (decline_message ses R (id R))])
                 (List.filter (not_doc docId) (pendingReports w))
                 (assignedReports w) None 0
                 (alerts w ++ [("Success", "Report declined and deleted")])).
  { subst w1. unfold exec.
    rewrite (handleDecline_result ses w (id R) docId Hg). now rewrite Hq. }
  clearbody w1.
  assert (Hid : List.filter (fun d => String.eqb (id (snd d)) (id R))
                  (reports w1) = []).
  { rewrite E1. world_simpl. apply filter_filter_nil.
    intros x Hx Hp.
    assert (Hx' : In x [(docId, R)])
      by (rewrite <- Hq; apply filter_In; auto).
    destruct Hx' as [<-|[]]. unfold not_doc. cbn [fst].
    now rewrite String.eqb_refl. }
  assert (Hdoc : List.filter (fun d => String.eqb (fst d) docId)
                   (reports w1) = []).
  { rewrite E1. world_simpl. apply filter_filter_nil.
    intros x _ Hp. unfold not_doc. now rewrite Hp. }
  assert (Hg1 : processingId w1 <> Some docId)
    by (rewrite E1; world_simpl; discriminate).
  assert (E2 : exists message, w2 = failed w1 message).
  { subst w2. unfold exec. destruct a; cbn [handle].
    - rewrite (handleApprove_result ses' w1 (id R) docId Hg1), Hid. eauto.
    - rewrite (handleDecline_result ses' w1 (id R) docId Hg1), Hid. eauto.
    - rewrite (handleComplete_result ses' w1 (id R) docId Hg1), Hdoc. eauto. }
  clearbody w2. destruct E2 as [message ->]. unfold failed. world_simpl.
  repeat (split; [reflexivity|]).
  split; [eauto|]. split.
  - intros r Hr.
    assert (Hf : In (docId, r)
                   (List.filter (fun d => String.eqb (fst d) docId) (reports w1)))
      by (apply filter_In; split; [assumption|apply String.eqb_refl]).
    now rewrite Hdoc in Hf.
  - intros d Hd He.
    assert (Hf : In d (List.filter (fun d => String.eqb (id (snd d)) (id R))
                         (reports w1)))
      by (apply filter_In; split; [assumption|now apply String.eqb_eq]).
    now rewrite Hid in Hf.
Qed.

Lemma declined_report_is_gone_witness :
  let w := initial_world [("doc1", pending_report)] in
  let w1 := exec (handleDecline admin_B (id pending_report) "doc1") w in
  let w2 := exec (handle Approve admin_B (id pending_report) "doc1") w1 in
  reports w2 = reports w1 /\ messages w2 = messages w1 /\ log w2 = log w1 /\
  (exists message, alerts w2 = (alerts w1 ++ [("Error", message)])%list) /\
  (forall r, ~ In ("doc1", r) (reports w2)) /\
  (forall d, In d (reports w2) -> id (snd d) <> id pending_report).
Proof.
  apply (declined_report_is_gone Approve admin_B admin_B
           (initial_world [("doc1", pending_report)]) "doc1" pending_report).
  - simpl. auto.
  - unfold unique_ids. simpl. constructor; [simpl; tauto|constructor].
  - simpl. discriminate.
Defined.

End AdminDashboard.

(** ** The county leaderboard *)

Module Leaderboard.

Local Open Scope list_scope.

Record CountyStats := mkStats {
  county : string;
  points : Z;
  completedReports : Z
}.

(** *** The object [countyData]

    [countyData] starts as the literal [{}]: its own properties are kept in
    insertion order, and a key without own property is looked up in
    [Object.prototype]. *)

Definition Obj := list (string * CountyStats).

Fixpoint own (k : string) (o : Obj) : option CountyStats :=
  match o with
  | [] => None
  | (k', v) :: o' => if String.eqb k' k then Some v else own k o'
  end.

(** The three outcomes of reading [countyData[county]]. *)
Inductive Lookup :=
| Own (v : CountyStats)
| Inherited
| Undefined.

Definition get (o : Obj) (k : string) : Lookup :=
  match own k o with
  | Some v => Own v
  | None => if Js.inherited k then Inherited else Undefined
  end.

(** [data.county || "Unknown"] *)
Definition bucket (data : Doc.Report) : string :=
  match Doc.county data with
  | Some c => Js.or_string c "Unknown"
  | None => "Unknown"
  end.

(** [if (!countyData[county]) countyData[county] = { county, points: 0,
    completedReports: 0 }] *)
Definition init (o : Obj) (k : string) : Obj :=
  match get o k with
  | Undefined => o ++ [(k, mkStats k 0 0)]
  | Own _ | Inherited => o
  end.

Definition credit (v : CountyStats) : CountyStats :=
  mkStats (county v) (points v + 10) (completedReports v + 1).

(** [countyData[county].points += 10; countyData[county].completedReports += 1].
    On an inherited value the two writes land on the inherited object and
    [countyData] gets no own property. *)
Definition add_points (o : Obj) (k : string) : Obj :=
  match get o k with
  | Own _ =>
      map (fun kv => if String.eqb (fst kv) k then (fst kv, credit (snd kv))
                     else kv) o
  | Inherited | Undefined => o
  end.

(** The body of [snapshot.docs.forEach]. *)
Definition forEach_step (o : Obj) (data : Doc.Report) : Obj :=
  add_points (init o (bucket data)) (bucket data).

Definition countyData_of (docs : list Doc.Report) : Obj :=
  fold_left forEach_step docs [].

(** *** [Object.values]

    Own properties whose key is an array index come first, in ascending
    numeric order; the others follow in insertion order. *)

Fixpoint decimal (s : string) (acc : N) : option N :=
  match s with
  | EmptyString => Some acc
  | String c s' =>
      let d := N_of_ascii c in
      if ((48 <=? d) && (d <=? 57))%N
      then decimal s' (10 * acc + (d - 48))%N
      else None
  end.

(** The canonical decimal spelling of an integer below 2^32 - 1. *)
Definition arrayIndex (k : string) : option N :=
  match k with
  | EmptyString => None
  | String c rest =>
      if ((N_of_ascii c =? 48)%N && Js.truthy_string rest) then None
      else
        match decimal k 0 with
        | Some n => if (n <? 4294967295)%N then Some n else None
        | None => None
        end
  end.

Definition is_index (kv : string * CountyStats) : bool :=
  match arrayIndex (fst kv) with Some _ => true | None => false end.

Definition index_of (kv : string * CountyStats) : Z :=
  match arrayIndex (fst kv) with Some n => Z.of_N n | None => 0 end.

Definition Object_values (o : Obj) : list CountyStats :=
  map snd
    (Js.sort (fun a b => index_of a - index_of b) (List.filter is_index o)
     ++ List.filter (fun kv => negb (is_index kv)) o)%list.

(** *** The two screens *)

Definition completed_docs (reports : list (string * Doc.Report))
  : list Doc.Report :=
  map snd
    (List.filter
       (fun d => bool_decide (Doc.status (snd d) = Doc.completed)) reports).

(** [Object.values(countyData).sort((a, b) => b.points - a.points)] *)
Definition leaderboardArray (reports : list (string * Doc.Report))
  : list CountyStats :=
  Js.sort (fun a b => points b - points a)
    (Object_values (countyData_of (completed_docs reports))).

Module LeaderboardScreen.

(** The value [fetchLeaderboardData] passes to [setLeaderboardData]. *)
Definition fetchLeaderboardData (reports : list (string * Doc.Report))
  : list CountyStats :=
  leaderboardArray reports.

End LeaderboardScreen.

Module HomeScreen.

(** The home screen keeps the top three for its preview:
    [leaderboardArray.slice(0, 3)]. *)
Definition fetchLeaderboardData (reports : list (string * Doc.Report))
  : list CountyStats :=
  firstn 3 (leaderboardArray reports).

End HomeScreen.

(** *** What the loop has counted *)

(** Number of reports of [docs] that fall in bucket [k]. *)
Definition tally (k : string) (docs : list Doc.Report) : Z :=
  Z.of_nat (length (List.filter (fun r => String.eqb (bucket r) k) docs)).

(** No completed report carries a county that names an inherited property. *)
Definition plain_counties (reports : list (string * Doc.Report)) : Prop :=
  forall r, In r (completed_docs reports) -> Js.inherited (bucket r) = false.

(** [l] holds one entry per bucket of the completed reports, each with ten
    points and one count per report of its bucket. *)
Definition one_entry_per_bucket (reports : list (string * Doc.Report))
    (l : list CountyStats) : Prop :=
  List.NoDup (map county l) /\
  (forall r, In r (completed_docs reports) ->
             exists e, In e l /\ county e = bucket r) /\
  (forall e, In e l ->
             0 < tally (county e) (completed_docs reports) /\
             completedReports e = tally (county e) (completed_docs reports) /\
             points e = 10 * tally (county e) (completed_docs reports)).

(** *** The aggregation as the specification words it *)

(** The group of a report: its county string, and the literal "Unknown"
    for a report without county, be the county missing or empty. *)
Definition group_of (r : Doc.Report) : string :=
  match Doc.county r with
  | None => "Unknown"
  | Some EmptyString => "Unknown"
  | Some (String c name) => String c name
  end.

(** Number of reports of status completed in group [g]. *)
Definition group_size (g : string) (reports : list (string * Doc.Report))
  : Z :=
  Z.of_nat
    (length
       (List.filter
          (fun d => bool_decide (Doc.status (snd d) = Doc.completed)
                    && String.eqb (group_of (snd d)) g)
          reports)).

(** No group of a completed report is named like a property that every
    object inherits. *)
Definition ordinary_groups (reports : list (string * Doc.Report)) : Prop :=
  forall docId r,
    In (docId, r) reports -> Doc.status r = Doc.completed ->
    Js.inherited (group_of r) = false.

(** [l] holds one entry per group of the completed reports, and each entry
    has one count and ten points per report of its group. *)
Definition one_entry_per_group (reports : list (string * Doc.Report))
    (l : list CountyStats) : Prop :=
  List.NoDup (map county l) /\
  (forall docId r,
      In (docId, r) reports -> Doc.status r = Doc.completed ->
      exists e, In e l /\ county e = group_of r) /\
  (forall e, In e l ->
             0 < group_size (county e) reports /\
             completedReports e = group_size (county e) reports /\
             points e = 10 * group_size (county e) reports).

Definition descending (l : list CountyStats) : Prop :=
  StronglySorted (fun a b => points a >= points b) l.

Definition report_in (c : option string) (s : Doc.Status) : Doc.Report :=
  {| Doc.id := "m30tslc0-lflr";
     Doc.imageUrl := "https://blobs.example/reports/m30tslc0-lflr.jpg";
     Doc.category := "Pothole";
     Doc.description := "Deep pothole";
     Doc.addressLine1 := "1 Main Street";
     Doc.addressLine2 := "";
     Doc.county := c;
     Doc.eircode := "D01 F5P2";
     Doc.location := None;
     Doc.timestamp := 1730592000350;
     Doc.userId := "u1";
     Doc.status := s;
     Doc.assigned := Some "adminA";
     Doc.upvotes := None |}.

(** The example of the specification: three completed reports in Dublin,
    one in Cork, and reports in other states. *)
Definition dublin_cork : list (string * Doc.Report) :=
  [ ("d1", report_in (Some "Co. Cork") Doc.completed);
    ("d2", report_in (Some "Co. Dublin") Doc.completed);
    ("d3", report_in (Some "Co. Dublin") Doc.approved);
    ("d4", report_in (Some "Co. Dublin") Doc.completed);
    ("d5", report_in (Some "Co. Kerry") Doc.pending);
    ("d6", report_in (Some "Co. Dublin") Doc.completed) ].

Definition four_counties : list (string * Doc.Report) :=
  [ ("d1", report_in (Some "Co. Cork") Doc.completed);
    ("d2", report_in (Some "Co. Dublin") Doc.completed);
    ("d3", report_in (Some "Co. Galway") Doc.completed);
    ("d4", report_in (Some "Co. Kerry") Doc.completed) ].

Example leaderboard_dublin_cork :
  LeaderboardScreen.fetchLeaderboardData dublin_cork
  = [mkStats "Co. Dublin" 30 3; mkStats "Co. Cork" 10 1].
Proof. reflexivity. Qed.

Example leaderboard_unknown_bucket :
  LeaderboardScreen.fetchLeaderboardData
    [("d1", report_in None Doc.completed);
     ("d2", report_in (Some "") Doc.completed);
     ("d3", report_in (Some "Unknown") Doc.completed)]
  = [mkStats "Unknown" 30 3].
Proof. reflexivity. Qed.

Example leaderboard_inherited_name :
  LeaderboardScreen.fetchLeaderboardData
    [("d1", report_in (Some "constructor") Doc.completed);
     ("d2", report_in (Some "Co. Cork") Doc.completed)]
  = [mkStats "Co. Cork" 10 1].
Proof. reflexivity. Qed.

(** *** Properties of the object model *)

(** What [countyData] holds under key [k] once the reports [seen] went
    through the loop. *)
Definition expected (k : string) (seen : list Doc.Report)
  : option CountyStats :=
  if Js.inherited k then None
  else if 0 <? tally k seen
       then Some (mkStats k (10 * tally k seen) (tally k seen))
       else None.

Lemma own_Some_In (k : string) (v : CountyStats) (o : Obj) :
  own k o = Some v -> In (k, v) o.
Proof.
  induction o as [|[k' v'] o IH]; simpl; [discriminate|].
  destruct (String.eqb k' k) eqn:E.
  - apply String.eqb_eq in E. intros H. inversion H; subst. now left.
  - intros H. right. now apply IH.
Qed.

Lemma own_None_notin (k : string) (o : Obj) :
  own k o = None -> ~ In k (map fst o).
Proof.
  induction o as [|[k' v'] o IH]; simpl; [tauto|].
  destruct (String.eqb k' k) eqn:E; [discriminate|].
  apply String.eqb_neq in E. intros H [Heq|Hin]; [contradiction|].
  now apply IH.
Qed.

Lemma In_own (k : string) (v : CountyStats) (o : Obj) :
  List.NoDup (map fst o) -> In (k, v) o -> own k o = Some v.
Proof.
  induction o as [|[k' v'] o IH]; simpl; [tauto|].
  intros Hnd [Heq|Hin].
  - inversion Heq; subst. now rewrite String.eqb_refl.
  - apply List.NoDup_cons_iff in Hnd as [Hnotin Hnd].
    destruct (String.eqb k' k) eqn:E.
    + apply String.eqb_eq in E. subst k'. exfalso. apply Hnotin.
      change k with (fst (k, v)). now apply in_map.
    + now apply IH.
Qed.

Lemma own_snoc (k k' : string) (z : CountyStats) (o : Obj) :
  own k' (o ++ [(k, z)])
  = match own k' o with
    | Some v => Some v
    | None => if String.eqb k k' then Some z else None
    end.
Proof.
  induction o as [|[k0 v0] o IH]; simpl; [reflexivity|].
  now destruct (String.eqb k0 k').
Qed.

Lemma own_credited (k k' : string) (o : Obj) :
  own k' (map (fun kv => if String.eqb (fst kv) k
                         then (fst kv, credit (snd kv)) else kv) o)
  = if String.eqb k' k then option_map credit (own k' o) else own k' o.
Proof.
  induction o as [|[k0 v0] o IH]; simpl.
  - now destruct (String.eqb k' k).
  - destruct (String.eqb k0 k) eqn:E0; simpl;
      destruct (String.eqb k0 k') eqn:E1; rewrite ?IH.
    + apply String.eqb_eq in E0, E1. subst.
      now rewrite String.eqb_refl.
    + reflexivity.
    + apply String.eqb_eq in E1. subst k0.
      now rewrite E0.
    + reflexivity.
Qed.

Lemma credited_keys (k : string) (o : Obj) :
  map fst (map (fun kv => if String.eqb (fst kv) k
                          then (fst kv, credit (snd kv)) else kv) o)
  = map fst o.
Proof.
  rewrite map_map. apply map_ext. intros [k0 v0]. simpl.
  now destruct (String.eqb k0 k).
Qed.

Lemma tally_snoc (k : string) (seen : list Doc.Report) (r : Doc.Report) :
  tally k (seen ++ [r])
  = tally k seen + (if String.eqb (bucket r) k then 1 else 0).
Proof.
  unfold tally. rewrite List.filter_app, length_app. simpl.
  destruct (String.eqb (bucket r) k); simpl; lia.
Qed.

Lemma tally_nonneg (k : string) (seen : list Doc.Report) : 0 <= tally k seen.
Proof. unfold tally. lia. Qed.

Lemma tally_pos (k : string) (seen : list Doc.Report) :
  0 < tally k seen <-> exists r, In r seen /\ bucket r = k.
Proof.
  unfold tally. split.
  - intros H.
    destruct (List.filter (fun r => String.eqb (bucket r) k) seen)
      as [|r l] eqn:E; [simpl in H; lia|].
    assert (Hin : In r (List.filter (fun r => String.eqb (bucket r) k) seen))
      by (rewrite E; now left).
    apply filter_In in Hin as [Hin Hb]. apply String.eqb_eq in Hb. eauto.
  - intros (r & Hin & Hb).
    assert (H : In r (List.filter (fun r => String.eqb (bucket r) k) seen)).
    { apply filter_In. split; [assumption|now apply String.eqb_eq]. }
    destruct (List.filter (fun r => String.eqb (bucket r) k) seen);
      [destruct H|simpl; lia].
Qed.

Lemma expected_other (k k' : string) (seen : list Doc.Report) (r : Doc.Report) :
  bucket r = k -> k' <> k -> expected k' (seen ++ [r]) = expected k' seen.
Proof.
  intros Hb Hne. unfold expected. rewrite tally_snoc, Hb.
  destruct (String.eqb k k') eqn:E.
  - apply String.eqb_eq in E. congruence.
  - now rewrite Z.add_0_r.
Qed.

Lemma init_eq (o : Obj) (k : string) :
  init o k
  = match own k o with
    | Some _ => o
    | None => if Js.inherited k then o else o ++ [(k, mkStats k 0 0)]
    end.
Proof.
  unfold init, get. destruct (own k o); [reflexivity|].
  now destruct (Js.inherited k).
Qed.

Lemma add_points_eq (o : Obj) (k : string) :
  add_points o k
  = match own k o with
    | Some _ =>
        map (fun kv => if String.eqb (fst kv) k
                       then (fst kv, credit (snd kv)) else kv) o
    | None => o
    end.
Proof.
  unfold add_points, get. destruct (own k o); [reflexivity|].
  now destruct (Js.inherited k).
Qed.

(** One turn of the loop keeps [countyData] in step with the tally. *)
Lemma forEach_step_expected (o : Obj) (seen : list Doc.Report)
    (r : Doc.Report) :
  (forall k, own k o = expected k seen) ->
  forall k, own k (forEach_step o r) = expected k (seen ++ [r]).
Proof.
  intros Ho k'. unfold forEach_step. rewrite init_eq.
  set (k := bucket r).
  pose proof (Ho k) as Hk. unfold expected in Hk.
  destruct (Js.inherited k) eqn:Hinh.
  - (* the key names an inherited property: nothing is recorded *)
    rewrite Hk, add_points_eq, Hk, Ho.
    destruct (String.eqb k' k) eqn:E.
    + apply String.eqb_eq in E. subst k'. unfold expected. now rewrite Hinh.
    + apply String.eqb_neq in E. symmetry. now apply (expected_other k).
  - destruct (0 <? tally k seen) eqn:Hpos.
    + (* the bucket exists: it is credited *)
      rewrite Hk, add_points_eq, Hk, own_credited, Ho.
      destruct (String.eqb k' k) eqn:E.
      * apply String.eqb_eq in E. subst k'. unfold expected.
        rewrite Hinh, Hpos, tally_snoc. fold k. rewrite String.eqb_refl.
        apply Z.ltb_lt in Hpos.
        replace (0 <? tally k seen + 1) with true
          by (symmetry; apply Z.ltb_lt; lia).
        unfold credit. simpl. f_equal. f_equal; lia.
      * apply String.eqb_neq in E. symmetry. now apply (expected_other k).
    + (* a new bucket is created, then credited *)
      rewrite Hk, add_points_eq, own_snoc, Hk, String.eqb_refl.
      rewrite own_credited, own_snoc, Ho.
      destruct (String.eqb k' k) eqn:E.
      * apply String.eqb_eq in E. subst k'.
        unfold expected at 1. rewrite Hinh, Hpos, String.eqb_refl.
        unfold expected. rewrite Hinh, tally_snoc. fold k.
        rewrite String.eqb_refl.
        apply Z.ltb_ge in Hpos. pose proof (tally_nonneg k seen).
        replace (tally k seen) with 0 by lia. reflexivity.
      * rewrite (expected_other k k' seen r eq_refl)
          by now apply String.eqb_neq.
        destruct (expected k' seen); [reflexivity|].
        rewrite String.eqb_sym, E. reflexivity.
Qed.

Lemma forEach_step_keys (o : Obj) (r : Doc.Report) :
  List.NoDup (map fst o) -> List.NoDup (map fst (forEach_step o r)).
Proof.
  intros Hnd. unfold forEach_step. rewrite init_eq, add_points_eq.
  set (k := bucket r).
  destruct (own k o) as [v|] eqn:Hown.
  - rewrite Hown. now rewrite credited_keys.
  - destruct (Js.inherited k) eqn:Hinh.
    + now rewrite Hown.
    + rewrite own_snoc, Hown, String.eqb_refl, credited_keys, map_app.
      simpl. apply (Permutation_NoDup (Permutation_cons_append _ k)).
      constructor; [now apply own_None_notin|assumption].
Qed.

Lemma countyData_of_spec (docs : list Doc.Report) :
  List.NoDup (map fst (countyData_of docs)) /\
  forall k, own k (countyData_of docs) = expected k docs.
Proof.
  unfold countyData_of. induction docs as [|r docs IH] using rev_ind.
  - split; [constructor|]. intros k. unfold expected. simpl.
    now destruct (Js.inherited k).
  - rewrite fold_left_app. simpl. destruct IH as [Hnd Hown]. split.
    + now apply forEach_step_keys.
    + now apply forEach_step_expected.
Qed.

Lemma entry_of_countyData (docs : list Doc.Report) (k : string)
    (v : CountyStats) :
  In (k, v) (countyData_of docs) ->
  Js.inherited k = false /\ 0 < tally k docs /\
  v = mkStats k (10 * tally k docs) (tally k docs).
Proof.
  intros Hin. destruct (countyData_of_spec docs) as [Hnd Hown].
  pose proof (In_own k v _ Hnd Hin) as H. rewrite Hown in H.
  unfold expected in H. destruct (Js.inherited k); [discriminate|].
  destruct (0 <? tally k docs) eqn:Hpos; [|discriminate].
  apply Z.ltb_lt in Hpos. inversion H. auto.
Qed.

Lemma countyData_covers (docs : list Doc.Report) (r : Doc.Report) :
  In r docs -> Js.inherited (bucket r) = false ->
  exists v, In (bucket r, v) (countyData_of docs).
Proof.
  intros Hin Hinh. destruct (countyData_of_spec docs) as [_ Hown].
  pose proof (Hown (bucket r)) as H. unfold expected in H. rewrite Hinh in H.
  assert (Hpos : 0 < tally (bucket r) docs) by (apply tally_pos; eauto).
  apply Z.ltb_lt in Hpos. rewrite Hpos in H.
  eexists. apply own_Some_In. exact H.
Qed.

Lemma countyData_counties (docs : list Doc.Report) :
  map county (map snd (countyData_of docs)) = map fst (countyData_of docs).
Proof.
  rewrite map_map. apply map_ext_in. intros [k v] Hin.
  apply entry_of_countyData in Hin as (_ & _ & ->). reflexivity.
Qed.

Lemma filter_partition_perm {A} (p : A -> bool) (l : list A) :
  Permutation (List.filter p l ++ List.filter (fun x => negb (p x)) l) l.
Proof.
  induction l as [|x l IH]; simpl; [constructor|].
  destruct (p x); simpl.
  - now apply perm_skip.
  - etransitivity; [symmetry; apply Permutation_middle|].
    now apply perm_skip.
Qed.

Lemma Object_values_perm (o : Obj) :
  Permutation (map snd o) (Object_values o).
Proof.
  unfold Object_values. apply Permutation_map.
  etransitivity; [symmetry; apply (filter_partition_perm is_index)|].
  apply Permutation_app_tail, Js.sort_perm.
Qed.

Lemma leaderboardArray_perm (reports : list (string * Doc.Report)) :
  Permutation (map snd (countyData_of (completed_docs reports)))
              (leaderboardArray reports).
Proof.
  unfold leaderboardArray.
  etransitivity; [apply Object_values_perm|apply Js.sort_perm].
Qed.

Lemma sort_insert_descending (x : CountyStats) (l : list CountyStats) :
  descending l ->
  descending (Js.sort_insert (fun a b => points b - points a) x l).
Proof.
  unfold descending. induction l as [|y l IH]; simpl; intros Hs.
  - constructor; [constructor|constructor].
  - apply StronglySorted_inv in Hs as [Hs Hy].
    destruct (points y - points x <=? 0) eqn:E.
    + apply Z.leb_le in E. constructor.
      * now constructor.
      * constructor; [lia|].
        eapply List.Forall_impl; [|exact Hy]. simpl. intros z Hz. lia.
    + apply Z.leb_gt in E. constructor; [now apply IH|].
      eapply Permutation_Forall; [apply Js.sort_insert_perm|].
      constructor; [lia|assumption].
Qed.

Lemma sort_descending (l : list CountyStats) :
  descending (Js.sort (fun a b => points b - points a) l).
Proof.
  induction l as [|x l IH]; simpl; [constructor|].
  now apply sort_insert_descending.
Qed.

Lemma completed_docs_spec (reports : list (string * Doc.Report))
    (r : Doc.Report) :
  In r (completed_docs reports) <->
  exists docId, In (docId, r) reports /\ Doc.status r = Doc.completed.
Proof.
  unfold completed_docs. rewrite in_map_iff. split.
  - intros ([d r'] & Heq & Hin). simpl in Heq. subst r'.
    apply filter_In in Hin as [Hin Hs]. apply bool_decide_eq_true in Hs.
    eauto.
  - intros (d & Hin & Hs). exists (d, r). split; [reflexivity|].
    apply filter_In. split; [assumption|]. now apply bool_decide_eq_true.
Qed.

(** The loop and the two sorts, in the terms of the program. *)
Lemma leaderboardArray_buckets (reports : list (string * Doc.Report)) :
  plain_counties reports ->
  (forall r, In r (completed_docs reports) <->
             exists docId, In (docId, r) reports /\
                           Doc.status r = Doc.completed) /\
  one_entry_per_bucket reports
    (LeaderboardScreen.fetchLeaderboardData reports) /\
  descending (LeaderboardScreen.fetchLeaderboardData reports) /\
  HomeScreen.fetchLeaderboardData reports
  = firstn 3 (LeaderboardScreen.fetchLeaderboardData reports) /\
  length (HomeScreen.fetchLeaderboardData reports)
  = Nat.min 3 (length (LeaderboardScreen.fetchLeaderboardData reports)).
Proof.
  intros Hplain. split; [apply completed_docs_spec|].
  split; [|split; [apply sort_descending|split; [reflexivity|]]].
  2:{ unfold HomeScreen.fetchLeaderboardData,
        LeaderboardScreen.fetchLeaderboardData.
      apply List.length_firstn. }
  unfold LeaderboardScreen.fetchLeaderboardData.
  pose proof (leaderboardArray_perm reports) as Hperm.
  set (docs := completed_docs reports) in *.
  destruct (countyData_of_spec docs) as [Hnd _].
  repeat split.
  - eapply Permutation_NoDup; [apply Permutation_map, Hperm|].
    now rewrite countyData_counties.
  - intros r Hin.
    destruct (countyData_covers docs r Hin (Hplain r Hin)) as [v Hv].
    exists v. split.
    + eapply Permutation_in; [exact Hperm|].
      change v with (snd (bucket r, v)). now apply in_map.
    + now apply entry_of_countyData in Hv as (_ & _ & ->).
  - apply (Permutation_in _ (Permutation_sym Hperm)) in H.
    apply in_map_iff in H as ([k v] & Heq & Hin). simpl in Heq. subst v.
    now apply entry_of_countyData in Hin as (_ & Hpos & ->).
  - apply (Permutation_in _ (Permutation_sym Hperm)) in H.
    apply in_map_iff in H as ([k v] & Heq & Hin). simpl in Heq. subst v.
    now apply entry_of_countyData in Hin as (_ & Hpos & ->).
  - apply (Permutation_in _ (Permutation_sym Hperm)) in H.
    apply in_map_iff in H as ([k v] & Heq & Hin). simpl in Heq. subst v.
    now apply entry_of_countyData in Hin as (_ & Hpos & ->).
Qed.

(** The bucket of the program is the group of the specification. *)
Lemma bucket_group (r : Doc.Report) : bucket r = group_of r.
Proof.
  unfold bucket, group_of.
  destruct (Doc.county r) as [[|c name]|]; reflexivity.
Qed.

Lemma tally_group_size (g : string) (reports : list (string * Doc.Report)) :
  tally g (completed_docs reports) = group_size g reports.
Proof.
  unfold tally, group_size, completed_docs. f_equal.
  induction reports as [|[docId r] reports IH]; [reflexivity|].
  simpl. destruct (bool_decide (Doc.status r = Doc.completed)); simpl.
  - rewrite bucket_group.
    destruct (String.eqb (group_of r) g); simpl; [f_equal|]; exact IH.
  - exact IH.
Qed.

Lemma ordinary_plain (reports : list (string * Doc.Report)) :
  ordinary_groups reports -> plain_counties reports.
Proof.
  intros H r Hin. apply completed_docs_spec in Hin as (docId & Hin & Hs).
  rewrite bucket_group. eauto.
Qed.

(** C8, as the code has it. Over any set of reports in which no group of a
    completed report is named like an inherited object property, the
    aggregation takes exactly the reports in status completed, groups them
    by their county string ("Unknown" when the county is missing or
    empty), and the leaderboard screen gets one entry per group, with ten
    points and one count per report of the group, ordered by points
    descending. The home screen computes the same list and keeps its first
    three entries. *)
Theorem leaderboard_spec (reports : list (string * Doc.Report)) :
  ordinary_groups reports ->
  one_entry_per_group reports
    (LeaderboardScreen.fetchLeaderboardData reports) /\
  descending (LeaderboardScreen.fetchLeaderboardData reports) /\
  HomeScreen.fetchLeaderboardData reports
  = firstn 3 (LeaderboardScreen.fetchLeaderboardData reports) /\
  length (HomeScreen.fetchLeaderboardData reports)
  = Nat.min 3 (length (LeaderboardScreen.fetchLeaderboardData reports)).
Proof.
  intros Hord.
  destruct (leaderboardArray_buckets reports (ordinary_plain _ Hord))
    as (_ & (Hnd & Hcover & Hentry) & Hdesc & Hhome & Hlen).
  split; [|auto].
  split; [assumption|]. split.
  - intros docId r Hin Hs.
    destruct (Hcover r) as (e & He & Hc).
    { apply completed_docs_spec. eauto. }
    exists e. split; [assumption|]. now rewrite <- bucket_group.
  - intros e He. rewrite <- !tally_group_size. auto.
Qed.

(** C8, as the specification states it, fails on the home screen: with
    completed reports in four counties its list has three entries, and the
    fourth group has none. *)
Lemma home_preview_drops_buckets :
  ordinary_groups four_counties /\
  HomeScreen.fetchLeaderboardData four_counties
  = [mkStats "Co. Cork" 10 1; mkStats "Co. Dublin" 10 1;
     mkStats "Co. Galway" 10 1] /\
  In ("d4", report_in (Some "Co. Kerry") Doc.completed) four_counties /\
  ~ one_entry_per_group four_counties
      (HomeScreen.fetchLeaderboardData four_counties).
Proof.
  split; [|split; [reflexivity|split; [simpl; tauto|]]].
  - intros docId r Hin _. simpl in Hin.
    destruct Hin as [H|[H|[H|[H|[]]]]]; inversion H; reflexivity.
  - intros (_ & Hcover & _).
    destruct (Hcover "d4" (report_in (Some "Co. Kerry") Doc.completed))
      as (e & Hin & He); [simpl; tauto|reflexivity|].
    simpl in Hin. destruct Hin as [<-|[<-|[<-|[]]]]; discriminate.
Qed.

(** Completed reports in Dublin and in Cork, one without county and one
    with an empty county. *)
Definition with_missing_county : list (string * Doc.Report) :=
  [ ("d1", report_in (Some "Co. Cork") Doc.completed);
    ("d2", report_in None Doc.completed);
    ("d3", report_in (Some "Co. Dublin") Doc.completed);
    ("d4", report_in (Some "") Doc.completed);
    ("d5", report_in (Some "Co. Dublin") Doc.pending);
    ("d6", report_in (Some "Co. Dublin") Doc.completed);
    ("d7", report_in None Doc.completed) ].

Example leaderboard_with_missing_county :
  LeaderboardScreen.fetchLeaderboardData with_missing_county
  = [mkStats "Unknown" 30 3; mkStats "Co. Dublin" 20 2;
     mkStats "Co. Cork" 10 1].
Proof. reflexivity. Qed.

Lemma leaderboard_spec_witness :
  one_entry_per_group with_missing_county
    (LeaderboardScreen.fetchLeaderboardData with_missing_county) /\
  descending (LeaderboardScreen.fetchLeaderboardData with_missing_county) /\
  HomeScreen.fetchLeaderboardData with_missing_county
  = firstn 3 (LeaderboardScreen.fetchLeaderboardData with_missing_county) /\
  length (HomeScreen.fetchLeaderboardData with_missing_county)
  = Nat.min 3
      (length (LeaderboardScreen.fetchLeaderboardData with_missing_county)).
Proof.
  apply (leaderboard_spec with_missing_county).
  intros docId r Hin _. simpl in Hin.
  destruct Hin as [H|[H|[H|[H|[H|[H|[H|[]]]]]]]]; inversion H; reflexivity.
Defined.

(** *** Totals, order of the documents, and the preview *)

Definition total (f : CountyStats -> Z) (l : list CountyStats) : Z :=
  fold_right (fun e acc => f e + acc) 0 l.

(** The completed reports the aggregation records: all of them, but for a
    county that names a property every object inherits. *)
Definition counted (reports : list (string * Doc.Report)) : list Doc.Report :=
  List.filter (fun r => negb (Js.inherited (bucket r))) (completed_docs reports).

Lemma total_app (f : CountyStats -> Z) (l1 l2 : list CountyStats) :
  total f (l1 ++ l2) = total f l1 + total f l2.
Proof. induction l1 as [|x l1 IH]; simpl; [reflexivity|]. rewrite IH. lia. Qed.

Lemma total_perm (f : CountyStats -> Z) (l1 l2 : list CountyStats) :
  Permutation l1 l2 -> total f l1 = total f l2.
Proof. induction 1; simpl; lia. Qed.

Lemma notin_own (k : string) (o : Obj) :
  ~ In k (map fst o) -> own k o = None.
Proof.
  intros H. destruct (own k o) as [v|] eqn:E; [|reflexivity].
  exfalso. apply H. apply own_Some_In in E.
  change k with (fst (k, v)). now apply in_map.
Qed.

Lemma credited_total (f : CountyStats -> Z) (df : Z) (k : string) (o : Obj) :
  (forall v, f (credit v) = f v + df) ->
  List.NoDup (map fst o) ->
  total f (map snd (map (fun kv => if String.eqb (fst kv) k
                                   then (fst kv, credit (snd kv)) else kv) o))
  = total f (map snd o) + match own k o with Some _ => df | None => 0 end.
Proof.
  intros Hf. induction o as [|[k0 v0] o IH]; intros Hnd; [reflexivity|].
  cbn [map fst snd] in Hnd. apply List.NoDup_cons_iff in Hnd as [Hnotin Hnd].
  specialize (IH Hnd). simpl. rewrite IH.
  destruct (String.eqb k0 k) eqn:E; simpl.
  - apply String.eqb_eq in E. subst k0.
    rewrite (notin_own _ _ Hnotin), Hf. lia.
  - lia.
Qed.

Lemma forEach_step_total (f : CountyStats -> Z) (df : Z) (o : Obj)
    (seen : list Doc.Report) (r : Doc.Report) :
  (forall v, f (credit v) = f v + df) ->
  (forall k, f (mkStats k 0 0) = 0) ->
  List.NoDup (map fst o) ->
  (forall k, own k o = expected k seen) ->
  total f (map snd (forEach_step o r))
  = total f (map snd o) + (if Js.inherited (bucket r) then 0 else df).
Proof.
  intros Hf H0 Hnd Ho. unfold forEach_step. rewrite init_eq, add_points_eq.
  set (k := bucket r).
  pose proof (Ho k) as Hk. unfold expected in Hk.
  destruct (own k o) as [v|] eqn:Hown.
  - rewrite Hown, (credited_total f df k o Hf Hnd), Hown.
    destruct (Js.inherited k); [discriminate|reflexivity].
  - destruct (Js.inherited k) eqn:Hinh.
    + rewrite Hown. lia.
    + rewrite own_snoc, Hown, String.eqb_refl.
      rewrite (credited_total f df k _ Hf).
      * rewrite own_snoc, Hown, String.eqb_refl, map_app, total_app.
        simpl. rewrite H0. lia.
      * rewrite map_app. simpl.
        apply (Permutation_NoDup (Permutation_cons_append _ k)).
        constructor; [now apply own_None_notin|assumption].
Qed.

Lemma countyData_total (f : CountyStats -> Z) (df : Z)
    (docs : list Doc.Report) :
  (forall v, f (credit v) = f v + df) ->
  (forall k, f (mkStats k 0 0) = 0) ->
  total f (map snd (countyData_of docs))
  = df * Z.of_nat
           (length (List.filter (fun r => negb (Js.inherited (bucket r))) docs)).
Proof.
  intros Hf H0. induction docs as [|r docs IH] using rev_ind.
  - simpl. lia.
  - destruct (countyData_of_spec docs) as [Hnd Hown].
    unfold countyData_of in *. rewrite fold_left_app. cbn [fold_left].
    rewrite (forEach_step_total f df _ docs r Hf H0 Hnd Hown), IH.
    rewrite List.filter_app, length_app. cbn [List.filter].
    destruct (Js.inherited (bucket r)); simpl; lia.
Qed.

Lemma tally_perm (k : string) (docs docs' : list Doc.Report) :
  Permutation docs docs' -> tally k docs = tally k docs'.
Proof.
  intros H. unfold tally. f_equal. apply Permutation_length.
  clear -H. induction H; simpl.
  - constructor.
  - destruct (String.eqb (bucket x) k); [now constructor|assumption].
  - destruct (String.eqb (bucket y) k), (String.eqb (bucket x) k);
      try reflexivity. apply perm_swap.
  - etransitivity; eassumption.
Qed.

Lemma completed_docs_perm (reports reports' : list (string * Doc.Report)) :
  Permutation reports reports' ->
  Permutation (completed_docs reports) (completed_docs reports').
Proof.
  intros H. unfold completed_docs. apply Permutation_map.
  induction H; simpl.
  - constructor.
  - destruct (bool_decide _); [now constructor|assumption].
  - destruct (bool_decide (Doc.status (snd y) = Doc.completed)),
             (bool_decide (Doc.status (snd x) = Doc.completed));
      try reflexivity. apply perm_swap.
  - etransitivity; eassumption.
Qed.

Lemma NoDup_keys_entries (o : Obj) :
  List.NoDup (map fst o) -> List.NoDup o.
Proof. apply List.NoDup_map_inv. Qed.

Lemma countyData_of_perm (docs docs' : list Doc.Report) :
  Permutation docs docs' ->
  Permutation (countyData_of docs) (countyData_of docs').
Proof.
  intros H.
  destruct (countyData_of_spec docs) as [Hnd Hown].
  destruct (countyData_of_spec docs') as [Hnd' Hown'].
  assert (Hexp : forall k, expected k docs = expected k docs').
  { intros k. unfold expected. now rewrite (tally_perm k _ _ H). }
  apply Permutation.NoDup_Permutation; auto using NoDup_keys_entries.
  intros [k v]. split; intros Hin.
  - apply own_Some_In. rewrite Hown', <- Hexp, <- Hown. now apply In_own.
  - apply own_Some_In. rewrite Hown, Hexp, <- Hown'. now apply In_own.
Qed.

(** X13. Nothing is lost or invented by the aggregation: on any set of
    reports the points of the leaderboard add up to ten times, and its
    report counts to exactly, the number of completed reports it records
    (every completed report, apart from those whose county names a
    property that every object inherits). The home preview can only show
    less. *)
Theorem leaderboard_totals (reports : list (string * Doc.Report)) :
  total points (LeaderboardScreen.fetchLeaderboardData reports)
  = 10 * Z.of_nat (length (counted reports)) /\
  total completedReports (LeaderboardScreen.fetchLeaderboardData reports)
  = Z.of_nat (length (counted reports)) /\
  (length (counted reports) <= length (completed_docs reports))%nat /\
  (plain_counties reports -> counted reports = completed_docs reports) /\
  total points (HomeScreen.fetchLeaderboardData reports)
  <= 10 * Z.of_nat (length (counted reports)).
Proof.
  unfold LeaderboardScreen.fetchLeaderboardData,
    HomeScreen.fetchLeaderboardData, counted.
  pose proof (leaderboardArray_perm reports) as Hperm.
  assert (Hp : total points (leaderboardArray reports)
               = 10 * Z.of_nat
                   (length (List.filter
                              (fun r => negb (Js.inherited (bucket r)))
                              (completed_docs reports)))).
  { rewrite <- (total_perm _ _ _ Hperm).
    apply countyData_total; [intros v; reflexivity|reflexivity]. }
  split; [exact Hp|]. split.
  { rewrite <- (total_perm _ _ _ Hperm).
    rewrite (countyData_total completedReports 1);
      [lia|intros v; reflexivity|reflexivity]. }
  split; [apply List.filter_length_le|]. split.
  { intros Hplain. apply List.forallb_filter_id, forallb_forall.
    intros r Hr. now rewrite (Hplain r Hr). }
  rewrite <- Hp.
  assert (Hpos : List.Forall (fun e => 0 <= points e) (leaderboardArray reports)).
  { eapply Permutation_Forall; [exact Hperm|].
    apply List.Forall_forall. intros v Hv.
    apply in_map_iff in Hv as ([k v'] & Heq & Hin). simpl in Heq. subst v'.
    apply entry_of_countyData in Hin as (_ & Hpos & ->). simpl. lia. }
  rewrite <- (firstn_skipn 3 (leaderboardArray reports)) at 2.
  rewrite total_app.
  assert (Hrest : 0 <= total points (skipn 3 (leaderboardArray reports))).
  { assert (Hf : List.Forall (fun e => 0 <= points e)
                   (skipn 3 (leaderboardArray reports))).
    { apply List.Forall_forall. intros e He.
      rewrite List.Forall_forall in Hpos. apply Hpos.
      rewrite <- (firstn_skipn 3 (leaderboardArray reports)).
      apply in_or_app. now right. }
    induction Hf; simpl; lia. }
  lia.
Qed.

(** X14. The order in which the store returns the documents does not
    change what the leaderboard holds: two snapshots with the same
    documents give the same entries. (Entries with equal points may change
    places.) *)
Theorem leaderboard_order_independent
    (reports reports' : list (string * Doc.Report)) :
  Permutation reports reports' ->
  Permutation (LeaderboardScreen.fetchLeaderboardData reports)
              (LeaderboardScreen.fetchLeaderboardData reports') /\
  map points (LeaderboardScreen.fetchLeaderboardData reports)
  = map points (LeaderboardScreen.fetchLeaderboardData reports').
Proof.
  intros H. unfold LeaderboardScreen.fetchLeaderboardData.
  assert (Hperm : Permutation (leaderboardArray reports)
                              (leaderboardArray reports')).
  { etransitivity; [symmetry; apply leaderboardArray_perm|].
    etransitivity; [|apply leaderboardArray_perm].
    apply Permutation_map, countyData_of_perm, completed_docs_perm, H. }
  split; [exact Hperm|].
  pose proof (sort_descending
                (Object_values (countyData_of (completed_docs reports)))) as Hs.
  pose proof (sort_descending
                (Object_values (countyData_of (completed_docs reports')))) as Hs'.
  fold (leaderboardArray reports) in Hs.
  fold (leaderboardArray reports') in Hs'.
  unfold descending in *.
  assert (Hpm : Permutation (map points (leaderboardArray reports))
                            (map points (leaderboardArray reports')))
    by now apply Permutation_map.
  assert (S1 : StronglySorted Z.ge (map points (leaderboardArray reports))).
  { clear -Hs. induction Hs; simpl; constructor; auto.
    apply List.Forall_map. assumption. }
  assert (S2 : StronglySorted Z.ge (map points (leaderboardArray reports'))).
  { clear -Hs'. induction Hs'; simpl; constructor; auto.
    apply List.Forall_map. assumption. }
  clear -Hpm S1 S2.
  revert Hpm S2. generalize (map points (leaderboardArray reports')).
  induction S1 as [|x l S1 IH Hx]; intros l' Hpm S2.
  - apply Permutation_nil in Hpm. now subst.
  - destruct S2 as [|y l' S2 Hy].
    + apply Permutation_sym, Permutation_nil in Hpm. discriminate.
    + assert (Exy : x = y).
      { assert (Hxin : In x (y :: l'))
          by (eapply Permutation_in; [exact Hpm|now left]).
        assert (Hyin : In y (x :: l))
          by (eapply Permutation_in; [symmetry; exact Hpm|now left]).
        rewrite List.Forall_forall in Hx, Hy.
        destruct Hxin as [->|Hxin]; [reflexivity|].
        destruct Hyin as [->|Hyin]; [reflexivity|].
        pose proof (Hx _ Hyin). pose proof (Hy _ Hxin). lia. }
      subst y. f_equal. apply IH; [|assumption].
      now apply Permutation_cons_inv in Hpm.
Qed.

Lemma leaderboard_order_independent_witness :
  Permutation (LeaderboardScreen.fetchLeaderboardData dublin_cork)
              (LeaderboardScreen.fetchLeaderboardData (rev dublin_cork)) /\
  map points (LeaderboardScreen.fetchLeaderboardData dublin_cork)
  = map points (LeaderboardScreen.fetchLeaderboardData (rev dublin_cork)).
Proof.
  apply (leaderboard_order_independent dublin_cork (rev dublin_cork)).
  apply Permutation_rev.
Defined.

(** X15. The home preview is the top of the leaderboard: the full list is
    the preview followed by the entries left out, no entry left out has
    more points than an entry shown, and nothing is left out when there
    are at most three buckets. *)
Theorem home_preview_is_top (reports : list (string * Doc.Report)) :
  exists rest,
    LeaderboardScreen.fetchLeaderboardData reports
    = HomeScreen.fetchLeaderboardData reports ++ rest /\
    (forall e e', In e (HomeScreen.fetchLeaderboardData reports) ->
                  In e' rest -> points e >= points e') /\
    ((length (LeaderboardScreen.fetchLeaderboardData reports) <= 3)%nat ->
     rest = []).
Proof.
  unfold LeaderboardScreen.fetchLeaderboardData,
    HomeScreen.fetchLeaderboardData.
  exists (skipn 3 (leaderboardArray reports)).
  split; [symmetry; apply firstn_skipn|]. split.
  - apply (Js.sorted_app_order (fun a b => points a >= points b)).
    rewrite firstn_skipn. apply sort_descending.
  - intros Hlen. now apply List.skipn_all2.
Qed.

End Leaderboard.

(** ** The home screen: recently completed reports *)

Module HomeScreenReports.
Import Doc.

Local Open Scope list_scope.

(** [error.message && error.message.includes("requires an index")] *)
Definition missing_index (error : Js.Error) : bool :=
  Js.truthy_string (Js.err_message error)
  && Js.includes (Js.err_message error) "requires an index".

(** The comparator of the in-memory sort. Every stored report carries the
    timestamp [uploadReport] wrote, so the guard on a missing timestamp
    does not fire. *)
Definition by_newest (a b : string * Report) : Z :=
  timestamp (snd b) - timestamp (snd a).

(** [where("status", "==", "completed")] *)
Definition completed_snapshot (reports : list (string * Report))
  : list (string * Report) :=
  List.filter (fun d => bool_decide (status (snd d) = completed)) reports.

(** [fetchCompletedReports]: the list the screen holds afterwards.
    [composite] is what the store answers to the query that needs the
    composite index: its documents, or the error it rejects with. Without
    the index the screen sorts all completed reports itself and keeps five;
    on any other error the list stays as it was. *)
Definition fetchCompletedReports
    (composite : list (string * Report) + Js.Error)
    (reports completedReports : list (string * Report))
  : list (string * Report) :=
  match composite with
  | inl docs => docs
  | inr error =>
      if missing_index error
      then firstn 5 (Js.sort by_newest (completed_snapshot reports))
      else completedReports
  end.

Definition index_error : Js.Error :=
  Js.new_Error "The query requires an index. You can create it here: ...".

Definition report_at (t : Z) (s : Status) : Report :=
  {| id := "m30tslc0-lflr";
     imageUrl := "https://blobs.example/reports/m30tslc0-lflr.jpg";
     category := "Pothole";
     description := "Deep pothole";
     addressLine1 := "1 Main Street";
     addressLine2 := "";
     county := Some "Co. Dublin";
     eircode := "D01 F5P2";
     location := None;
     timestamp := t;
     userId := "u1";
     status := s;
     assigned := None;
     upvotes := None |}.

Definition seven_reports : list (string * Report) :=
  [("d1", report_at 100 completed); ("d2", report_at 700 completed);
   ("d3", report_at 300 pending); ("d4", report_at 200 completed);
   ("d5", report_at 600 completed); ("d6", report_at 500 completed);
   ("d7", report_at 400 completed)].

Example fallback_seven_reports :
  map fst (fetchCompletedReports (inr index_error) seven_reports [])
  = ["d2"; "d5"; "d6"; "d7"; "d4"].
Proof. reflexivity. Qed.

(** X16. Without the composite index the home screen still shows the most
    recent completed reports: at most five and as many as there are, all
    stored and completed, newest first, and every completed report left
    out is no newer than any report shown. *)
Theorem recent_reports_without_index (error : Js.Error)
    (reports completedReports : list (string * Report)) :
  missing_index error = true ->
  let shown := fetchCompletedReports (inr error) reports completedReports in
  length shown = Nat.min 5 (length (completed_snapshot reports)) /\
  StronglySorted (fun a b => timestamp (snd a) >= timestamp (snd b)) shown /\
  (forall d, In d shown -> In d reports /\ status (snd d) = completed) /\
  exists rest,
    Permutation (shown ++ rest) (completed_snapshot reports) /\
    forall a b, In a shown -> In b rest ->
                timestamp (snd a) >= timestamp (snd b).
Proof.
  intros Herr shown. subst shown. unfold fetchCompletedReports.
  rewrite Herr.
  set (sorted := Js.sort by_newest (completed_snapshot reports)).
  assert (Hperm : Permutation (completed_snapshot reports) sorted)
    by apply Js.sort_perm.
  assert (Hs : StronglySorted
                 (fun a b => timestamp (snd a) >= timestamp (snd b)) sorted)
    by apply (Js.sort_by_key (fun d => timestamp (snd d))).
  split.
  { rewrite List.length_firstn. now rewrite (Permutation_length Hperm). }
  split.
  { rewrite <- (firstn_skipn 5 sorted) in Hs. clear -Hs.
    induction (firstn 5 sorted) as [|x l IH]; [constructor|].
    simpl in Hs. apply StronglySorted_inv in Hs as [Hs Hx].
    constructor; [now apply IH|].
    rewrite List.Forall_forall in *. intros y Hy. apply Hx, in_or_app.
    now left. }
  split.
  { intros d Hd.
    assert (Hin : In d (completed_snapshot reports)).
    { apply (Permutation_in _ (Permutation_sym Hperm)).
      rewrite <- (firstn_skipn 5 sorted). apply in_or_app. now left. }
    apply filter_In in Hin as [Hin Hst].
    split; [assumption|now apply bool_decide_eq_true in Hst]. }
  exists (skipn 5 sorted). split.
  - rewrite firstn_skipn. now symmetry.
  - apply (Js.sorted_app_order
             (fun a b => timestamp (snd a) >= timestamp (snd b))).
    now rewrite firstn_skipn.
Qed.

Lemma recent_reports_without_index_witness :
  let shown := fetchCompletedReports (inr index_error) seven_reports [] in
  length shown = Nat.min 5 (length (completed_snapshot seven_reports)) /\
  StronglySorted (fun a b => timestamp (snd a) >= timestamp (snd b)) shown /\
  (forall d, In d shown -> In d seven_reports /\ status (snd d) = completed) /\
  exists rest,
    Permutation (shown ++ rest) (completed_snapshot seven_reports) /\
    forall a b, In a shown -> In b rest ->
                timestamp (snd a) >= timestamp (snd b).
Proof.
  apply (recent_reports_without_index index_error seven_reports []).
  reflexivity.
Defined.

End HomeScreenReports.

(** ** The feed: upvote toggle *)

Module Feed.
Import Doc.

(** The [reports] and [userUpvotes] collections and the state of the feed
    component. A [userUpvotes] document is keyed by user id and maps report
    ids to 0 or 1; the component state [userUpvotes] is the boolean view of
    the signed-in user's document, loaded by [fetchReports]. Report ids are
    two base-36 numbers joined by a dash ([generateId]): they are plain
    field names of a document. *)
Record World := mkWorld {
  reports : list (string * Report);
  userUpvotesDocs : gmap string (gmap string Z);
  userUpvotes : gmap string bool;
  alerts : list (string * string)
}.

Definition has_doc (docId : string) (docs : list (string * Report)) : bool :=
  existsb (fun d => String.eqb (fst d) docId) docs.

(** A field written with [increment(n)]: a missing field counts as 0. *)
Definition incremented (n : Z) (r : Report) : Report :=
  mkReport (id r) (imageUrl r) (category r) (description r) (addressLine1 r)
           (addressLine2 r) (county r) (eircode r) (location r) (timestamp r)
           (userId r) (status r) (assigned r)
           (Some (default 0 (upvotes r) + n)).

(** [updateDoc(doc(db, "reports", docId), { upvotes: increment(n) })] *)
Definition increment_upvotes (docId : string) (n : Z)
    (docs : list (string * Report)) : list (string * Report) :=
  map (fun d => if String.eqb (fst d) docId
                then (fst d, incremented n (snd d)) else d) docs.

(** [userUpvotes[reportId]] read as a condition: the own property when
    there is one, else what the object inherits under that name. *)
Definition hasUpvoted (w : World) (reportId : string) : bool :=
  match userUpvotes w !! reportId with
  | Some b => b
  | None => Js.inherited reportId
  end.

(** The part of [fetchReports] that reloads the cached view: when the
    user's document exists, every stored value becomes [value === 1];
    otherwise the view is left as it is. *)
Definition fetchReports (user : option string) (w : World) : World :=
  match user with
  | None => w
  | Some uid =>
      match userUpvotesDocs w !! uid with
      | Some upvotesData =>
          mkWorld (reports w) (userUpvotesDocs w)
                  ((fun v => bool_decide (v = 1)) <$> upvotesData)
                  (alerts w)
      | None => w
      end
  end.

(** [handleUpvote], up to its closing call of [fetchReports]. *)
Definition handleUpvote (user : option string) (reportId docId : string)
    (w : World) : World :=
  match user with
  | None =>
      mkWorld (reports w) (userUpvotesDocs w) (userUpvotes w)
              (alerts w ++ [("Sign In Required",
                             "Please sign in to upvote reports. Your upvotes help prioritize issues in your community.")])
  | Some uid =>
      let upvoted := hasUpvoted w reportId in
      if has_doc docId (reports w) then
        let reports' :=
          increment_upvotes docId (if upvoted then -1 else 1) (reports w) in
        let docs' :=
          match userUpvotesDocs w !! uid with
          | Some fields =>
              <[uid := <[reportId := if upvoted then 0 else 1]> fields]>
                (userUpvotesDocs w)
          | None => <[uid := {[reportId := 1]}]> (userUpvotesDocs w)
          end in
        mkWorld reports' docs' (<[reportId := negb upvoted]> (userUpvotes w))
                (alerts w)
      else
        mkWorld (reports w) (userUpvotesDocs w) (userUpvotes w)
                (alerts w ++ [("Error",
                               "Failed to upvote report. Please try again.")])
  end.

(** One press of the upvote button: the handler, and the refresh it starts
    at the end of its [try] block, which is reached when the user is signed
    in and the write to the report went through. *)
Definition toggle (user : option string) (reportId docId : string)
    (w : World) : World :=
  match user with
  | Some _ =>
      if has_doc docId (reports w)
      then fetchReports user (handleUpvote user reportId docId w)
      else handleUpvote user reportId docId w
  | None => handleUpvote user reportId docId w
  end.

(** *** Readings of the stored state *)

(** The stored flag of [uid] for [reportId], if any. *)
Definition flag (w : World) (uid reportId : string) : option Z :=
  userUpvotesDocs w !! uid ≫= (fun fields => fields !! reportId).


(** The stored counter fields themselves. *)
Definition stored_counters (w : World) : list (string * option Z) :=
  map (fun d => (fst d, upvotes (snd d))) (reports w).




Definition approved_report (n : option Z) : Report :=
  {| id := "m30tslc0-lflr";
     imageUrl := "https://blobs.example/reports/m30tslc0-lflr.jpg";
     category := "Pothole";
     description := "Deep pothole";
     addressLine1 := "1 Main Street";
     addressLine2 := "";
     county := Some "Co. Dublin";
     eircode := "D01 F5P2";
     location := None;
     timestamp := 1730592000350;
     userId := "u1";
     status := approved;
     assigned := None;
     upvotes := n |}.


(** A feed in step with the store: the user has upvoted nothing yet. *)
Definition fresh_feed : World :=
  {| reports := [("doc1", approved_report None)];
     userUpvotesDocs := ∅;
     userUpvotes := ∅;
     alerts := [] |}.

(** *** Properties *)








(** A first-time upvoter: nothing is stored for the user, and after two
    presses the document exists with flag 0 and the counter field holds 0. *)
Example toggle_twice_first_time :
  flag fresh_feed "u2" "m30tslc0-lflr" = None /\
  stored_counters fresh_feed = [("doc1", None)] /\
  flag (toggle (Some "u2") "m30tslc0-lflr" "doc1"
          (toggle (Some "u2") "m30tslc0-lflr" "doc1" fresh_feed))
       "u2" "m30tslc0-lflr" = Some 0 /\
  stored_counters (toggle (Some "u2") "m30tslc0-lflr" "doc1"
                     (toggle (Some "u2") "m30tslc0-lflr" "doc1" fresh_feed))
  = [("doc1", Some 0)].
Proof. repeat split; vm_compute; reflexivity. Qed.


(** *** The list of the feed, its county options and its filters *)

(** One element of [reportsData]: [upvotes: doc.data().upvotes || 0]. *)
Definition loaded (d : string * Report) : string * Report :=
  (fst d,
   mkReport (id (snd d)) (imageUrl (snd d)) (category (snd d))
            (description (snd d)) (addressLine1 (snd d))
            (addressLine2 (snd d)) (county (snd d)) (eircode (snd d))
            (location (snd d)) (timestamp (snd d)) (userId (snd d))
            (status (snd d)) (assigned (snd d))
            (Some (default 0 (upvotes (snd d))))).

(** The comparator of the in-memory sort; every stored report carries a
    timestamp. *)
Definition by_newest (a b : string * Report) : Z :=
  timestamp (snd b) - timestamp (snd a).

(** The list [fetchReports] passes to [setReports]. *)
Definition reportsData (docs : list (string * Report))
  : list (string * Report) :=
  Js.sort by_newest
    (map loaded
       (List.filter (fun d => bool_decide (status (snd d) = approved)) docs)).

(** [Array.from(new Set(l))]: the distinct elements, each at the place of
    its first occurrence. *)
Definition Set_add (acc : list string) (x : string) : list string :=
  if existsb (String.eqb x) acc then acc else (acc ++ [x])%list.

Definition Array_from_Set (l : list string) : list string :=
  fold_left Set_add l [].

(** [reportsData.map(report => report.county).filter(Boolean)] *)
Definition county_names (l : list (string * Report)) : list string :=
  omap (fun c => c)
    (List.filter
       (fun c => match c with
                 | Some s => Js.truthy_string s
                 | None => false
                 end)
       (map (fun d => county (snd d)) l)).

(** The list [fetchReports] passes to [setCounties]. *)
Definition counties (l : list (string * Report)) : list string :=
  let reportCounties := Array_from_Set (county_names l) in
  let normalizedReportCounties :=
    map IrishCounties.countyWithPrefix reportCounties in
  Array_from_Set (normalizedReportCounties ++ IrishCounties.irishCounties)%list.

Inductive SortBy := by_upvotes | newest.

Record FilterOptions := mkFilterOptions {
  search : string;
  filter_category : string;
  filter_county : string;
  sortBy : SortBy
}.

(** The predicate of the search filter. *)
Definition matches_search (searchLower : string) (d : string * Report)
  : bool :=
  Js.includes (Js.toLowerCase (description (snd d))) searchLower
  || Js.includes (Js.toLowerCase (category (snd d))) searchLower
  || match county (snd d) with
     | Some c =>
         Js.truthy_string c && Js.includes (Js.toLowerCase c) searchLower
     | None => false
     end.

(** The predicate of the county filter: [report.county || ""] and the
    chosen county are compared after normalising the prefix. *)
Definition matches_county (normalizedFilterCounty : string)
    (d : string * Report) : bool :=
  let reportCounty :=
    match county (snd d) with
    | Some c => Js.or_string c ""
    | None => ""
    end in
  String.eqb (IrishCounties.countyWithPrefix reportCounty)
             normalizedFilterCounty.

Definition by_most_upvoted (a b : string * Report) : Z :=
  default 0 (upvotes (snd b)) - default 0 (upvotes (snd a)).

(** The three filters of the effect, before the sorting. *)
Definition filtered (reports : list (string * Report)) (fo : FilterOptions)
  : list (string * Report) :=
  let f1 :=
    if Js.truthy_string (search fo)
    then List.filter (matches_search (Js.toLowerCase (search fo))) reports
    else reports in
  let f2 :=
    if Js.truthy_string (filter_category fo)
    then List.filter
           (fun d => String.eqb (category (snd d)) (filter_category fo)) f1
    else f1 in
  if Js.truthy_string (filter_county fo)
  then List.filter
         (matches_county (IrishCounties.countyWithPrefix (filter_county fo)))
         f2
  else f2.

(** The list the effect passes to [setFilteredReports]. *)
Definition applyFilters (reports : list (string * Report))
    (fo : FilterOptions) : list (string * Report) :=
  match sortBy fo with
  | by_upvotes => Js.sort by_most_upvoted (filtered reports fo)
  | newest => filtered reports fo
  end.

Definition with_sortBy (s : SortBy) (fo : FilterOptions) : FilterOptions :=
  mkFilterOptions (search fo) (filter_category fo) (filter_county fo) s.

Definition with_county (c : string) (fo : FilterOptions) : FilterOptions :=
  mkFilterOptions (search fo) (filter_category fo) c (sortBy fo).

(** The filter options the screen starts with and returns to on
    "Clear filters". *)
Definition no_filter : FilterOptions := mkFilterOptions "" "" "" by_upvotes.

Lemma Set_add_spec (acc : list string) (x : string) :
  List.NoDup acc ->
  List.NoDup (Set_add acc x) /\
  forall y, In y (Set_add acc x) <-> In y acc \/ y = x.
Proof.
  intros Hnd. unfold Set_add.
  destruct (existsb (String.eqb x) acc) eqn:E.
  - split; [assumption|]. intros y. split; [tauto|].
    intros [H| ->]; [assumption|].
    apply existsb_exists in E as (z & Hz & Heq).
    apply String.eqb_eq in Heq. now subst z.
  - split.
    + apply (Permutation_NoDup (Permutation_cons_append acc x)).
      constructor; [|assumption].
      intros Hin. assert (Ht : existsb (String.eqb x) acc = true).
      { apply existsb_exists. exists x.
        split; [assumption|apply String.eqb_refl]. }
      rewrite Ht in E. discriminate.
    + intros y. rewrite in_app_iff. simpl. intuition.
Qed.

Lemma fold_Set_add_spec (l acc : list string) :
  List.NoDup acc ->
  List.NoDup (fold_left Set_add l acc) /\
  forall y, In y (fold_left Set_add l acc) <-> In y acc \/ In y l.
Proof.
  revert acc. induction l as [|x l IH]; intros acc Hnd; simpl.
  - split; [assumption|]. intros y. tauto.
  - destruct (Set_add_spec acc x Hnd) as [Hnd' Hin'].
    destruct (IH _ Hnd') as [Hnd2 Hin2]. split; [assumption|].
    intros y. rewrite Hin2, Hin'. intuition.
Qed.

Lemma Array_from_Set_spec (l : list string) :
  List.NoDup (Array_from_Set l) /\
  forall y, In y (Array_from_Set l) <-> In y l.
Proof.
  destruct (fold_Set_add_spec l [] (List.NoDup_nil _)) as [Hnd Hin].
  split; [assumption|]. intros y. rewrite Hin. simpl. tauto.
Qed.

Lemma county_names_spec (l : list (string * Report)) (c : string) :
  In c (county_names l) <->
  c <> "" /\ exists d, In d l /\ county (snd d) = Some c.
Proof.
  unfold county_names. induction l as [|d l IH]; simpl.
  - split; [tauto|]. intros (_ & d & [] & _).
  - destruct (county (snd d)) as [s|] eqn:Ec.
    + destruct (Js.truthy_string s) eqn:Et; simpl.
      * rewrite IH. split.
        -- intros [<-|(Hne & d' & Hin & Hc)].
           ++ split; [now apply Js.truthy_string_spec|eauto].
           ++ split; [assumption|eauto].
        -- intros (Hne & d' & [<-|Hin] & Hc).
           ++ left. congruence.
           ++ right. eauto.
      * rewrite IH. split.
        -- intros (Hne & d' & Hin & Hc). eauto.
        -- intros (Hne & d' & [<-|Hin] & Hc); [|eauto].
           exfalso. rewrite Ec in Hc. inversion Hc; subst.
           apply Js.truthy_string_spec in Hne. congruence.
    + rewrite IH. split.
      * intros (Hne & d' & Hin & Hc). eauto.
      * intros (Hne & d' & [<-|Hin] & Hc); [congruence|eauto].
Qed.

Lemma countyWithPrefix_starts (c : string) :
  Js.startsWith (IrishCounties.countyWithPrefix c) "Co. " = true.
Proof.
  unfold IrishCounties.countyWithPrefix.
  destruct (Js.startsWith c "Co. ") eqn:E; [assumption|].
  unfold Js.startsWith. cbn. now destruct c.
Qed.

Lemma countyWithPrefix_fixed (c : string) :
  Js.startsWith c "Co. " = true -> IrishCounties.countyWithPrefix c = c.
Proof. intros H. unfold IrishCounties.countyWithPrefix. now rewrite H. Qed.

Lemma reportsData_spec (docs : list (string * Report)) (d : string * Report) :
  In d (reportsData docs) <->
  exists d0, In d0 docs /\ status (snd d0) = approved /\ d = loaded d0.
Proof.
  unfold reportsData. split.
  - intros H. apply (Permutation_in _ (Permutation_sym (Js.sort_perm _ _))) in H.
    apply in_map_iff in H as (d0 & <- & Hin).
    apply filter_In in Hin as [Hin Hs]. apply bool_decide_eq_true in Hs.
    eauto.
  - intros (d0 & Hin & Hs & ->).
    apply (Permutation_in _ (Js.sort_perm _ _)).
    apply in_map. apply filter_In. split; [assumption|].
    now apply bool_decide_eq_true.
Qed.

(** X17. The county options of the feed. The list has no duplicates, holds
    every canonical county, and each of its entries starts with "Co. ".
    The county of every approved report that has one is offered in its
    prefixed form, and every entry is a canonical county or the prefixed
    county of an approved report. *)
Theorem county_options (docs : list (string * Report)) :
  let options := counties (reportsData docs) in
  List.NoDup options /\
  (forall c, In c IrishCounties.irishCounties -> In c options) /\
  (forall c, In c options -> Js.startsWith c "Co. " = true) /\
  (forall d c, In d docs -> status (snd d) = approved ->
               county (snd d) = Some c -> c <> "" ->
               In (IrishCounties.countyWithPrefix c) options) /\
  (forall o, In o options ->
             In o IrishCounties.irishCounties \/
             exists d c, In d docs /\ status (snd d) = approved /\
                         county (snd d) = Some c /\ c <> "" /\
                         o = IrishCounties.countyWithPrefix c).
Proof.
  intros options. subst options. unfold counties.
  set (names := county_names (reportsData docs)).
  destruct (Array_from_Set_spec names) as [_ Hrc].
  destruct (Array_from_Set_spec
              (map IrishCounties.countyWithPrefix (Array_from_Set names)
               ++ IrishCounties.irishCounties)%list) as [Hnd Hin].
  assert (Hnames : forall c, In c names <->
            c <> "" /\ exists d, In d docs /\ status (snd d) = approved /\
                                 county (snd d) = Some c).
  { intros c. unfold names. rewrite county_names_spec. split.
    - intros (Hne & d & Hd & Hc). split; [assumption|].
      apply reportsData_spec in Hd as (d0 & Hin0 & Hs & ->).
      exists d0. auto.
    - intros (Hne & d & Hd & Hs & Hc). split; [assumption|].
      exists (loaded d). split; [|assumption].
      apply reportsData_spec. eauto. }
  split; [assumption|]. split.
  { intros c Hc. apply Hin, in_or_app. now right. }
  split.
  { intros c Hc. apply Hin, in_app_or in Hc as [Hc|Hc].
    - apply in_map_iff in Hc as (c0 & <- & _). apply countyWithPrefix_starts.
    - clear -Hc. revert c Hc. apply List.Forall_forall.
      vm_compute. repeat constructor. }
  split.
  { intros d c Hd Hs Hc Hne. apply Hin, in_or_app. left.
    apply in_map, Hrc, Hnames. eauto. }
  intros o Ho. apply Hin, in_app_or in Ho as [Ho|Ho]; [|now left].
  right. apply in_map_iff in Ho as (c & <- & Hc).
  apply Hrc, Hnames in Hc as (Hne & d & Hd & Hs & Hc).
  exists d, c. auto.
Qed.

Lemma filtered_spec (reports : list (string * Report)) (fo : FilterOptions)
    (d : string * Report) :
  In d (filtered reports fo) <->
  In d reports /\
  (search fo <> "" -> matches_search (Js.toLowerCase (search fo)) d = true) /\
  (filter_category fo <> "" -> category (snd d) = filter_category fo) /\
  (filter_county fo <> "" ->
   matches_county (IrishCounties.countyWithPrefix (filter_county fo)) d = true).
Proof.
  unfold filtered.
  destruct (Js.truthy_string (search fo)) eqn:E1;
    destruct (Js.truthy_string (filter_category fo)) eqn:E2;
    destruct (Js.truthy_string (filter_county fo)) eqn:E3;
    rewrite ?filter_In, ?String.eqb_eq;
    repeat match goal with
    | H : Js.truthy_string ?s = true |- _ =>
        apply Js.truthy_string_spec in H
    | H : Js.truthy_string ?s = false |- _ =>
        assert (s = "") by (destruct s; [reflexivity|discriminate]);
        clear H
    end;
    intuition congruence.
Qed.

Lemma filtered_sorted (R : string * Report -> string * Report -> Prop)
    (reports : list (string * Report)) (fo : FilterOptions) :
  StronglySorted R reports -> StronglySorted R (filtered reports fo).
Proof.
  assert (Hf : forall p l, StronglySorted R l ->
                           StronglySorted R (List.filter p l)).
  { intros p l Hs. induction Hs as [|x l Hs IH Hx]; simpl; [constructor|].
    destruct (p x); [|assumption]. constructor; [assumption|].
    rewrite List.Forall_forall in *. intros y Hy.
    apply filter_In in Hy as [Hy _]. now apply Hx. }
  intros Hs. unfold filtered.
  destruct (Js.truthy_string (search fo));
    destruct (Js.truthy_string (filter_category fo));
    destruct (Js.truthy_string (filter_county fo)); auto.
Qed.

(** X18. What the filters of the feed show. The filtered list holds only
    reports of the feed; the choice of the sort order changes the order
    and not the reports shown; sorted by upvotes the list is in descending
    order of the counters, and sorted by date it keeps the order of the
    feed, newest first. A county can be chosen with or without its "Co. "
    prefix, and the county filter shows exactly the reports whose county,
    prefixed when it is not, is the chosen county prefixed when it is
    not. *)
Theorem filters_spec (docs : list (string * Report)) (fo : FilterOptions) :
  (forall d, In d (applyFilters (reportsData docs) fo) ->
             In d (reportsData docs)) /\
  Permutation (applyFilters (reportsData docs) (with_sortBy by_upvotes fo))
              (applyFilters (reportsData docs) (with_sortBy newest fo)) /\
  StronglySorted
    (fun a b => default 0 (upvotes (snd a)) >= default 0 (upvotes (snd b)))
    (applyFilters (reportsData docs) (with_sortBy by_upvotes fo)) /\
  StronglySorted (fun a b => timestamp (snd a) >= timestamp (snd b))
    (applyFilters (reportsData docs) (with_sortBy newest fo)) /\
  (forall c, c <> "" -> Js.startsWith c "Co. " = false ->
     applyFilters (reportsData docs) (with_county ("Co. " ++ c) fo)
     = applyFilters (reportsData docs) (with_county c fo)) /\
  (forall c s d, c <> "" ->
     (In d (applyFilters (reportsData docs) (with_county c (with_sortBy s no_filter)))
      <-> In d (reportsData docs) /\
          IrishCounties.countyWithPrefix
            (match county (snd d) with Some x => x | None => "" end)
          = IrishCounties.countyWithPrefix c)).
Proof.
  split.
  { intros d Hd. unfold applyFilters in Hd.
    destruct (sortBy fo).
    - apply (Permutation_in _ (Permutation_sym (Js.sort_perm _ _))) in Hd.
      now apply filtered_spec in Hd.
    - now apply filtered_spec in Hd. }
  split.
  { unfold applyFilters, with_sortBy. cbn [sortBy].
    symmetry. apply Js.sort_perm. }
  split.
  { unfold applyFilters, with_sortBy. cbn [sortBy].
    apply (Js.sort_by_key (fun d => default 0 (upvotes (snd d)))). }
  split.
  { unfold applyFilters, with_sortBy. cbn [sortBy].
    apply filtered_sorted. unfold reportsData.
    apply (Js.sort_by_key (fun d => timestamp (snd d))). }
  split.
  { intros c Hne Hp. unfold applyFilters, with_county. cbn [sortBy].
    assert (E : filtered (reportsData docs)
                  (mkFilterOptions (search fo) (filter_category fo)
                     ("Co. " ++ c) (sortBy fo))
                = filtered (reportsData docs)
                    (mkFilterOptions (search fo) (filter_category fo)
                       c (sortBy fo))).
    { unfold filtered. cbn [search filter_category filter_county].
      rewrite IrishCounties.countyWithPrefix_prefixed.
      unfold IrishCounties.countyWithPrefix. rewrite Hp.
      destruct c; [contradiction|reflexivity]. }
    now rewrite E. }
  intros c s d Hne.
  assert (Hf : In d (filtered (reportsData docs)
                       (with_county c (with_sortBy s no_filter)))
               <-> In d (reportsData docs) /\
                   IrishCounties.countyWithPrefix
                     (match county (snd d) with Some x => x | None => "" end)
                   = IrishCounties.countyWithPrefix c).
  { rewrite filtered_spec. cbn [with_county with_sortBy no_filter search
      filter_category filter_county].
    unfold matches_county. rewrite String.eqb_eq.
    assert (Hor : match county (snd d) with
                  | Some c0 => Js.or_string c0 ""
                  | None => ""
                  end
                  = match county (snd d) with Some x => x | None => "" end).
    { destruct (county (snd d)) as [[|a x]|]; reflexivity. }
    rewrite Hor. intuition congruence. }
  unfold applyFilters. cbn [with_county with_sortBy sortBy].
  destruct s; [|exact Hf].
  rewrite <- Hf. split; intros H.
  - now apply (Permutation_in _ (Permutation_sym (Js.sort_perm _ _))) in H.
  - now apply (Permutation_in _ (Js.sort_perm _ _)).
Qed.

(** *** Presses from any view, and many presses *)












End Feed.

(** ** The account screen: message list; the scheduled sweep *)

Module AccountScreen.
Import Doc.

Local Open Scope list_scope.

(** A message as the screen holds it: the storage id and the data. *)
Definition Entry : Type := string * Message.

(** The clock, the listener attached ([queryTime] is the [new Date()] its
    query was built with, [delivered] says whether it has delivered a
    snapshot yet), the [messages] collection and the component state
    [messages]. *)
Record State := mkState {
  now : Z;
  queryTime : Z;
  delivered : bool;
  store : list Entry;
  shown : list Entry
}.

(** The result of the query built by [fetchMessages] for user [uid] at
    time [queryTime] ([new Date()] when the listener is created):
    [where("userId", "==", uid)], [where("expiresAt", ">", queryTime)],
    [orderBy("expiresAt", "desc")]. *)
Definition query_result (uid : string) (queryTime : Z) (docs : list Entry)
  : list Entry :=
  Js.sort (fun a b => msg_expiresAt (snd b) - msg_expiresAt (snd a))
    (List.filter
       (fun e => String.eqb (msg_userId (snd e)) uid
                 && (queryTime <? msg_expiresAt (snd e)))
       docs).

Definition mark_read (m : Message) : Message :=
  mkMessage (msg_userId m) (msg_title m) (msg_content m) (msg_type m)
            (msg_reportId m) (msg_createdAt m) true (msg_expiresAt m).

(** [msg.id === messageId ? { ...msg, read: true } : msg] *)
Definition read_if (messageId : string) (e : Entry) : Entry :=
  if String.eqb (fst e) messageId then (fst e, mark_read (snd e)) else e.

Definition other_than (messageId : string) (e : Entry) : bool :=
  negb (String.eqb (fst e) messageId).

(** [deleteExpiredMessages] (functions/src/index.ts), run at time [now]:
    every document with [expiresAt < now] is deleted. *)
Definition deleteExpiredMessages (now : Z) (docs : list Entry) : list Entry :=
  List.filter (fun e => negb (msg_expiresAt (snd e) <? now)) docs.

(** What can happen while [uid] stays signed in on the mounted screen: time
    passes; the effect runs again (its dependencies change whenever a page
    of the report history is loaded), which detaches the listener and
    builds a new one with the current time, the list staying as it is;
    the listener delivers the current result of its query, whose bound
    stays the time it was built with; the collection changes under any
    writer (moderation handlers, other devices); the sweep runs; the user
    marks a message read; the user dismisses a message. *)
Inductive step (uid : string) : State -> State -> Prop :=
| step_time s later :
    now s <= later ->
    step uid s (mkState later (queryTime s) (delivered s) (store s) (shown s))
| step_fetchMessages s :
    step uid s (mkState (now s) (now s) false (store s) (shown s))
| step_snapshot s :
    step uid s
         (mkState (now s) (queryTime s) true (store s)
                  (query_result uid (queryTime s) (store s)))
| step_store s docs :
    step uid s (mkState (now s) (queryTime s) (delivered s) docs (shown s))
| step_sweep s :
    step uid s
         (mkState (now s) (queryTime s) (delivered s)
                  (deleteExpiredMessages (now s) (store s)) (shown s))
| step_handleMessageRead s messageId :
    step uid s
         (mkState (now s) (queryTime s) (delivered s)
                  (map (read_if messageId) (store s))
                  (map (read_if messageId) (shown s)))
| step_handleDismiss s messageId :
    step uid s
         (mkState (now s) (queryTime s) (delivered s)
                  (List.filter (other_than messageId) (store s))
                  (List.filter (other_than messageId) (shown s))).

(** The states the screen goes through: it is mounted at [mountTime], when
    the first listener is built, with an empty list. *)
Inductive reachable (uid : string) (mountTime : Z) : State -> Prop :=
| reach_mount docs :
    reachable uid mountTime (mkState mountTime mountTime false docs [])
| reach_step s s' :
    reachable uid mountTime s -> step uid s s' ->
    reachable uid mountTime s'.




Definition message_for (uid : string) (expiresAt : Z) : Message :=
  {| msg_userId := uid;
     msg_title := "Report Approved";
     msg_content := "Your report has been approved.";
     msg_type := approval;
     msg_reportId := "m30tslc0-lflr";
     msg_createdAt := expiresAt - 7200000;
     msg_read := false;
     msg_expiresAt := expiresAt |}.

(** One message already expired at time 1000 and not yet swept, one still
    valid, one of another user. *)
Definition unswept_store : list Entry :=
  [ ("m1", message_for "u1" 900);
    ("m2", message_for "u1" 5000);
    ("m3", message_for "u9" 6000) ].

Example query_hides_expired :
  query_result "u1" 1000 unswept_store = [("m2", message_for "u1" 5000)].
Proof. reflexivity. Qed.

(** *** Properties *)









(** The sweep run at [now] keeps every message that has not expired by
    [now]. *)
Lemma sweep_keeps_unexpired (now : Z) (docs : list Entry) (e : Entry) :
  In e docs -> now <= msg_expiresAt (snd e) ->
  In e (deleteExpiredMessages now docs).
Proof.
  intros Hin Hle. apply filter_In. split; [assumption|].
  apply negb_true_iff, Z.ltb_ge. lia.
Qed.








(** *** The sweep seen from the screen *)

Lemma filter_filter_and {A} (p q : A -> bool) (l : list A) :
  List.filter p (List.filter q l) = List.filter (fun x => q x && p x) l.
Proof.
  induction l as [|x l IH]; [reflexivity|]. simpl.
  destruct (q x); simpl; [destruct (p x)|]; now rewrite IH.
Qed.

Lemma sweep_spec (now : Z) (docs : list Entry) (e : Entry) :
  In e (deleteExpiredMessages now docs) <->
  In e docs /\ now <= msg_expiresAt (snd e).
Proof.
  unfold deleteExpiredMessages. rewrite filter_In, negb_true_iff, Z.ltb_ge.
  tauto.
Qed.

(** X21. What a sweep does to the message list. A listener created at
    [queryTime] that is delivered the collection after a sweep run at
    [now] shows exactly what a listener created at the later of the two
    moments would show on the unswept collection; in particular a sweep
    run no later than one millisecond after the listener was created
    changes nothing on the screen. The sweep removes the messages that
    expired before [now] and no other, and running it again at the same
    moment removes nothing more. *)
Theorem sweep_is_a_later_query (uid : string) (queryTime now : Z)
    (docs : list Entry) :
  query_result uid queryTime (deleteExpiredMessages now docs)
  = query_result uid (Z.max queryTime (now - 1)) docs /\
  (now <= queryTime + 1 ->
   query_result uid queryTime (deleteExpiredMessages now docs)
   = query_result uid queryTime docs) /\
  (forall e, In e (deleteExpiredMessages now docs) <->
             In e docs /\ now <= msg_expiresAt (snd e)) /\
  deleteExpiredMessages now (deleteExpiredMessages now docs)
  = deleteExpiredMessages now docs.
Proof.
  assert (H : query_result uid queryTime (deleteExpiredMessages now docs)
              = query_result uid (Z.max queryTime (now - 1)) docs).
  { unfold query_result, deleteExpiredMessages. f_equal.
    rewrite filter_filter_and. apply List.filter_ext. intros e.
    destruct (String.eqb (msg_userId (snd e)) uid); cbn [andb];
      [|now rewrite andb_false_r].
    destruct (Z.ltb_spec (msg_expiresAt (snd e)) now);
      destruct (Z.ltb_spec queryTime (msg_expiresAt (snd e)));
      destruct (Z.ltb_spec (Z.max queryTime (now - 1)) (msg_expiresAt (snd e)));
      cbn [negb andb]; try reflexivity; lia. }
  split; [exact H|]. split.
  { intros Hle. rewrite H. f_equal. lia. }
  split; [intros e; apply sweep_spec|].
  unfold deleteExpiredMessages. rewrite filter_filter_and.
  apply List.filter_ext. intros e. now rewrite andb_diag.
Qed.

(** *** Loading the report history page by page *)

(** [Array.prototype.findIndex]; [None] for -1. *)
Fixpoint findIndex {A} (p : A -> bool) (l : list A) : option nat :=
  match l with
  | [] => None
  | x :: l' => if p x then Some O else option_map S (findIndex p l')
  end.

(** The body of [newReports.forEach] in the pagination branch of
    [fetchReports]. *)
Definition merge_one (updatedReports : list (string * Report))
    (newReport : (string * Report)) : list (string * Report) :=
  match findIndex (fun report => String.eqb (fst report) (fst newReport))
                  updatedReports with
  | None => updatedReports ++ [newReport]
  | Some existingReportIndex =>
      match updatedReports !! existingReportIndex with
      | Some existing =>
          if bool_decide (status (snd existing) <> status (snd newReport))
          then <[existingReportIndex := newReport]> updatedReports
          else updatedReports
      | None => updatedReports
      end
  end.

(** The updater passed to [setReports] when a further page arrives. *)
Definition mergeReports (prevReports newReports : list (string * Report))
  : list (string * Report) :=
  fold_left merge_one newReports prevReports.

(** The history list after [fetchReports] received [snapshot]: nothing is
    fetched without a signed-in user, an empty snapshot leaves the list
    alone, a refresh replaces it, a further page is merged into it. *)
Definition fetchReports (user : option string) (isRefreshing : bool)
    (snapshot prevReports : list (string * Report))
  : list (string * Report) :=
  match user with
  | None => prevReports
  | Some _ =>
      match snapshot with
      | [] => prevReports
      | _ :: _ =>
          if isRefreshing then snapshot
          else mergeReports prevReports snapshot
      end
  end.

Definition known (keys : list string) (k : string) : bool :=
  existsb (String.eqb k) keys.

Lemma known_spec (keys : list string) (k : string) :
  known keys k = true <-> In k keys.
Proof.
  unfold known. rewrite existsb_exists. split.
  - intros (x & Hx & He). apply String.eqb_eq in He. now subst.
  - intros H. exists k. split; [assumption|apply String.eqb_refl].
Qed.

Lemma findIndex_None {A} (p : A -> bool) (l : list A) :
  findIndex p l = None -> forall x, In x l -> p x = false.
Proof.
  induction l as [|y l IH]; simpl; [tauto|].
  destruct (p y) eqn:E; [discriminate|].
  destruct (findIndex p l); [discriminate|].
  intros _ x [<-|Hx]; auto.
Qed.

Lemma findIndex_Some {A} (p : A -> bool) (l : list A) (i : nat) :
  findIndex p l = Some i -> exists x, l !! i = Some x /\ p x = true.
Proof.
  revert i. induction l as [|y l IH]; simpl; [discriminate|].
  intros i. destruct (p y) eqn:E.
  - intros H. inversion H. subst. exists y. auto.
  - destruct (findIndex p l) as [j|]; [|discriminate].
    intros H. inversion H. subst. apply (IH j eq_refl).
Qed.

Lemma insert_same_key (l : list (string * Report)) (i : nat) (x n : (string * Report)) :
  l !! i = Some x -> fst x = fst n ->
  map fst (<[i := n]> l) = map fst l.
Proof.
  revert i. induction l as [|y l IH]; intros i Hi Hk; [discriminate|].
  destruct i as [|i]; simpl in *.
  - inversion Hi. subst. now rewrite Hk.
  - f_equal. now apply IH.
Qed.

Lemma insert_In (l : list (string * Report)) (i : nat) (x n e : (string * Report)) :
  l !! i = Some x ->
  (In e (<[i := n]> l) -> e = n \/ In e l) /\
  (In e l -> e = x \/ In e (<[i := n]> l)) /\
  In n (<[i := n]> l).
Proof.
  revert i. induction l as [|y l IH]; intros i Hi; [discriminate|].
  destruct i as [|i]; simpl in *.
  - inversion Hi. subst. intuition.
  - destruct (IH i Hi) as (H1 & H2 & H3). intuition.
Qed.

Lemma lookup_In (l : list (string * Report)) (i : nat) (x : (string * Report)) :
  l !! i = Some x -> In x l.
Proof.
  revert i. induction l as [|y l IH]; intros i Hi; [discriminate|].
  destruct i as [|i]; simpl in *.
  - inversion Hi. now left.
  - right. now apply (IH i).
Qed.

(** One report of the page merged into the list. *)
Lemma merge_one_spec (u : list (string * Report)) (n : (string * Report)) :
  map fst (merge_one u n)
  = (if known (map fst u) (fst n) then map fst u else map fst u ++ [fst n]) /\
  (forall e, In e (merge_one u n) -> In e u \/ e = n) /\
  (forall e, In e u -> fst e <> fst n -> In e (merge_one u n)) /\
  (List.NoDup (map fst u) ->
   exists r, In (fst n, r) (merge_one u n) /\ status r = status (snd n)).
Proof.
  unfold merge_one.
  destruct (findIndex (fun report => String.eqb (fst report) (fst n)) u)
    as [i|] eqn:Ef.
  - apply findIndex_Some in Ef as (x & Hx & Hk). apply String.eqb_eq in Hk.
    rewrite Hx.
    assert (Hkn : known (map fst u) (fst n) = true).
    { apply known_spec. rewrite <- Hk. apply in_map.
      now apply (lookup_In u i). }
    rewrite Hkn.
    destruct (decide (status (snd x) <> status (snd n))) as [Hd|Hd].
    + rewrite bool_decide_eq_true_2 by assumption.
      split; [now apply (insert_same_key u i x n)|].
      split; [intros e He;
              destruct (insert_In u i x n e Hx) as (H1 & _); tauto|].
      split.
      * intros e He Hne. destruct (insert_In u i x n e Hx) as (_ & H2 & _).
        destruct (H2 He) as [->|]; [contradiction|assumption].
      * intros _. exists (snd n). split; [|reflexivity].
        destruct (insert_In u i x n n Hx) as (_ & _ & H3).
        now destruct n.
    + rewrite bool_decide_eq_false_2 by assumption.
      split; [reflexivity|]. split; [tauto|]. split; [tauto|].
      intros _. exists (snd x). split.
      * rewrite <- Hk. apply (lookup_In u i). now destruct x.
      * destruct (decide (status (snd x) = status (snd n))); [assumption|].
        contradiction.
  - pose proof (findIndex_None _ _ Ef) as Hnone.
    assert (Hkn : known (map fst u) (fst n) = false).
    { destruct (known (map fst u) (fst n)) eqn:E; [|reflexivity].
      apply known_spec, in_map_iff in E as (x & Hk & Hin).
      specialize (Hnone x Hin). cbv beta in Hnone.
      rewrite Hk, String.eqb_refl in Hnone. discriminate. }
    rewrite Hkn, map_app. split; [reflexivity|].
    split; [intros e He; apply in_app_or in He as [|[<-|[]]]; auto|].
    split; [intros e He _; apply in_or_app; now left|].
    intros _. exists (snd n). split; [|reflexivity].
    apply in_or_app. right. left. now destruct n.
Qed.

Lemma filter_unknown_snoc (keys rest : list string) (k : string) :
  ~ In k rest ->
  List.filter (fun x => negb (known (keys ++ [k]) x)) rest
  = List.filter (fun x => negb (known keys x)) rest.
Proof.
  intros Hk. apply List.filter_ext_in. intros x Hx. f_equal.
  apply eq_true_iff_eq. rewrite !known_spec, in_app_iff. simpl.
  split; [|tauto]. intros [H|[Heq|[]]]; [assumption|subst; contradiction].
Qed.

Lemma mergeReports_spec (newReports prevReports : list (string * Report)) :
  List.NoDup (map fst prevReports) ->
  List.NoDup (map fst newReports) ->
  map fst (mergeReports prevReports newReports)
  = map fst prevReports
    ++ List.filter (fun k => negb (known (map fst prevReports) k))
         (map fst newReports) /\
  List.NoDup (map fst (mergeReports prevReports newReports)) /\
  (forall e, In e (mergeReports prevReports newReports) ->
             In e prevReports \/ In e newReports) /\
  (forall e, In e prevReports -> ~ In (fst e) (map fst newReports) ->
             In e (mergeReports prevReports newReports)) /\
  (forall n, In n newReports ->
     exists r, In (fst n, r) (mergeReports prevReports newReports) /\
               status r = status (snd n)).
Proof.
  unfold mergeReports. revert prevReports.
  induction newReports as [|n new IH]; intros prev Hp Hn; cbn [fold_left map].
  - cbn [List.filter]. rewrite app_nil_r.
    repeat split; auto. intros n [].
  - cbn [map] in Hn. apply List.NoDup_cons_iff in Hn as [Hnotin Hn].
    destruct (merge_one_spec prev n) as (Hk & Hsub & Hkeep & Hst).
    assert (Hp1 : List.NoDup (map fst (merge_one prev n))).
    { rewrite Hk. destruct (known (map fst prev) (fst n)) eqn:E;
        [assumption|].
      apply (Permutation_NoDup (Permutation_cons_append _ (fst n))).
      constructor; [|assumption]. intros Hin.
      apply known_spec in Hin. congruence. }
    destruct (IH (merge_one prev n) Hp1 Hn) as (K & ND & SUB & KEEP & ST).
    split.
    { rewrite K, Hk. cbn [List.filter].
      destruct (known (map fst prev) (fst n)) eqn:E; cbn [negb].
      - reflexivity.
      - rewrite (filter_unknown_snoc _ _ _ Hnotin), <- app_assoc.
        reflexivity. }
    split; [assumption|]. split.
    { intros e He. destruct (SUB e He) as [H|H]; [|right; now right].
      destruct (Hsub e H) as [?| ->]; [now left|right; now left]. }
    split.
    { intros e He Hne. apply KEEP.
      - apply Hkeep; [assumption|]. intros Heq. apply Hne. now left.
      - intros Hin. apply Hne. now right. }
    intros n' [<-|Hn']; [|now apply ST].
    destruct (Hst Hp) as (r & Hr & Hs). exists r. split; [|assumption].
    apply KEEP; assumption.
Qed.

(** X23. Loading a further page of the report history. With storage ids
    unique in the list and in the page, the merged list keeps every report
    it held, in place, and appends the reports of the page it did not
    hold, in the order of the page; its ids stay unique; it holds nothing
    but reports of the old list and of the page; and every report of the
    page is afterwards listed with the status the page carries. A refresh
    replaces the list by the page, and an empty page changes nothing. *)
Theorem history_page_merge (uid : string)
    (snapshot prevReports : list (string * Report)) :
  List.NoDup (map fst prevReports) ->
  List.NoDup (map fst snapshot) ->
  let merged := fetchReports (Some uid) false snapshot prevReports in
  map fst merged
  = map fst prevReports
    ++ List.filter (fun k => negb (known (map fst prevReports) k))
         (map fst snapshot) /\
  List.NoDup (map fst merged) /\
  (forall e, In e merged -> In e prevReports \/ In e snapshot) /\
  (forall e, In e prevReports -> ~ In (fst e) (map fst snapshot) ->
             In e merged) /\
  (forall n, In n snapshot ->
     exists r, In (fst n, r) merged /\ status r = status (snd n)) /\
  (snapshot <> [] ->
   fetchReports (Some uid) true snapshot prevReports = snapshot) /\
  fetchReports (Some uid) true [] prevReports = prevReports.
Proof.
  intros Hp Hn merged.
  assert (E : merged = mergeReports prevReports snapshot).
  { subst merged. unfold fetchReports. now destruct snapshot. }
  rewrite E.
  destruct (mergeReports_spec snapshot prevReports Hp Hn)
    as (H1 & H2 & H3 & H4 & H5).
  repeat (split; [assumption|]).
  split; [|reflexivity].
  intros Hne. unfold fetchReports. now destruct snapshot.
Qed.

Definition history_report (s : Status) : Report :=
  {| id := "m30tslc0-lflr";
     imageUrl := "https://blobs.example/reports/m30tslc0-lflr.jpg";
     category := "Pothole";
     description := "Deep pothole";
     addressLine1 := "1 Main Street";
     addressLine2 := "";
     county := Some "Co. Dublin";
     eircode := "D01 F5P2";
     location := None;
     timestamp := 1730592000350;
     userId := "u1";
     status := s;
     assigned := None;
     upvotes := None |}.

Definition first_page : list (string * Report) :=
  [("d1", history_report approved); ("d2", history_report approved)].

Definition second_page : list (string * Report) :=
  [("d2", history_report completed); ("d3", history_report approved)].

Example merge_second_page :
  fetchReports (Some "u1") false second_page first_page
  = [("d1", history_report approved); ("d2", history_report completed);
     ("d3", history_report approved)].
Proof. reflexivity. Qed.

Lemma history_page_merge_witness :
  let merged := fetchReports (Some "u1") false second_page first_page in
  map fst merged
  = map fst first_page
    ++ List.filter (fun k => negb (known (map fst first_page) k))
         (map fst second_page) /\
  List.NoDup (map fst merged) /\
  (forall e, In e merged -> In e first_page \/ In e second_page) /\
  (forall e, In e first_page -> ~ In (fst e) (map fst second_page) ->
             In e merged) /\
  (forall n, In n second_page ->
     exists r, In (fst n, r) merged /\ status r = status (snd n)) /\
  (second_page <> [] ->
   fetchReports (Some "u1") true second_page first_page = second_page)
  /\ fetchReports (Some "u1") true [] first_page = first_page.
Proof.
  apply (history_page_merge "u1" second_page first_page).
  - simpl. repeat constructor; simpl; intuition discriminate.
  - simpl. repeat constructor; simpl; intuition discriminate.
Defined.

End AccountScreen.

(** ** From the dashboard to the owner's message list *)

Module Notifications.
Import Doc.

Local Open Scope list_scope.

(** The message a handler composes for the owner of report [R]. *)
Definition composed (a : AdminDashboard.Action) (ses : AdminDashboard.Session)
    (R : Report) : Message :=
  match a with
  | AdminDashboard.Approve => AdminDashboard.approval_message ses R (id R)
  | AdminDashboard.Decline => AdminDashboard.decline_message ses R (id R)
  | AdminDashboard.Complete => AdminDashboard.completion_message ses R (id R)
  end.

Lemma handle_notifies (a : AdminDashboard.Action)
    (ses : AdminDashboard.Session) (w : AdminDashboard.World)
    (docId : string) (R : Report) :
  In (docId, R) (AdminDashboard.reports w) ->
  AdminDashboard.unique_ids (AdminDashboard.reports w) ->
  AdminDashboard.unique_docIds (AdminDashboard.reports w) ->
  AdminDashboard.processingId w <> Some docId ->
  AdminDashboard.messages
    (AdminDashboard.exec (AdminDashboard.handle a ses (id R) docId) w)
  = AdminDashboard.messages w ++ [composed a ses R].
Proof.
  intros Hin Hui Hud Hg. unfold AdminDashboard.exec.
  pose proof (AdminDashboard.filter_unique_key (fun d => id (snd d)) _
                (docId, R) Hui Hin) as Hq.
  pose proof (AdminDashboard.filter_unique_key fst _ (docId, R) Hud Hin)
    as Hd.
  cbn [fst snd] in Hq, Hd.
  destruct a; cbn [AdminDashboard.handle composed].
  - rewrite (AdminDashboard.handleApprove_result ses w (id R) docId Hg), Hq.
    now rewrite (AdminDashboard.has_doc_In _ _ _ Hin).
  - now rewrite (AdminDashboard.handleDecline_result ses w (id R) docId Hg), Hq.
  - now rewrite (AdminDashboard.handleComplete_result ses w (id R) docId Hg), Hd.
Qed.

(** X22. A moderation message reaches the owner and nobody else. When an
    admin approves, declines or completes a stored report (generated ids
    and storage ids unique, no transition in progress for it, the store
    accepting the two writes), the one message added is unread and expires at the reading of the admin's
    device clock moved two hours ahead on the local wall clock of the
    device (7 200 000 ms later when the UTC offset of the device is the
    same at both moments). Once stored under any id it is listed on the
    account screen of a user exactly when that user owns the report and
    the listener was created before that expiry, and no sweep run up to
    that expiry deletes it. *)
Theorem moderation_message_reaches_owner (a : AdminDashboard.Action)
    (ses : AdminDashboard.Session) (w : AdminDashboard.World)
    (docId : string) (R : Report) :
  In (docId, R) (AdminDashboard.reports w) ->
  AdminDashboard.unique_ids (AdminDashboard.reports w) ->
  AdminDashboard.unique_docIds (AdminDashboard.reports w) ->
  AdminDashboard.processingId w <> Some docId ->
  exists m expiresAt,
    AdminDashboard.messages
      (AdminDashboard.exec (AdminDashboard.handle a ses (id R) docId) w)
    = AdminDashboard.messages w ++ [m] /\
    msg_read m = false /\
    msg_expiresAt m = expiresAt /\
    expiresAt
    = Js.UTC (AdminDashboard.LocalTZA ses)
        (Js.LocalTime (AdminDashboard.LocalTZA ses)
           (AdminDashboard.clientNow ses) + 2 * 60 * 60 * 1000) /\
    (AdminDashboard.same_offset ses ->
     expiresAt = AdminDashboard.clientNow ses + 2 * 60 * 60 * 1000) /\
    forall (messageId uid : string) (queryTime : Z)
           (docs : list AccountScreen.Entry),
      In (messageId, m) docs ->
      (In (messageId, m) (AccountScreen.query_result uid queryTime docs) <->
       uid = userId R /\ queryTime < expiresAt) /\
      (forall now, now <= expiresAt ->
                   In (messageId, m)
                      (AccountScreen.deleteExpiredMessages now docs)).
Proof.
  intros Hin Hui Hud Hg.
  exists (composed a ses R), (AdminDashboard.expiry ses).
  split; [now apply handle_notifies|].
  assert (Hu : msg_userId (composed a ses R) = userId R)
    by now destruct a.
  assert (He : msg_expiresAt (composed a ses R) = AdminDashboard.expiry ses)
    by now destruct a.
  split; [now destruct a|].
  split; [exact He|].
  split; [apply AdminDashboard.expiry_local|].
  split; [apply AdminDashboard.expiry_same_offset|].
  intros messageId uid queryTime docs Hdocs. split.
  - unfold AccountScreen.query_result. split.
    + intros H.
      apply (Permutation_in _ (Permutation_sym (Js.sort_perm _ _))) in H.
      apply filter_In in H as [_ H]. cbn [snd] in H.
      apply andb_true_iff in H as [H1 H2].
      apply String.eqb_eq in H1. apply Z.ltb_lt in H2.
      rewrite Hu in H1. rewrite He in H2. auto.
    + intros [-> Hlt]. apply (Permutation_in _ (Js.sort_perm _ _)).
      apply filter_In. split; [assumption|]. cbn [snd].
      apply andb_true_iff. split.
      * rewrite Hu. apply String.eqb_refl.
      * apply Z.ltb_lt. now rewrite He.
  - intros now Hnow. apply AccountScreen.sweep_spec.
    split; [assumption|]. cbn [snd]. now rewrite He.
Qed.

Lemma moderation_message_reaches_owner_witness :
  exists m expiresAt,
    AdminDashboard.messages
      (AdminDashboard.exec
         (AdminDashboard.handle AdminDashboard.Approve AdminDashboard.admin_B
            (id AdminDashboard.pending_report) "doc1")
         (AdminDashboard.initial_world
            [("doc1", AdminDashboard.pending_report)]))
    = AdminDashboard.messages
        (AdminDashboard.initial_world
           [("doc1", AdminDashboard.pending_report)]) ++ [m] /\
    msg_read m = false /\
    msg_expiresAt m = expiresAt /\
    expiresAt
    = Js.UTC (AdminDashboard.LocalTZA AdminDashboard.admin_B)
        (Js.LocalTime (AdminDashboard.LocalTZA AdminDashboard.admin_B)
           (AdminDashboard.clientNow AdminDashboard.admin_B)
         + 2 * 60 * 60 * 1000) /\
    (AdminDashboard.same_offset AdminDashboard.admin_B ->
     expiresAt
     = AdminDashboard.clientNow AdminDashboard.admin_B + 2 * 60 * 60 * 1000) /\
    forall (messageId uid : string) (queryTime : Z)
           (docs : list AccountScreen.Entry),
      In (messageId, m) docs ->
      (In (messageId, m) (AccountScreen.query_result uid queryTime docs) <->
       uid = userId AdminDashboard.pending_report /\ queryTime < expiresAt) /\
      (forall now,
          now <= expiresAt ->
          In (messageId, m) (AccountScreen.deleteExpiredMessages now docs)).
Proof.
  apply (moderation_message_reaches_owner AdminDashboard.Approve
           AdminDashboard.admin_B
           (AdminDashboard.initial_world
              [("doc1", AdminDashboard.pending_report)])
           "doc1" AdminDashboard.pending_report).
  - simpl. auto.
  - unfold AdminDashboard.unique_ids. simpl.
    constructor; [simpl; tauto|constructor].
  - unfold AdminDashboard.unique_docIds. simpl.
    constructor; [simpl; tauto|constructor].
  - simpl. discriminate.
Defined.

End Notifications.
